(** * Verification of [src/utils/pure.ts]

    A shallow embedding of the utility functions of [src/utils/pure.ts]
    and the properties the specification states about them.

    Definitions:
    - [Js]: the dynamically typed values the functions receive, numbers,
      strings and truthiness.
    - [Uuid]: [createUUID] over the strong byte source.
    - [Rand]: [random], [getRandomItem], [randomString], [getVisitId] over
      the outcomes of [Math.random].
    - [Obj]: the heap of containers, and [getNewObject], [cloneObject],
      [deepMergeObject] over it.
    - [Jsonp]: [jsonp2Object] over [JSON.parse].
    - [Paging]: [getPageNum] and [getUnixTime].
    - [Buvid]: [getBuvid] over the strong byte source.
    - [Copies]: what key-by-key copies leave, and what a deep copy is.
    - [Arrays]: [pushIfNotExist], [addIfNotExist], [isTodayInTimeArr]
      and [arr2numArr] over the heap.
    - [Headers]: [mergeHeaders] over the heap.
    - [Pick]: [getRandomItem] on an array.
    - [UuidSource]: the bytes behind the digits of a UUID.
    - [Double]: lines 58-70 of [random] on binary64 numbers, and the
      integers on which exact arithmetic is that of the doubles.

    Properties: [UuidFacts], [JsFacts], [RandFacts], [ObjFacts] for what
    the specification states; [RandMoreFacts], [UuidMoreFacts], [JsonpFacts],
    [PagingFacts], [BuvidFacts], [ArraysFacts], [CopiesFacts],
    [HeadersFacts], [DeepCloneFacts], [MergeFacts] for what the code
    shows besides.

    Numbers are modelled exactly: a JavaScript number is a rational (or
    [NaN]) and arithmetic does not round or overflow.  This agrees with
    IEEE doubles wherever the operands and results are integers of
    magnitude below 2^53; a property that holds of the doubles only
    within such bounds states them as hypotheses ([Double.safe_integer],
    [Double.small]), and [Double] shows on the doubles themselves what
    happens beyond them.

    Properties are read through own properties: [Obj.get_own] and
    [Obj.set_own] are the source's [o[k]] and [o[k] = v] on every key
    but those that [Object.prototype] answers for ([__proto__],
    [toString], ...), and a property that such a key would break asks
    for keys without them ([Copies.plain_keys], [Copies.proto_free],
    [Headers.header_keys]).  Lowering is that of ASCII text. *)

From Stdlib Require Import QArith Qround Qreduction ZArith String Ascii List.
From Stdlib Require Import DecimalString HexadecimalString.
From Stdlib Require PrimFloat.
From stdpp Require Import gmap strings list sorting.

Local Open Scope Z_scope.

(* ================================================================== *)
(** * JavaScript values *)
(* ================================================================== *)

Module Js.

(** ** Numbers *)

Inductive number : Type :=
| Num (q : Q)
| NaN.

Definition of_Z (z : Z) : number := Num (inject_Z z).

(** Binary arithmetic; a [NaN] operand gives [NaN].  Results are kept
    in lowest terms so that equal numbers are equal terms.  The
    arithmetic is exact: it is that of the source's doubles where no
    operation rounds or overflows, as on integers of magnitude below
    2^53, and properties that need this say so in their hypotheses. *)
Definition lift2 (f : Q -> Q -> Q) (a b : number) : number :=
  match a, b with
  | Num x, Num y => Num (Qred (f x y))
  | _, _ => NaN
  end.

Definition add : number -> number -> number := lift2 Qplus.
Definition sub : number -> number -> number := lift2 Qminus.
Definition mul : number -> number -> number := lift2 Qmult.

(** [a > b]; every comparison with [NaN] is false. *)
Definition gt (a b : number) : bool :=
  match a, b with
  | Num x, Num y => negb (Qle_bool x y)
  | _, _ => false
  end.

(** Rounding towards zero, as the remainder operator needs it. *)
Definition Qtrunc (x : Q) : Z :=
  if Qle_bool 0 x then Qfloor x else Qceiling x.

(** [a % 1]: the fractional part, with the sign of [a]. *)
Definition rem1 (a : number) : number :=
  match a with
  | Num x => Num (Qred (x - inject_Z (Qtrunc x)))
  | NaN => NaN
  end.

Definition Math_floor (a : number) : number :=
  match a with
  | Num x => of_Z (Qfloor x)
  | NaN => NaN
  end.

Definition Math_min (a b : number) : number :=
  match a, b with
  | Num x, Num y => if Qle_bool x y then a else b
  | _, _ => NaN
  end.

(** A number is falsy when it is zero or [NaN]. *)
Definition number_truthy (a : number) : bool :=
  match a with
  | Num x => negb (Qeq_bool x 0)
  | NaN => false
  end.

(** The integer a number denotes, if it denotes one. *)
Definition to_integer (a : number) : option Z :=
  match a with
  | Num x => let r := Qred x in
             if Pos.eqb (Qden r) 1 then Some (Qnum r) else None
  | NaN => None
  end.

(** [Number.prototype.toString] in base ten, for [NaN] and for the
    integers that print in plain positional notation (below 10^21);
    the shortest-round-trip printing of fractions is not modelled. *)
Definition Number_toString (a : number) : option string :=
  match a with
  | NaN => Some "NaN"%string
  | Num _ =>
      match to_integer a with
      | Some z =>
          if Z.ltb (Z.abs z) (10 ^ 21)
          then Some (DecimalString.NilZero.string_of_int (Z.to_int z))
          else None
      | None => None
      end
  end.

(** ** Values *)

Definition loc : Type := positive.

(** A value is a primitive or a reference to a container in the heap. *)
Inductive value : Type :=
| VUndefined
| VNull
| VBool (b : bool)
| VNum (n : number)
| VStr (s : string)
| VRef (l : loc).

Definition is_undefined (v : value) : bool :=
  match v with VUndefined => true | _ => false end.

(** [typeof v === 'boolean'] *)
Definition is_boolean (v : value) : bool :=
  match v with VBool _ => true | _ => false end.

(** Truthiness: [undefined], [null], [false], [0], [NaN] and the empty
    string are falsy, everything else (every object too) is truthy. *)
Definition ToBoolean (v : value) : bool :=
  match v with
  | VUndefined | VNull => false
  | VBool b => b
  | VNum n => number_truthy n
  | VStr s => negb (String.eqb s "")
  | VRef _ => true
  end.

(** [ToNumber] on the primitives that convert without parsing; strings
    and objects are left out. *)
Definition ToNumber (v : value) : option number :=
  match v with
  | VUndefined => Some NaN
  | VNull => Some (of_Z 0)
  | VBool b => Some (of_Z (if b then 1 else 0))
  | VNum n => Some n
  | VStr _ | VRef _ => None
  end.

(** [ToString] on primitives. *)
Definition ToString (v : value) : option string :=
  match v with
  | VUndefined => Some "undefined"%string
  | VNull => Some "null"%string
  | VBool b => Some (if b then "true" else "false")%string
  | VNum n => Number_toString n
  | VStr s => Some s
  | VRef _ => None
  end.

(** [a || b] *)
Definition or_else (a b : value) : value :=
  if ToBoolean a then a else b.

(** ** Strings *)

(** [s[k]] for a string [s] and a number [k]: the one-character string
    at an integer index within range, [undefined] otherwise. *)
Definition string_index (s : string) (k : number) : value :=
  match to_integer k with
  | Some z =>
      if Z.leb 0 z then
        match String.get (Z.to_nat z) s with
        | Some c => VStr (String c EmptyString)
        | None => VUndefined
        end
      else VUndefined
  | None => VUndefined
  end.

Definition is_upper (c : ascii) : bool :=
  (Nat.leb 65 (nat_of_ascii c) && Nat.leb (nat_of_ascii c) 90)%bool.
Definition is_lower (c : ascii) : bool :=
  (Nat.leb 97 (nat_of_ascii c) && Nat.leb (nat_of_ascii c) 122)%bool.
Definition is_digit (c : ascii) : bool :=
  (Nat.leb 48 (nat_of_ascii c) && Nat.leb (nat_of_ascii c) 57)%bool.

Definition lower_char (c : ascii) : ascii :=
  if is_upper c then ascii_of_nat (nat_of_ascii c + 32) else c.

(** [s.toLowerCase()] on ASCII text: [A-Z] are lowered and nothing
    else.  On text with other letters the source lowers more ([É]), so
    properties about arbitrary text ask for ASCII. *)
Fixpoint toLowerCase (s : string) : string :=
  match s with
  | EmptyString => EmptyString
  | String c s' => String (lower_char c) (toLowerCase s')
  end.

End Js.

(* ================================================================== *)
(** * createUUID *)
(* ================================================================== *)

Module Uuid.

(** ** Anchored patterns of counted character classes

    [^c1{n1}c2{n2}...$], the shape of the pattern the specification
    gives for a UUID. *)

Definition atom : Type := ((ascii -> bool) * nat)%type.

(** Consume exactly [n] characters of class [p]. *)
Fixpoint eat (p : ascii -> bool) (n : nat) (s : string) : option string :=
  match n with
  | O => Some s
  | S n' =>
      match s with
      | String c s' => if p c then eat p n' s' else None
      | EmptyString => None
      end
  end.

Fixpoint matches (pat : list atom) (s : string) : bool :=
  match pat with
  | [] => String.eqb s ""
  | (p, n) :: pat' =>
      match eat p n s with
      | Some rest => matches pat' rest
      | None => false
      end
  end.

Definition one_of (cs : string) (c : ascii) : bool :=
  existsb (Ascii.eqb c) (list_ascii_of_string cs).

Definition hex : ascii -> bool := one_of "0123456789abcdef".
Definition dash : ascii -> bool := one_of "-".

(** [^[0-9a-f]{8}-[0-9a-f]{4}-4[0-9a-f]{3}-[89ab][0-9a-f]{3}-[0-9a-f]{12}$] *)
Definition uuid_pattern : list atom :=
  [ (hex, 8%nat); (dash, 1%nat);
    (hex, 4%nat); (dash, 1%nat);
    (one_of "4", 1%nat); (hex, 3%nat); (dash, 1%nat);
    (one_of "89ab", 1%nat); (hex, 3%nat); (dash, 1%nat);
    (hex, 12%nat) ].

(** ** The generator *)

Section ByteSource.

(** The strong byte source: [randomBytes i] is the byte that the
    [i]-th call of [crypto.randomBytes(1)[0]] hands out. *)
Variable randomBytes : nat -> Byte.byte.

(** Computations that read the source; the state is the number of
    bytes read so far. *)
Definition Gen (A : Type) : Type := nat -> A * nat.

Definition ret {A} (a : A) : Gen A := fun i => (a, i).
Definition bind {A B} (m : Gen A) (k : A -> Gen B) : Gen B :=
  fun i => let (a, j) := m i in k a j.

Definition crypto_randomBytes_1_0 : Gen N :=
  fun i => (Byte.to_N (randomBytes i), S i).

(** [n.toString(16)] *)
Definition toString16 (n : N) : string :=
  HexadecimalString.NilZero.string_of_uint (N.to_hex_uint n).

(** The callback [t => ...] of the replacement. *)
Definition replacer (t : ascii) : Gen string :=
  bind crypto_randomBytes_1_0 (fun b =>
    let e := (b mod 16)%N in
    ret (toString16 (if Ascii.eqb t "x" then e else N.lor (N.land 3 e) 8))).

(** [s.replace(/[xy]/g, f)]: left to right, every [x] and [y] gives
    way to what [f] returns for it, other characters are copied. *)
Fixpoint replace_xy (f : ascii -> Gen string) (s : string) : Gen string :=
  match s with
  | EmptyString => ret EmptyString
  | String c s' =>
      if one_of "xy" c
      then bind (f c) (fun r =>
           bind (replace_xy f s') (fun rest => ret (r ++ rest)%string))
      else bind (replace_xy f s') (fun rest => ret (String c rest))
  end.

Definition createUUID : Gen string :=
  replace_xy replacer "xxxxxxxx-xxxx-4xxx-yxxx-xxxxxxxxxxxx".

End ByteSource.

(** How an output relates to its template, character by character. *)
Inductive filled : string -> string -> Prop :=
| filled_nil : filled "" ""
| filled_x c s out : hex c = true -> filled s out ->
                     filled (String "x" s) (String c out)
| filled_y c s out : one_of "89ab" c = true -> filled s out ->
                     filled (String "y" s) (String c out)
| filled_copy c s out : one_of "xy" c = false -> filled s out ->
                        filled (String c s) (String c out).

Fixpoint count_xy (s : string) : nat :=
  match s with
  | EmptyString => O
  | String c s' => ((if one_of "xy" c then 1 else 0) + count_xy s')%nat
  end.

End Uuid.

(* ================================================================== *)
(** * random, getRandomItem, randomString, getVisitId *)
(* ================================================================== *)

Module Rand.
Import Js.

(** One outcome of [Math.random()]: the sample and the length of its
    decimal text, [(rand + '').length], which the floating path of
    [random] reads. *)
Record draw : Type := { sample : Q; text_length : nat }.

(** [Math.random()] returns a number in [0, 1). *)
Definition in_unit_interval (d : draw) : Prop :=
  (0 <= sample d)%Q /\ (sample d < 1)%Q.

(** [parseFloat('1e-' + k)] *)
Definition parseFloat_1e_minus (k : nat) : number :=
  Num (Qred (1 / inject_Z (10 ^ Z.of_nat k))).

Section MathRandom.

(** The general-purpose generator: [Math_random i] is the outcome of the
    [i]-th call of [Math.random()]. *)
Variable Math_random : nat -> draw.

(** Computations that call [Math.random()]; the state is the number of
    calls made so far.  [None] stands for a step outside the model: an
    arithmetic operand that is a string or an object, or the printing of
    a fraction. *)
Definition Gen (A : Type) : Type := nat -> option (A * nat).

Definition ret {A} (a : A) : Gen A := fun i => Some (a, i).
Definition bind {A B} (m : Gen A) (k : A -> Gen B) : Gen B :=
  fun i => match m i with
           | Some (a, j) => k a j
           | None => None
           end.
Definition lift {A} (o : option A) : Gen A :=
  fun i => match o with
           | Some a => Some (a, i)
           | None => None
           end.

Notation "'let*' x ':=' m 'in' k" := (bind m (fun x => k))
  (at level 10, x name, m at level 100, k at level 200).

Definition Math_random_call : Gen draw := fun i => Some (Math_random i, S i).

(** Lines 38-71. *)
Definition random (lower upper floating : value) : Gen number :=
  (* if (floating && typeof floating !== 'boolean') upper = floating = undefined *)
  let '(upper, floating) :=
    if (ToBoolean floating && negb (is_boolean floating))%bool
    then (VUndefined, VUndefined)
    else (upper, floating) in
  (* if (floating === undefined) ... *)
  let '(lower, upper, floating) :=
    if is_undefined floating then
      if is_boolean upper then (lower, VUndefined, upper)
      else if is_boolean lower then (VUndefined, upper, lower)
      else (lower, upper, floating)
    else (lower, upper, floating) in
  (* defaults *)
  let '(lower, upper) :=
    if (is_undefined lower && is_undefined upper)%bool
    then (VNum (of_Z 0), VNum (of_Z 1))
    else if is_undefined upper then (VNum (of_Z 0), lower)
    else (lower, upper) in
  let* lower := lift (ToNumber lower) in
  let* upper := lift (ToNumber upper) in
  (* if (lower > upper) swap *)
  let '(lower, upper) :=
    if gt lower upper then (upper, lower) else (lower, upper) in
  if (ToBoolean floating || number_truthy (rem1 lower)
      || number_truthy (rem1 upper))%bool
  then
    let* d := Math_random_call in
    let rand := Num (sample d) in
    ret (Math_min
           (add lower
                (mul rand (add (sub upper lower)
                               (parseFloat_1e_minus (text_length d - 1)))))
           upper)
  else
    let* d := Math_random_call in
    ret (add lower
             (Math_floor (mul (Num (sample d)) (add (sub upper lower) (of_Z 1))))).

(** Lines 190-194, for a string. *)
Definition getRandomItem (indexable : string) : Gen value :=
  let* k := random (VNum (of_Z (Z.of_nat (String.length indexable) - 1)))
                   VUndefined VUndefined in
  ret (string_index indexable k).

Definition chars : string :=
  "1234567890abcdefghijklmnopqrstuvwxyzABCDEFGHIJKLMNOPQRSTUVWXYZ".

(** The loop of [randomString]: [n] rounds of [result += getRandomItem(chars)]. *)
Fixpoint randomString_loop (n : nat) (result : string) : Gen string :=
  match n with
  | O => ret result
  | S n' =>
      let* item := getRandomItem chars in
      let* text := lift (ToString item) in
      randomString_loop n' (result ++ text)%string
  end.

(** Lines 78-88. *)
Definition randomString (length : Z) (lower : value) : Gen string :=
  let* result := randomString_loop (Z.to_nat length) "" in
  if ToBoolean lower then ret (toLowerCase result) else ret result.

(** Lines 94-100. *)
Definition getVisitId : Gen string :=
  let* randomNum := random (VNum (of_Z 1)) (VNum (of_Z 9)) VUndefined in
  let* randomStr := randomString 10 (VBool true) in
  let* numText := lift (Number_toString randomNum) in
  ret (numText ++ randomStr ++ "0")%string.

End MathRandom.

(** Character classes of the visitor id. *)
Definition lower_alnum (c : ascii) : bool := (is_digit c || is_lower c)%bool.
Definition digit_1_9 (c : ascii) : bool :=
  (Nat.leb 49 (nat_of_ascii c) && Nat.leb (nat_of_ascii c) 57)%bool.

Fixpoint string_forall (p : ascii -> bool) (s : string) : bool :=
  match s with
  | EmptyString => true
  | String c s' => (p c && string_forall p s')%bool
  end.

(** A sample outcome: [Math.random()] returns [0.5]. *)
Definition coin : draw := {| sample := 1 # 2; text_length := 3 |}.

End Rand.

(* ================================================================== *)
(** * getNewObject, cloneObject, deepMergeObject *)
(* ================================================================== *)

Module Obj.
Import Js.

(** ** The heap

    Containers live in a heap and values refer to them by location, so
    that two references to one container, and a write through one of
    them, are what they are in the source.

    A sequence is a dense array.  A mapping is a plain object with own
    enumerable data properties, kept in creation order.  Members
    inherited from [Object.prototype] and [Array.prototype] are not
    modelled, nor are holes or named properties of arrays. *)

Inductive object : Type :=
| OArr (items : list value)
| OObj (props : list (string * value)).

Abbreviation heap := (gmap loc object).

Definition is_array (o : object) : bool :=
  match o with OArr _ => true | OObj _ => false end.

(** ** Property keys *)

(** The array index a key spells, if it is the canonical decimal text
    of an integer below 2^32 - 1. *)
Definition array_index (k : string) : option N :=
  match DecimalString.NilZero.uint_of_string k with
  | Some u =>
      let n := N.of_uint u in
      if (String.eqb (DecimalString.NilZero.string_of_uint (N.to_uint n)) k
          && N.ltb n (2 ^ 32 - 1))%bool
      then Some n else None
  | None => None
  end.

Definition index_key (i : nat) : string :=
  DecimalString.NilZero.string_of_uint (N.to_uint (N.of_nat i)).

Definition is_index (k : string) : Prop := is_Some (array_index k).

Definition index_le (a b : string) : Prop :=
  (default 0 (array_index a) <= default 0 (array_index b))%N.

#[global] Instance index_le_dec a b : Decision (index_le a b).
Proof. unfold index_le. apply _. Defined.

(** The order in which own keys are enumerated: array indices in
    ascending order, then the other keys in creation order. *)
Definition ordered_keys (ks : list string) : list string :=
  merge_sort index_le (filter is_index ks)
  ++ filter (fun k => ~ is_index k) ks.

(** [props[k]] as an own property. *)
Fixpoint lookup_prop (k : string) (props : list (string * value)) : option value :=
  match props with
  | [] => None
  | (k', v) :: rest => if String.eqb k k' then Some v else lookup_prop k rest
  end.

(** [props[k] = v]: an existing property is overwritten in place, a new
    one is created last. *)
Fixpoint set_prop (k : string) (v : value) (props : list (string * value))
  : list (string * value) :=
  match props with
  | [] => [(k, v)]
  | (k', v') :: rest =>
      if String.eqb k k' then (k, v) :: rest else (k', v') :: set_prop k v rest
  end.

(** [Object.keys(o)] *)
Definition own_keys (o : object) : list string :=
  match o with
  | OObj props => ordered_keys (map fst props)
  | OArr items => map index_key (seq 0 (length items))
  end.

(** The own property [o[k]], absent or present. *)
Definition own_prop (o : object) (k : string) : option value :=
  match o with
  | OObj props => lookup_prop k props
  | OArr items =>
      match array_index k with
      | Some n => items !! N.to_nat n
      | None =>
          if String.eqb k "length"
          then Some (VNum (of_Z (Z.of_nat (length items))))
          else None
      end
  end.

(** [o[k]]: an absent property reads as [undefined].  This is the
    source's read for a key that [o] owns and for a key that no
    prototype answers; for a key that [o] does not own and
    [Object.prototype] has ([__proto__], [toString], ...), the source
    reads the inherited member. *)
Definition get_own (o : object) (k : string) : value :=
  default VUndefined (own_prop o k).

(** [o[k] = v] on a mapping; writing a property of an array is not
    modelled.  This is the source's write for every key but
    [__proto__]: where the mapping does not own that key, the source
    calls the inherited setter and creates no property. *)
Definition set_own (o : object) (k : string) (v : value) : option object :=
  match o with
  | OObj props => Some (OObj (set_prop k v props))
  | OArr _ => None
  end.

(** ** Computations on the heap *)

Inductive outcome (A : Type) : Type :=
| Returns (a : A) (h : heap)
| Overflow
| Unmodelled.
Arguments Returns {A} a h.
Arguments Overflow {A}.
Arguments Unmodelled {A}.

(** [Overflow]: the recursion did not end within the fuel, the call
    stack is exhausted.  [Unmodelled]: a dangling reference, or a write
    to a property of an array. *)
Definition M (A : Type) : Type := heap -> outcome A.

Definition ret {A} (a : A) : M A := fun h => Returns a h.
Definition bind {A B} (m : M A) (k : A -> M B) : M B :=
  fun h => match m h with
           | Returns a h' => k a h'
           | Overflow => Overflow
           | Unmodelled => Unmodelled
           end.
Definition overflow {A} : M A := fun _ => Overflow.
Definition unmodelled {A} : M A := fun _ => Unmodelled.

Notation "'let*' x ':=' m 'in' k" := (bind m (fun x => k))
  (at level 10, x name, m at level 100, k at level 200).

(** A new container at a location not in use. *)
Definition alloc (o : object) : M value :=
  fun h => let l := fresh (dom h) in Returns (VRef l) (<[l := o]> h).

Definition deref (v : value) : M object :=
  fun h => match v with
           | VRef l => match h !! l with
                       | Some o => Returns o h
                       | None => Unmodelled
                       end
           | _ => Unmodelled
           end.

Definition store (v : value) (o : object) : M unit :=
  fun h => match v with
           | VRef l => Returns tt (<[l := o]> h)
           | _ => Unmodelled
           end.

(** [Object.keys(v)] *)
Definition Object_keys (v : value) : M (list string) :=
  let* o := deref v in ret (own_keys o).

(** [v[k]] *)
Definition get (v : value) (k : string) : M value :=
  let* o := deref v in ret (get_own o k).

(** [v[k] = x] *)
Definition set (v : value) (k : string) (x : value) : M unit :=
  let* o := deref v in
  match set_own o k x with
  | Some o' => store v o'
  | None => unmodelled
  end.

(** [Array.isArray(v)] *)
Definition Array_isArray (v : value) : M bool :=
  match v with
  | VRef _ => let* o := deref v in ret (is_array o)
  | _ => ret false
  end.

(** The elements of an array. *)
Definition items_of (o : object) : list value :=
  match o with OArr items => items | OObj _ => [] end.

Definition Array_items (v : value) : M (list value) :=
  let* o := deref v in ret (items_of o).

(** [items.map(f)] *)
Fixpoint mapM {A B} (f : A -> M B) (l : list A) : M (list B) :=
  match l with
  | [] => ret []
  | a :: l' => let* b := f a in let* bs := mapM f l' in ret (b :: bs)
  end.

(** [keys.reduce(f, acc)] *)
Fixpoint reduce {A} (f : A -> string -> M A) (keys : list string) (acc : A) : M A :=
  match keys with
  | [] => ret acc
  | k :: keys' => let* acc' := f acc k in reduce f keys' acc'
  end.

(** [Object.assign(target, source)] for one source. *)
Definition Object_assign (target source : value) : M value :=
  let* keys := Object_keys source in
  reduce (fun target key =>
            let* v := get source key in
            let* _ := set target key v in
            ret target)
         keys target.

(** [a.concat(b)] for two arrays: a new array. *)
Definition Array_concat (a b : value) : M value :=
  let* oa := deref a in
  let* ob := deref b in
  match oa, ob with
  | OArr xs, OArr ys => alloc (OArr (xs ++ ys))
  | _, _ => unmodelled
  end.

(** ** The functions *)

(** Modelled from the spec: [isObject] of [utils/is], which is not among
    the sources.  It holds of the containers, sequences and mappings,
    and of nothing else; [null] and [undefined] are not containers. *)
Definition isObject (v : value) : bool :=
  match v with VRef _ => true | _ => false end.

(** Lines 117-119: [object || {}]. *)
Definition getNewObject (object : value) : M value :=
  if ToBoolean object then ret object else alloc (OObj []).

(** Lines 126-140. *)
Fixpoint cloneObject (fuel : nat) (object : value) (deep : bool) : M value :=
  match fuel with
  | O => overflow
  | S fuel' =>
      if negb (isObject object) then ret object
      else
        let* isArr := Array_isArray object in
        if isArr then
          let* items := Array_items object in
          let* items' := mapM (fun item => cloneObject fuel' item deep) items in
          alloc (OArr items')
        else if deep then
          let* keys := Object_keys object in
          let* empty := alloc (OObj []) in
          reduce (fun result key =>
                    let* v := get object key in
                    let* c := cloneObject fuel' v deep in
                    let* _ := set result key c in
                    ret result)
                 keys empty
        else
          let* empty := alloc (OObj []) in
          Object_assign empty object
  end.

(** Lines 147-162. *)
Fixpoint deepMergeObject (fuel : nat) (target source : value) : M value :=
  match fuel with
  | O => overflow
  | S fuel' =>
      if (is_undefined target || is_undefined source)%bool
      then ret (or_else target source)
      else if (negb (isObject target) || negb (isObject source))%bool
      then ret source
      else
        let* targetIsArray := Array_isArray target in
        let* bothArrays :=
          if targetIsArray then Array_isArray source else ret false in
        if bothArrays then Array_concat target source
        else
          let* keys := Object_keys source in
          reduce (fun result key =>
                    let* t := get target key in
                    let* s := get source key in
                    let* merged := deepMergeObject fuel' t s in
                    let* _ := set result key merged in
                    ret result)
                 keys target
  end.

(** ** Shapes of inputs *)

(** [bounded h deep n v]: what [cloneObject v deep] visits of [v] nests
    at most [n] containers deep.  The elements of an array are always
    visited, the properties of a mapping when [deep] is set. *)
#[warnings="-register-all"]
Inductive bounded (h : heap) (deep : bool) : nat -> value -> Prop :=
| bounded_scalar n v :
    isObject v = false -> bounded h deep n v
| bounded_array n l items :
    h !! l = Some (OArr items) ->
    Forall (bounded h deep n) items ->
    bounded h deep (S n) (VRef l)
| bounded_mapping n l props :
    h !! l = Some (OObj props) ->
    (deep = true -> Forall (fun kv => bounded h deep n kv.2) props) ->
    bounded h deep (S n) (VRef l).

(** [reach h v l]: the container at [l] is [v] or is reached from [v]
    by reading properties. *)
Inductive reach (h : heap) : value -> loc -> Prop :=
| reach_here l : reach h (VRef l) l
| reach_step l o k l' :
    h !! l = Some o -> reach h (get_own o k) l' -> reach h (VRef l) l'.

(** [merges h n target source W R]: the pairs that
    [deepMergeObject target source] visits nest at most [n] deep.  [W]
    holds the containers it writes, the target-side mappings it meets,
    and it meets each of them once.  [R] holds the containers it reads
    without writing: the sources it enumerates and the arrays it
    returns or concatenates. *)
Inductive merges (h : heap) : nat -> value -> value -> gset loc -> gset loc -> Prop :=
| merges_leaf n t s :
    (is_undefined t || is_undefined s
     || negb (isObject t) || negb (isObject s))%bool = true ->
    merges h n t s ∅ ∅
| merges_array n lt ls xs os :
    h !! lt = Some (OArr xs) -> h !! ls = Some os ->
    is_array os = true \/ own_keys os = [] ->
    merges h n (VRef lt) (VRef ls) ∅ {[lt; ls]}
| merges_keyed n lt ls pt os (Wk Rk : string -> gset loc) :
    h !! lt = Some (OObj pt) -> h !! ls = Some os ->
    NoDup (own_keys os) ->
    (forall k, k ∈ own_keys os ->
               merges h n (get_own (OObj pt) k) (get_own os k) (Wk k) (Rk k)) ->
    (forall k k', k ∈ own_keys os -> k' ∈ own_keys os -> k <> k' -> Wk k ## Wk k') ->
    (forall k, k ∈ own_keys os -> lt ∉ Wk k) ->
    merges h (S n) (VRef lt) (VRef ls)
           ({[lt]} ∪ ⋃ (Wk <$> own_keys os))
           ({[ls]} ∪ ⋃ (Rk <$> own_keys os)).

(** ** Sample heaps *)

(** [[1, 2]] at 1 and [[3]] at 2. *)
Definition two_arrays : heap :=
  <[2%positive := OArr [VNum (of_Z 3)]]>
    (<[1%positive := OArr [VNum (of_Z 1); VNum (of_Z 2)]]> ∅).


(** [a = [b]] and [b = [a]]: two arrays that hold each other. *)
Definition ring : heap :=
  <[2%positive := OArr [VRef 1%positive]]> {[ 1%positive := OArr [VRef 2%positive] ]}.

(** [{a: [1]}] at 1, its array at 2. *)
Definition nested : heap :=
  <[2%positive := OArr [VNum (of_Z 1)]]> {[ 1%positive := OObj [("a", VRef 2%positive)] ]}.

(** [[1, {x: 2}]] at 1, its mapping at 2. *)
Definition mixed_array : heap :=
  <[2%positive := OObj [("x", VNum (of_Z 2))]]>
    {[ 1%positive := OArr [VNum (of_Z 1); VRef 2%positive] ]}.

(** A target [{a: {x: 1}, keep: 7}] at 1 and 2, and a source
    [{a: {y: 2}, b: 2}] at 3 and 4, that share nothing. *)
Definition settings : heap :=
  <[4%positive := OObj [("y", VNum (of_Z 2))]]>
    (<[3%positive := OObj [("a", VRef 4%positive); ("b", VNum (of_Z 2))]]>
       (<[2%positive := OObj [("x", VNum (of_Z 1))]]>
          {[ 1%positive := OObj [("a", VRef 2%positive); ("keep", VNum (of_Z 7))] ]})).

(** What the merge of [settings] writes and reads under each key of
    the source. *)
Definition settings_written (k : string) : gset loc :=
  if String.eqb k "a" then {[2%positive]} ∪ ⋃ ((fun _ => ∅) <$> ["y"]) else ∅.
Definition settings_read (k : string) : gset loc :=
  if String.eqb k "a" then {[4%positive]} ∪ ⋃ ((fun _ => ∅) <$> ["y"]) else ∅.

(** An empty target at 1 and a source [{opts: {tags: ['x']}}] at 2, 3
    and 4. *)
Definition defaults : heap :=
  <[4%positive := OArr [VStr "x"]]>
    (<[3%positive := OObj [("tags", VRef 4%positive)]]>
       (<[2%positive := OObj [("opts", VRef 3%positive)]]>
          {[ 1%positive := OObj [] ]})).

(** A target [{a: t, b: t}] that holds one mapping [t] twice, at 1 and
    2, and a source [{a: {x: {p: 1}}, b: {x: {q: 2}}}] at 3 to 7. *)
Definition shared_target : heap :=
  <[7%positive := OObj [("q", VNum (of_Z 2))]]>
    (<[6%positive := OObj [("p", VNum (of_Z 1))]]>
       (<[5%positive := OObj [("x", VRef 7%positive)]]>
          (<[4%positive := OObj [("x", VRef 6%positive)]]>
             (<[3%positive := OObj [("a", VRef 4%positive); ("b", VRef 5%positive)]]>
                (<[2%positive := OObj []]>
                   {[ 1%positive := OObj [("a", VRef 2%positive);
                                         ("b", VRef 2%positive)] ]}))))).

(** A target [{a: 1}] at 1 and a source [{b: 2}] at 2. *)
Definition flat : heap :=
  <[2%positive := OObj [("b", VNum (of_Z 2))]]>
    {[ 1%positive := OObj [("a", VNum (of_Z 1))] ]}.

End Obj.

(* ================================================================== *)
(** * jsonp2Object *)
(* ================================================================== *)

Module Jsonp.
Import Js.

(** [\w] *)
Definition is_word (c : ascii) : bool :=
  (is_digit c || is_lower c || is_upper c || Ascii.eqb c "_")%bool.

(** What is left of [s] after its longest run of word characters. *)
Fixpoint skip_word (s : string) : string :=
  match s with
  | EmptyString => EmptyString
  | String c s' => if is_word c then skip_word s' else s
  end.

(** [s.replace(/^\w+\(/, '')]: a leading run of word characters that an
    opening parenthesis follows goes away together with it. *)
Definition strip_callback (s : string) : string :=
  match s with
  | EmptyString => s
  | String c _ =>
      if is_word c then
        match skip_word s with
        | String "("%char rest => rest
        | _ => s
        end
      else s
  end.

(** [s.replace(/\)$/, '')]: a closing parenthesis at the very end goes
    away. *)
Fixpoint strip_closing (s : string) : string :=
  match s with
  | EmptyString => EmptyString
  | String c s' =>
      match s' with
      | EmptyString => if Ascii.eqb c ")" then EmptyString else s
      | String _ _ => String c (strip_closing s')
      end
  end.

Section Parse.

(** [JSON.parse], whatever it makes of a text (an error included). *)
Context {A : Type}.
Variable JSON_parse : string -> A.

(** Lines 17-20. *)
Definition jsonp2Object (jsonp : string) : A :=
  let jsonpData := strip_closing (strip_callback jsonp) in
  JSON_parse jsonpData.

End Parse.

End Jsonp.

(* ================================================================== *)
(** * getPageNum, getUnixTime *)
(* ================================================================== *)

Module Paging.
Import Js.

(** [a / b].  A quotient that is infinite, a nonzero number over zero,
    is outside the numbers modelled: [None].  The quotient is exact,
    where the source rounds it to a double. *)
Definition div (a b : number) : option number :=
  match a, b with
  | Num x, Num y =>
      if Qeq_bool y 0
      then (if Qeq_bool x 0 then Some NaN else None)
      else Some (Num (Qred (x / y)))
  | _, _ => Some NaN
  end.

Definition Math_ceil (a : number) : number :=
  match a with
  | Num x => of_Z (Qceiling x)
  | NaN => NaN
  end.

(** Lines 27-29. *)
Definition getPageNum (n m : number) : option number :=
  option_map Math_ceil (div m n).

(** Lines 257-259, [now] being [new Date().getTime()], the milliseconds
    since the epoch. *)
Definition getUnixTime (now : Z) : option number :=
  option_map Math_floor (div (of_Z now) (of_Z 1000)).

End Paging.

(* ================================================================== *)
(** * getBuvid *)
(* ================================================================== *)

Module Buvid.
Import Js Uuid.

Definition upper_char (c : ascii) : ascii :=
  if is_lower c then ascii_of_nat (nat_of_ascii c - 32) else c.

(** [s.toUpperCase()] on ASCII text. *)
Fixpoint toUpperCase (s : string) : string :=
  match s with
  | EmptyString => EmptyString
  | String c s' => String (upper_char c) (toUpperCase s')
  end.

(** Two hexadecimal digits for a byte. *)
Definition hex_of_byte (b : N) : string :=
  (toString16 (b / 16)%N ++ toString16 (b mod 16)%N)%string.

(** [buffer.toString('hex')] *)
Fixpoint Buffer_toString_hex (bytes : list N) : string :=
  match bytes with
  | [] => EmptyString
  | b :: bytes' => (hex_of_byte b ++ Buffer_toString_hex bytes')%string
  end.

Definition upper_hex : ascii -> bool := one_of "0123456789ABCDEF".

Section ByteSource.

Variable randomBytes : nat -> Byte.byte.

(** [crypto.randomBytes(n)]: the next [n] bytes of the source. *)
Fixpoint crypto_randomBytes (n : nat) : Gen (list N) :=
  match n with
  | O => ret []
  | S n' =>
      bind (crypto_randomBytes_1_0 randomBytes) (fun b =>
      bind (crypto_randomBytes n') (fun bytes => ret (b :: bytes)))
  end.

(** Lines 266-268.  The default of [prefix] stands in for [undefined];
    the result is [None] where the text of [prefix] is not modelled. *)
Definition getBuvid (prefix : value) : Gen (option string) :=
  let prefix := if is_undefined prefix then VStr "XY" else prefix in
  bind (crypto_randomBytes 16) (fun bytes =>
    ret (match ToString prefix with
         | Some text => Some (text ++ toUpperCase (Buffer_toString_hex bytes))%string
         | None => None
         end)).

End ByteSource.

End Buvid.

(* ================================================================== *)
(** * Copies of containers *)
(* ================================================================== *)

Module Copies.
Import Js Obj.

(** What a key-by-key copy leaves in the properties [acc]: for each of
    [keys] in turn, the property [f key] is set to [o[key]]. *)
Definition copy_props (f : string -> string) (o : object) (keys : list string)
    (acc : list (string * value)) : list (string * value) :=
  fold_left (fun acc key => set_prop (f key) (get_own o key) acc) keys acc.

(** The properties [Object.assign] leaves in a target that had [acc],
    for a source mapping with [source]. *)
Definition assigned (source acc : list (string * value)) : list (string * value) :=
  copy_props (fun key => key) (OObj source) (own_keys (OObj source)) acc.

(** [copied h h' n v v']: [v'] is a copy of [v], at most [n] containers
    deep, that shares no container with the heap [h] it was taken in.
    A scalar is its own copy; a container is copied to a location that
    [h] does not use, an array element by element, a mapping key by
    key. *)
#[warnings="-register-all"]
Inductive copied (h h' : heap) : nat -> value -> value -> Prop :=
| copied_scalar n v :
    isObject v = false -> copied h h' n v v
| copied_array n l l' items items' :
    h !! l = Some (OArr items) ->
    h !! l' = None -> h' !! l' = Some (OArr items') ->
    Forall2 (copied h h' n) items items' ->
    copied h h' (S n) (VRef l) (VRef l')
| copied_mapping n l l' props props' :
    h !! l = Some (OObj props) ->
    h !! l' = None -> h' !! l' = Some (OObj props') ->
    (forall k, is_Some (lookup_prop k props') <-> is_Some (lookup_prop k props)) ->
    (forall k, copied h h' n (get_own (OObj props) k) (get_own (OObj props') k)) ->
    copied h h' (S n) (VRef l) (VRef l').

(** The names [Object.prototype] answers for: a read of one of them on
    a mapping that does not own it gives the inherited member, and a
    write of [__proto__] makes no property. *)
Definition inherited_names : list string :=
  [ "__proto__"; "constructor"; "hasOwnProperty"; "isPrototypeOf";
    "propertyIsEnumerable"; "toLocaleString"; "toString"; "valueOf";
    "__defineGetter__"; "__defineSetter__"; "__lookupGetter__";
    "__lookupSetter__" ]%string.

Definition inherited (k : string) : bool :=
  existsb (String.eqb k) inherited_names.

(** [plain_keys h v]: no container reached from [v] has an own key that
    [Object.prototype] answers for. *)
Definition plain_keys (h : heap) (v : value) : Prop :=
  forall l o k,
    reach h v l -> h !! l = Some o -> k ∈ own_keys o -> inherited k = false.

(** [proto_free h v]: no mapping reached from [v] has an own key
    [__proto__]. *)
Definition proto_free (h : heap) (v : value) : Prop :=
  forall l props,
    reach h v l -> h !! l = Some (OObj props) ->
    lookup_prop "__proto__" props = None.

(** A target [{a: 0}] at 1 and a source [{a: undefined}] at 2. *)
Definition cleared : heap :=
  <[2%positive := OObj [("a"%string, VUndefined)]]>
    {[ 1%positive := OObj [("a"%string, VNum (of_Z 0))] ]}.

End Copies.

(* ================================================================== *)
(** * pushIfNotExist, addIfNotExist, isTodayInTimeArr, arr2numArr *)
(* ================================================================== *)

Module Arrays.
Import Js Obj.

(** The equality of [Array.prototype.includes]: by value on primitives,
    [NaN] equal to itself, by identity on containers. *)
Definition SameValueZero (a b : value) : bool :=
  match a, b with
  | VUndefined, VUndefined => true
  | VNull, VNull => true
  | VBool x, VBool y => Bool.eqb x y
  | VNum NaN, VNum NaN => true
  | VNum (Num x), VNum (Num y) => Qeq_bool x y
  | VStr x, VStr y => String.eqb x y
  | VRef x, VRef y => Pos.eqb x y
  | _, _ => false
  end.

(** The elements of [v] if it is an array; the methods below are those
    of arrays and no other receiver is modelled. *)
Definition elements (v : value) : M (list value) :=
  let* o := deref v in
  match o with
  | OArr items => ret items
  | OObj _ => unmodelled
  end.

(** No two elements of [items] are equal to [Array.prototype.includes]. *)
Definition duplicate_free (items : list value) : Prop :=
  forall i j x y,
    items !! i = Some x -> items !! j = Some y ->
    SameValueZero x y = true -> i = j.

(** [array.includes(item)] *)
Definition Array_includes (array item : value) : M bool :=
  let* items := elements array in
  ret (existsb (SameValueZero item) items).

(** [array.push(item)] *)
Definition Array_push (array item : value) : M unit :=
  let* items := elements array in
  store array (OArr (items ++ [item])).

(** Lines 107-111. *)
Definition pushIfNotExist (array item : value) : M unit :=
  let* found := Array_includes array item in
  if negb found then Array_push array item else ret tt.

(** Lines 273-277. *)
Definition addIfNotExist (arr item : value) : M unit :=
  let* found := Array_includes arr item in
  if negb found then Array_push arr item else ret tt.

(** Lines 246-252, [today] being [new Date().getDate()], the day of the
    month. *)
Definition isTodayInTimeArr (today : Z) (timeArr : value) : M bool :=
  if negb (ToBoolean timeArr) then ret true
  else
    let* items := elements timeArr in
    if negb (number_truthy (of_Z (Z.of_nat (length items)))) then ret true
    else Array_includes timeArr (VNum (of_Z today)).

(** [a === b] on numbers. *)
Definition strict_equal (a b : number) : bool :=
  match a, b with
  | Num x, Num y => Qeq_bool x y
  | _, _ => false
  end.

(** [array.filter(f)]: a new array. *)
Definition Array_filter (f : value -> bool) (array : value) : M value :=
  let* items := elements array in
  alloc (OArr (List.filter f items)).

(** [array.map(f)]: a new array. *)
Definition Array_map (f : value -> M value) (array : value) : M value :=
  let* items := elements array in
  let* items' := mapM f items in
  alloc (OArr items').

Section Conversion.

(** [Number(s)] for a string [s], whatever the text converts to. *)
Variable StringToNumber : string -> number.

(** [Number(v)]; the conversion of a container is not modelled. *)
Definition Number_call (v : value) : M value :=
  match v with
  | VStr s => ret (VNum (StringToNumber s))
  | _ => match ToNumber v with
         | Some n => ret (VNum n)
         | None => unmodelled
         end
  end.

(** What [Number_call] returns for a primitive. *)
Definition converted (v : value) : value :=
  match v with
  | VStr s => VNum (StringToNumber s)
  | _ => VNum (default NaN (ToNumber v))
  end.

(** [num => num > 0 && num % 1 === 0] *)
Definition positive_integer (num : value) : bool :=
  match num with
  | VNum n => (gt n (of_Z 0) && strict_equal (rem1 n) (of_Z 0))%bool
  | _ => false
  end.

(** Lines 230-232. *)
Definition arr2numArr (strArr : value) : M value :=
  if negb (ToBoolean strArr) then ret strArr
  else
    let* mapped := Array_map (fun str => Number_call str) strArr in
    Array_filter positive_integer mapped.

End Conversion.

End Arrays.

(* ================================================================== *)
(** * mergeHeaders *)
(* ================================================================== *)

Module Headers.
Import Js Obj.

(** Lines 217-222, the inner function. *)
Definition toLowerCase (object : value) : M value :=
  let* keys := Object_keys object in
  let* empty := alloc (OObj []) in
  reduce (fun result key =>
            let* v := get object key in
            let* _ := set result (Js.toLowerCase key) v in
            ret result)
         keys empty.

(** Lines 213-224.  A default stands in for an argument that is
    [undefined]. *)
Definition mergeHeaders (headers headersToMerge : value) : M value :=
  let* headers :=
    if is_undefined headers then alloc (OObj []) else ret headers in
  let* headersToMerge :=
    if is_undefined headersToMerge then alloc (OObj []) else ret headersToMerge in
  let* target := alloc (OObj []) in
  let* lowered := toLowerCase headers in
  let* loweredToMerge := toLowerCase headersToMerge in
  let* _ := Object_assign target lowered in
  Object_assign target loweredToMerge.

(** The properties of [toLowerCase(object)] for a mapping with
    [props]. *)
Definition lowered (props : list (string * value)) : list (string * value) :=
  Copies.copy_props Js.toLowerCase (OObj props) (own_keys (OObj props)) [].

(** The headers an argument stands for: none for [undefined], the
    properties of the mapping it refers to otherwise. *)
Definition headers_of (h : heap) (v : value) (props : list (string * value)) : Prop :=
  (v = VUndefined /\ props = [])
  \/ (exists l, v = VRef l /\ h !! l = Some (OObj props)).

(** No two keys of [props] differ in case only. *)
Definition case_distinct (props : list (string * value)) : Prop :=
  forall k k', is_Some (lookup_prop k props) -> is_Some (lookup_prop k' props) ->
               Js.toLowerCase k = Js.toLowerCase k' -> k = k'.

(** Text of ASCII characters. *)
Definition ascii_text (s : string) : bool :=
  Rand.string_forall (fun c => Nat.ltb (nat_of_ascii c) 128) s.

(** The keys of [props] are ASCII text, and none lowers to [__proto__]:
    the keys on which the lowering and the writes of the model are
    those of the source. *)
Definition header_keys (props : list (string * value)) : Prop :=
  forall k, is_Some (lookup_prop k props) ->
            ascii_text k = true /\ Js.toLowerCase k <> "__proto__"%string.

(** Headers [{'Content-Type': 'a', 'X-A': '1'}] at 1 and
    [{'content-type': 'b', Cookie: 'c'}] at 2. *)
Definition requests : heap :=
  <[2%positive := OObj [("content-type", VStr "b"); ("Cookie", VStr "c")]%string]>
    {[ 1%positive := OObj [("Content-Type", VStr "a"); ("X-A", VStr "1")]%string ]}.

End Headers.

(* ================================================================== *)
(** * getRandomItem on an array *)
(* ================================================================== *)

Module Pick.
Import Js Rand.

(** [items[k]] for the elements of an array and a number [k]. *)
Definition array_at (items : list value) (k : number) : value :=
  match to_integer k with
  | Some z => if Z.leb 0 z then default VUndefined (items !! Z.to_nat z) else VUndefined
  | None => VUndefined
  end.

Section MathRandom.

Variable Math_random : nat -> draw.

(** Lines 190-194, for an array with the elements [items]. *)
Definition getRandomItem (items : list value) : Gen value :=
  bind (random Math_random (VNum (of_Z (Z.of_nat (length items) - 1)))
               VUndefined VUndefined)
       (fun k => ret (array_at items k)).

End MathRandom.

End Pick.

(* ================================================================== *)
(** * The bytes behind a UUID *)
(* ================================================================== *)

Module UuidSource.
Import Js Uuid.

(** All 256 bytes. *)
Definition all_bytes : list Byte.byte := omap Byte.of_nat (seq 0 256).

(** The digit the callback of [createUUID] returns for the template
    character [t] when the source hands out [b]. *)
Definition digit_of (t : ascii) (b : Byte.byte) : string :=
  fst (replacer (fun _ => b) t 0%nat).

(** How many bytes give the digit [c] for [t]. *)
Definition bytes_giving (t c : ascii) : nat :=
  length (List.filter (fun b => String.eqb (digit_of t b) (String c EmptyString))
                      all_bytes).

(** The value of a lowercase hexadecimal digit, and a byte with that
    value. *)
Definition hex_value (c : ascii) : N :=
  if is_digit c then N.of_nat (nat_of_ascii c - 48) else N.of_nat (nat_of_ascii c - 87).

Definition byte_of_hex (c : ascii) : Byte.byte :=
  default Byte.x00 (Byte.of_N (hex_value c)).

(** The characters of [out] at the places where the template [s] has
    an [x] or a [y]. *)
Fixpoint payload (s out : string) : list ascii :=
  match s, out with
  | String c s', String d out' =>
      if one_of "xy" c then d :: payload s' out' else payload s' out'
  | _, _ => []
  end.

(** A source that hands out, from its [i]-th byte on, bytes with the
    values of the digits [ds]. *)
Definition source_of (i : nat) (ds : list ascii) : nat -> Byte.byte :=
  fun j => byte_of_hex (nth (j - i) ds "0"%char).

End UuidSource.

(* ================================================================== *)
(** * Numbers as doubles *)
(* ================================================================== *)

Module Double.
Import PrimFloat.

(** ** Where exact arithmetic is the arithmetic of the doubles *)

(** An integer that a double holds exactly, as do its neighbours. *)
Definition safe_integer (z : Z) : Prop := (Z.abs z < 2 ^ 53)%Z.

(** A number of magnitude below 2^52. *)
Definition small (q : Q) : Prop :=
  (inject_Z (- 2 ^ 52) < q /\ q < inject_Z (2 ^ 52))%Q.

(** ** Lines 58-70 on binary64 numbers *)

Local Open Scope float_scope.

Definition two52 : float := 0x1p52.

(** [Math.floor]: a double of magnitude 2^52 or more is an integer;
    below, adding and subtracting 2^52 rounds to an integer next to
    [x]. *)
Definition Math_floor (x : float) : float :=
  if x =? 0 then x
  else if abs x <? two52 then
    let t := if 0 <? x then (x + two52) - two52 else (x - two52) + two52 in
    if x <? t then t - 1 else t
  else x.

(** [x % 1] *)
Definition rem1 (x : float) : float :=
  x - (if x <? 0 then - Math_floor (- x) else Math_floor x).

(** A number is falsy when it is zero or [NaN]. *)
Definition truthy (x : float) : bool := (negb (x =? 0) && (x =? x))%bool.

Definition Math_min (a b : float) : float :=
  if (negb (a =? a) || negb (b =? b))%bool then nan
  else if a <? b then a
  else if b <? a then b
  else if 1 / a <? 0 then a else b.


(** Lines 58-70, for two numbers and a flag: [rand] is what
    [Math.random()] returned and [eps] what [parseFloat] made of its
    length. *)
Definition random (lower upper : float) (floating : bool) (rand eps : float) : float :=
  let '(lower, upper) :=
    if upper <? lower then (upper, lower) else (lower, upper) in
  if (floating || truthy (rem1 lower) || truthy (rem1 upper))%bool
  then Math_min (lower + rand * (upper - lower + eps)) upper
  else lower + Math_floor (rand * (upper - lower + 1)).

End Double.

(* ================================================================== *)
(** * Properties of createUUID *)
(* ================================================================== *)

Module UuidFacts.
Import Uuid.

Lemma one_of_xy c : one_of "xy" c = true -> c = "x"%char \/ c = "y"%char.
Proof.
  unfold one_of; simpl. rewrite !orb_true_iff, !Ascii.eqb_eq. intuition discriminate.
Qed.

(** What the callback returns: one hexadecimal digit for an [x], one of
    [8 9 a b] for a [y], and one byte is read. *)
Lemma replacer_x rb i :
  exists c, replacer rb "x" i = (String c "", S i) /\ hex c = true.
Proof.
  unfold replacer, bind, crypto_randomBytes_1_0, ret. simpl.
  destruct (rb i); vm_compute; eauto.
Qed.

Lemma replacer_y rb i :
  exists c, replacer rb "y" i = (String c "", S i) /\ one_of "89ab" c = true.
Proof.
  unfold replacer, bind, crypto_randomBytes_1_0, ret. simpl.
  destruct (rb i); vm_compute; eauto.
Qed.

Lemma replace_xy_filled rb s : forall i,
  exists out, replace_xy (replacer rb) s i = (out, (i + count_xy s)%nat)
              /\ filled s out.
Proof.
  induction s as [|c s IH]; intros i; simpl.
  - exists ""%string. unfold ret. rewrite Nat.add_0_r. split; [done | constructor].
  - destruct (one_of "xy" c) eqn:Hc.
    + unfold bind.
      destruct (one_of_xy c Hc) as [-> | ->].
      * destruct (replacer_x rb i) as (d & -> & Hd).
        destruct (IH (S i)) as (out & -> & Hout).
        exists (String d out). unfold ret; simpl.
        split; [f_equal; lia | by constructor].
      * destruct (replacer_y rb i) as (d & -> & Hd).
        destruct (IH (S i)) as (out & -> & Hout).
        exists (String d out). unfold ret; simpl.
        split; [f_equal; lia | by constructor].
    + unfold bind. destruct (IH i) as (out & -> & Hout).
      exists (String c out). unfold ret; simpl.
      split; [done | by constructor].
Qed.

Ltac invert_filled :=
  repeat match goal with
         | H : filled (String _ _) _ |- _ =>
             inversion H; clear H; subst; try discriminate
         | H : filled EmptyString _ |- _ =>
             inversion H; clear H; subst
         end.

(** Every filling of the UUID template has the UUID layout. *)
Lemma filled_template_layout out :
  filled "xxxxxxxx-xxxx-4xxx-yxxx-xxxxxxxxxxxx" out ->
  String.length out = 36%nat
  /\ matches uuid_pattern out = true
  /\ String.get 14 out = Some "4"%char
  /\ exists v, String.get 19 out = Some v /\ one_of "89ab" v = true.
Proof.
  intros H. invert_filled.
  repeat split; try reflexivity.
  - repeat first
      [ progress cbn [matches uuid_pattern eat]
      | match goal with
        | Hc : ?f ?c = true |- context [?f ?c] => rewrite Hc
        | |- context [dash "-"] => change (dash "-") with true
        | |- context [one_of "4" "4"] => change (one_of "4" "4") with true
        end ].
    reflexivity.
  - eexists; split; [reflexivity | assumption].
Qed.

(** C4.  Whatever bytes the strong source hands out, [createUUID]
    returns a string of 36 characters that matches
    [^[0-9a-f]{8}-[0-9a-f]{4}-4[0-9a-f]{3}-[89ab][0-9a-f]{3}-[0-9a-f]{12}$]:
    the 8-4-4-4-12 layout, the version nibble [4] and a variant nibble
    among [8 9 a b].  It reads 31 bytes. *)
Theorem createUUID_matches_pattern (randomBytes : nat -> Byte.byte) (i : nat) :
  exists uuid,
    createUUID randomBytes i = (uuid, (i + 31)%nat)
    /\ String.length uuid = 36%nat
    /\ matches uuid_pattern uuid = true
    /\ String.get 14 uuid = Some "4"%char
    /\ exists v, String.get 19 uuid = Some v /\ one_of "89ab" v = true.
Proof.
  destruct (replace_xy_filled randomBytes
              "xxxxxxxx-xxxx-4xxx-yxxx-xxxxxxxxxxxx" i) as (out & Hrun & Hfill).
  exists out. split; [exact Hrun | by apply filled_template_layout].
Qed.

End UuidFacts.

(* ================================================================== *)
(** * Properties of numbers *)
(* ================================================================== *)

Module JsFacts.
Import Js.

Lemma Qred_inject_Z_eq (q : Q) (z : Z) : (q == inject_Z z)%Q -> Qred q = inject_Z z.
Proof.
  intros H. rewrite <- (inject_Z_Qred z). by apply Qred_complete.
Qed.

Lemma add_of_Z a b : add (of_Z a) (of_Z b) = of_Z (a + b).
Proof.
  unfold add, lift2, of_Z. f_equal.
  apply Qred_inject_Z_eq. by rewrite inject_Z_plus.
Qed.

Lemma sub_of_Z a b : sub (of_Z a) (of_Z b) = of_Z (a - b).
Proof.
  unfold sub, lift2, of_Z. f_equal.
  apply Qred_inject_Z_eq. unfold Z.sub, Qminus.
  by rewrite inject_Z_plus, inject_Z_opp.
Qed.

Lemma gt_of_Z a b : gt (of_Z a) (of_Z b) = (b <? a).
Proof.
  unfold gt, of_Z.
  destruct (Qle_bool (inject_Z a) (inject_Z b)) eqn:E.
  - apply Qle_bool_iff in E. rewrite <- Zle_Qle in E.
    symmetry. apply Z.ltb_ge. exact E.
  - symmetry. apply Z.ltb_lt.
    destruct (Z.lt_ge_cases b a) as [Hlt | Hge]; [exact Hlt |].
    exfalso. rewrite Zle_Qle in Hge. apply Qle_bool_iff in Hge. congruence.
Qed.

Lemma Qtrunc_inject_Z z : Qtrunc (inject_Z z) = z.
Proof.
  unfold Qtrunc. destruct (Qle_bool 0 (inject_Z z)).
  - apply Qfloor_Z.
  - apply Qceiling_Z.
Qed.

(** An integer has no fractional part. *)
Lemma rem1_of_Z z : rem1 (of_Z z) = of_Z 0.
Proof.
  unfold rem1, of_Z. f_equal. rewrite Qtrunc_inject_Z.
  apply Qred_inject_Z_eq. unfold Qminus. apply Qplus_opp_r.
Qed.

Lemma to_integer_of_Z z : to_integer (of_Z z) = Some z.
Proof.
  unfold to_integer, of_Z. by rewrite inject_Z_Qred.
Qed.

(** [Math.floor(r * n)] for a sample [r] of [0, 1) and a positive
    integer [n] is one of [0 .. n-1]. *)
Lemma floor_scaled_sample (r : Q) (n : Z) :
  (0 <= r)%Q -> (r < 1)%Q -> 1 <= n ->
  exists k, Math_floor (mul (Num r) (of_Z n)) = of_Z k /\ 0 <= k < n.
Proof.
  intros H0 H1 Hn.
  exists (Qfloor (r * inject_Z n)).
  split.
  - unfold Math_floor, mul, lift2, of_Z. do 2 f_equal.
    apply Qfloor_comp, Qred_correct.
  - assert (Hpos : (0 < inject_Z n)%Q).
    { change 0%Q with (inject_Z 0). rewrite <- Zlt_Qlt. lia. }
    split.
    + rewrite <- (Qfloor_Z 0). apply Qfloor_resp_le.
      change (inject_Z 0) with 0%Q.
      apply Qmult_le_0_compat; [exact H0 | by apply Qlt_le_weak].
    + rewrite Zlt_Qlt.
      eapply Qle_lt_trans; [apply Qfloor_le |].
      rewrite <- (Qmult_1_l (inject_Z n)) at 2.
      by apply Qmult_lt_compat_r.
Qed.

End JsFacts.

(* ================================================================== *)
(** * The doubles of random *)
(* ================================================================== *)

Module DoubleFacts.
Import PrimFloat Double.


(** [Math_floor] and [rem1] on halves, on either side of zero and next
    to 2^52. *)
Example Math_floor_values :
  Math_floor 0x1.8p0 = 1%float
  /\ Math_floor 0x1.4p1 = 2%float
  /\ Math_floor (-0x1p-1) = (-1)%float
  /\ Math_floor (-0x1.4p1) = (-3)%float
  /\ Math_floor 0x1.fffffffffffffp51 = 0x1.ffffffffffffep51%float
  /\ Math_floor 0x1p-1074 = 0%float
  /\ Math_floor infinity = infinity
  /\ rem1 0x1.6p1 = 0x1.8p-1%float
  /\ rem1 (-0x1.6p1) = (-0x1.8p-1)%float.
Proof. repeat split; reflexivity. Qed.

(** Within the safe integers line 70 does on doubles what it does on
    integers. *)
Example random_double_0_10 :
  random 0%float 10%float false 0x1p-1%float 0x1p-17%float = 5%float
  /\ random 5%float 5%float false 0x1.fffffffffffffp-1%float 0x1p-17%float
     = 5%float.
Proof. split; reflexivity. Qed.

End DoubleFacts.

(* ================================================================== *)
(** * Properties of random, randomString and getVisitId *)
(* ================================================================== *)

Module RandFacts.
Import Js Rand JsFacts.

Local Open Scope string_scope.

(** ** The integer path of [random] *)

Lemma random_integer_path Math_random i (lower upper : Z) floating :
  lower <= upper ->
  floating = VUndefined \/ floating = VBool false ->
  in_unit_interval (Math_random i) ->
  exists k, random Math_random (VNum (of_Z lower)) (VNum (of_Z upper)) floating i
            = Some (of_Z k, S i)
            /\ lower <= k <= upper.
Proof.
  intros Hle Hf [H0 H1].
  destruct (floor_scaled_sample (sample (Math_random i)) (upper - lower + 1))
    as (k & Hk & Hrange); [done | done | lia |].
  exists (lower + k). split; [| lia].
  assert (Hgt : gt (of_Z lower) (of_Z upper) = false).
  { rewrite gt_of_Z. apply Z.ltb_ge. exact Hle. }
  destruct Hf as [-> | ->];
    unfold random, bind, lift, ret, Math_random_call;
    cbn [ToBoolean is_boolean is_undefined andb orb negb ToNumber];
    rewrite Hgt, !rem1_of_Z;
    change (number_truthy (of_Z 0)) with false;
    cbn [orb]; cbv beta;
    by rewrite sub_of_Z, add_of_Z, Hk, add_of_Z.
Qed.

(** With one bound [n], the range is [0 .. n]. *)
Lemma random_single_bound Math_random i (n : Z) :
  0 <= n -> in_unit_interval (Math_random i) ->
  exists k, random Math_random (VNum (of_Z n)) VUndefined VUndefined i
            = Some (of_Z k, S i)
            /\ 0 <= k <= n.
Proof.
  intros Hn Hd.
  destruct (random_integer_path Math_random i 0 n VUndefined Hn (or_introl eq_refl) Hd)
    as (k & Hk & Hrange).
  exists k. split; [| exact Hrange]. rewrite <- Hk. reflexivity.
Qed.

(** ** Strings *)

Lemma string_app_cons x (a b : string) : String x a ++ b = String x (a ++ b).
Proof. reflexivity. Qed.

Lemma string_app_assoc (a b c : string) : (a ++ b) ++ c = a ++ (b ++ c).
Proof.
  induction a as [|x a IH]; [done |].
  by rewrite !string_app_cons, IH.
Qed.

Lemma string_app_nil_r (a : string) : a ++ "" = a.
Proof.
  induction a as [|x a IH]; [done |].
  by rewrite string_app_cons, IH.
Qed.

Lemma string_length_app (a b : string) :
  String.length (a ++ b) = (String.length a + String.length b)%nat.
Proof.
  induction a as [|x a IH]; [done |].
  rewrite string_app_cons. simpl. by rewrite IH.
Qed.

Lemma toLowerCase_app (a b : string) :
  toLowerCase (a ++ b) = toLowerCase a ++ toLowerCase b.
Proof.
  induction a as [|x a IH]; [done |].
  rewrite string_app_cons. simpl. by rewrite IH.
Qed.

Lemma toLowerCase_length (a : string) :
  String.length (toLowerCase a) = String.length a.
Proof. induction a as [|x a IH]; simpl; [done | by rewrite IH]. Qed.

Lemma string_forall_app p (a b : string) :
  string_forall p (a ++ b) = (string_forall p a && string_forall p b)%bool.
Proof.
  induction a as [|x a IH]; [done |].
  rewrite string_app_cons. simpl. by rewrite IH, andb_assoc.
Qed.

Lemma string_forall_get p (s : string) : forall n,
  string_forall p s = true -> (n < String.length s)%nat ->
  exists c, String.get n s = Some c /\ p c = true.
Proof.
  induction s as [|x s IH]; intros n Hall Hn; simpl in *; [lia |].
  apply andb_true_iff in Hall as [Hx Hs].
  destruct n as [|n]; [by exists x |].
  apply IH; [done | lia].
Qed.

(** Every character of the alphabet, once lowered, is a digit or a
    lowercase letter. *)
Lemma chars_index (k : Z) :
  0 <= k <= 61 ->
  exists c, string_index chars (of_Z k) = VStr (String c "")
            /\ lower_alnum (lower_char c) = true.
Proof.
  intros Hk. unfold string_index. rewrite to_integer_of_Z.
  destruct (Z.leb_spec 0 k) as [_ | ?]; [| lia].
  destruct (string_forall_get (fun c => lower_alnum (lower_char c)) chars (Z.to_nat k))
    as (c & -> & Hc); [reflexivity | simpl; lia |].
  by exists c.
Qed.

(** A number from 1 to 9 prints as one digit. *)
Lemma digit_text (k : Z) :
  1 <= k <= 9 ->
  exists c, Number_toString (of_Z k) = Some (String c "") /\ digit_1_9 c = true.
Proof.
  intros Hk.
  assert (k = 1 \/ k = 2 \/ k = 3 \/ k = 4 \/ k = 5 \/ k = 6 \/ k = 7
          \/ k = 8 \/ k = 9) as Hcases by lia.
  repeat (destruct Hcases as [-> | Hcases]; [vm_compute; eauto |]).
  subst; vm_compute; eauto.
Qed.

(** ** [getRandomItem] and [randomString] *)

Lemma getRandomItem_chars Math_random i :
  in_unit_interval (Math_random i) ->
  exists c, getRandomItem Math_random chars i = Some (VStr (String c ""), S i)
            /\ lower_alnum (lower_char c) = true.
Proof.
  intros Hd. unfold getRandomItem, bind.
  change (Z.of_nat (String.length chars) - 1) with 61.
  destruct (random_single_bound Math_random i 61 ltac:(lia) Hd) as (k & -> & Hk).
  destruct (chars_index k Hk) as (c & -> & Hc).
  exists c. by unfold ret.
Qed.

Lemma randomString_loop_spec Math_random :
  (forall j, in_unit_interval (Math_random j)) ->
  forall n result i,
  exists s, randomString_loop Math_random n result i = Some (result ++ s, (i + n)%nat)
            /\ String.length s = n
            /\ string_forall lower_alnum (toLowerCase s) = true.
Proof.
  intros Hsrc. induction n as [|n IH]; intros result i.
  - exists "". simpl. unfold ret.
    by rewrite string_app_nil_r, Nat.add_0_r.
  - cbn [randomString_loop]. unfold bind at 1.
    destruct (getRandomItem_chars Math_random i (Hsrc i)) as (c & -> & Hc).
    unfold bind at 1, lift. cbn [ToString].
    destruct (IH (result ++ String c "") (S i)) as (s & -> & Hlen & Hall).
    exists (String c s). rewrite string_app_assoc. simpl.
    split; [f_equal; f_equal; lia |].
    split; [by rewrite Hlen |].
    by rewrite Hc, Hall.
Qed.

Lemma randomString_lower Math_random (n : nat) i :
  (forall j, in_unit_interval (Math_random j)) ->
  exists s, randomString Math_random (Z.of_nat n) (VBool true) i = Some (s, (i + n)%nat)
            /\ String.length s = n
            /\ string_forall lower_alnum s = true.
Proof.
  intros Hsrc. unfold randomString, bind. rewrite Nat2Z.id.
  destruct (randomString_loop_spec Math_random Hsrc n "" i) as (s & -> & Hlen & Hall).
  exists (toLowerCase s). cbn [ToBoolean ret append].
  by rewrite toLowerCase_length.
Qed.

(** ** Claims *)


Lemma coin_in_unit_interval : in_unit_interval coin.
Proof. split; [discriminate | reflexivity]. Defined.


(** [random(5, 5)] always returns [5]. *)
Lemma random_5_5 Math_random i :
  in_unit_interval (Math_random i) ->
  random Math_random (VNum (of_Z 5)) (VNum (of_Z 5)) VUndefined i
  = Some (of_Z 5, S i).
Proof.
  intros Hd.
  destruct (random_integer_path Math_random i 5 5 VUndefined) as (k & -> & Hk);
    [lia | by left | done |].
  by replace k with 5 by lia.
Qed.

(** [random(0, 10)] always returns an integer of [0 .. 10]. *)
Lemma random_0_10 Math_random i :
  in_unit_interval (Math_random i) ->
  exists k, random Math_random (VNum (of_Z 0)) (VNum (of_Z 10)) VUndefined i
            = Some (of_Z k, S i)
            /\ 0 <= k <= 10.
Proof.
  intros Hd. apply random_integer_path; [lia | by left | done].
Qed.

(** C8.  Whatever [Math.random] returns, [getVisitId] returns a string
    of length 12: a digit of 1..9, ten lowercase alphanumeric
    characters, and the digit 0.  It makes eleven calls of
    [Math.random]. *)
Theorem getVisitId_shape Math_random i :
  (forall j, in_unit_interval (Math_random j)) ->
  exists c mid,
    getVisitId Math_random i = Some (String c (mid ++ "0"), (i + 11)%nat)
    /\ String.length (String c (mid ++ "0")) = 12%nat
    /\ digit_1_9 c = true
    /\ String.length mid = 10%nat
    /\ string_forall lower_alnum mid = true.
Proof.
  intros Hsrc. unfold getVisitId. unfold bind at 1.
  destruct (random_integer_path Math_random i 1 9 VUndefined) as (k & -> & Hk);
    [lia | by left | apply Hsrc |].
  unfold bind at 1. change 10 with (Z.of_nat 10).
  destruct (randomString_lower Math_random 10 (S i) Hsrc) as (mid & -> & Hlen & Hall).
  destruct (digit_text k Hk) as (c & Hc & Hdigit).
  unfold bind, lift, ret. rewrite Hc.
  exists c, mid. rewrite string_app_cons. simpl String.length.
  rewrite string_length_app, Hlen.
  repeat split; try done. do 2 f_equal. lia.
Qed.

Lemma getVisitId_shape_witness :
  (forall j : nat, in_unit_interval ((fun _ => coin) j))
  /\ exists c mid,
       getVisitId (fun _ => coin) 0%nat = Some (String c (mid ++ "0"), 11%nat)
       /\ String.length (String c (mid ++ "0")) = 12%nat
       /\ digit_1_9 c = true
       /\ String.length mid = 10%nat
       /\ string_forall lower_alnum mid = true.
Proof.
  split; [intros _; exact coin_in_unit_interval |].
  apply (getVisitId_shape (fun _ => coin) 0%nat).
  intros _; exact coin_in_unit_interval.
Defined.

(** ** The third argument *)

(** A falsy third argument that is neither a boolean nor [undefined]
    is kept: [random(1, 5, 0)] draws from 1..5, [random(1)] from 0..1. *)
Lemma random_keeps_falsy_floating :
  is_boolean (VNum (of_Z 0)) = false
  /\ is_undefined (VNum (of_Z 0)) = false
  /\ random (fun _ => coin) (VNum (of_Z 1)) (VNum (of_Z 5)) (VNum (of_Z 0)) 0%nat
     = Some (of_Z 3, 1%nat)
  /\ random (fun _ => coin) (VNum (of_Z 1)) VUndefined VUndefined 0%nat
     = Some (of_Z 1, 1%nat)
  /\ random (fun _ => coin) (VNum (of_Z 1)) (VNum (of_Z 5)) (VNum (of_Z 0)) 0%nat
     <> random (fun _ => coin) (VNum (of_Z 1)) VUndefined VUndefined 0%nat.
Proof.
  repeat split; try reflexivity. vm_compute. discriminate.
Qed.

(** A falsy third argument other than [undefined] acts as [false]. *)
Lemma random_falsy_floating Math_random lower upper floating i :
  ToBoolean floating = false -> is_undefined floating = false ->
  random Math_random lower upper floating i
  = random Math_random lower upper (VBool false) i.
Proof.
  intros Hf Hu.
  destruct floating; try discriminate; unfold random;
    cbn [ToBoolean is_boolean is_undefined negb andb] in *;
    rewrite ?Hf; cbv beta iota zeta;
    cbn [ToBoolean is_boolean is_undefined negb andb];
    rewrite ?Hf; reflexivity.
Qed.

(** C2, as amended.  A truthy third argument that is not a boolean is
    discarded together with [upper]: the call is [random(lower)]. *)
Theorem random_discards_truthy_floating Math_random lower upper floating i :
  ToBoolean floating = true -> is_boolean floating = false ->
  random Math_random lower upper floating i
  = random Math_random lower VUndefined VUndefined i.
Proof.
  intros Ht Hb. unfold random. rewrite Ht, Hb. reflexivity.
Qed.

Lemma random_discards_truthy_floating_witness :
  ToBoolean (VNum (of_Z 7)) = true
  /\ is_boolean (VNum (of_Z 7)) = false
  /\ random (fun _ => coin) (VNum (of_Z 1)) (VNum (of_Z 5)) (VNum (of_Z 7)) 0%nat
     = random (fun _ => coin) (VNum (of_Z 1)) VUndefined VUndefined 0%nat.
Proof.
  split; [reflexivity |]. split; [reflexivity |].
  apply (random_discards_truthy_floating
           (fun _ => coin) (VNum (of_Z 1)) (VNum (of_Z 5)) (VNum (of_Z 7)) 0%nat);
    reflexivity.
Defined.

End RandFacts.

(* ================================================================== *)
(** * Properties of getNewObject, cloneObject and deepMergeObject *)
(* ================================================================== *)

Module ObjFacts.
Import Js Obj.

Local Open Scope string_scope.
Local Open Scope nat_scope.

(** ** Allocation *)

Lemma fresh_unused (h : heap) : h !! fresh (dom h) = None.
Proof. apply not_elem_of_dom, is_fresh. Qed.

Lemma alloc_extends (h : heap) o : h ⊆ <[fresh (dom h) := o]> h.
Proof. apply insert_subseteq, fresh_unused. Qed.

(** ** Properties of a mapping *)

Lemma lookup_set_prop_eq k v props : lookup_prop k (set_prop k v props) = Some v.
Proof.
  induction props as [|[k' v'] props IH]; simpl.
  - by rewrite String.eqb_refl.
  - destruct (String.eqb_spec k k') as [-> | Hne]; simpl.
    + by rewrite String.eqb_refl.
    + destruct (String.eqb_spec k k'); [done | exact IH].
Qed.

Lemma lookup_set_prop_ne k k' v props :
  k <> k' -> lookup_prop k' (set_prop k v props) = lookup_prop k' props.
Proof.
  intros Hne. induction props as [|[k0 v0] props IH]; simpl.
  - destruct (String.eqb_spec k' k); [congruence | done].
  - destruct (String.eqb_spec k k0) as [-> | Hk]; simpl.
    + destruct (String.eqb_spec k' k0); [congruence | done].
    + destruct (String.eqb_spec k' k0); [done | exact IH].
Qed.

Lemma lookup_prop_elem k v props : lookup_prop k props = Some v -> (k, v) ∈ props.
Proof.
  induction props as [|[k' v'] props IH]; simpl; [done |].
  destruct (String.eqb_spec k k') as [-> | Hne].
  - intros [= ->]. by left.
  - intros H. right. by apply IH.
Qed.

(** ** Steps of heap computations *)

Lemma bind_returns {A B} (m : M A) (k : A -> M B) (h h' : heap) a :
  m h = Returns a h' -> bind m k h = k a h'.
Proof. intros H. unfold bind. by rewrite H. Qed.

Lemma deref_ref (h : heap) l o : h !! l = Some o -> deref (VRef l) h = Returns o h.
Proof. intros H. unfold deref. by rewrite H. Qed.

Lemma get_ref (h : heap) l o k :
  h !! l = Some o -> get (VRef l) k h = Returns (get_own o k) h.
Proof. intros H. unfold get. by rewrite (bind_returns _ _ _ _ _ (deref_ref h l o H)). Qed.

Lemma set_mapping (h : heap) l props k v :
  h !! l = Some (OObj props) ->
  set (VRef l) k v h = Returns tt (<[l := OObj (set_prop k v props)]> h).
Proof.
  intros H. unfold set.
  by rewrite (bind_returns _ _ _ _ _ (deref_ref h l _ H)).
Qed.

Lemma Object_keys_ref (h : heap) l o :
  h !! l = Some o -> Object_keys (VRef l) h = Returns (own_keys o) h.
Proof.
  intros H. unfold Object_keys.
  by rewrite (bind_returns _ _ _ _ _ (deref_ref h l o H)).
Qed.

Lemma Array_isArray_ref (h : heap) l o :
  h !! l = Some o -> Array_isArray (VRef l) h = Returns (is_array o) h.
Proof.
  intros H. unfold Array_isArray.
  by rewrite (bind_returns _ _ _ _ _ (deref_ref h l o H)).
Qed.

Lemma Array_items_ref (h : heap) l o :
  h !! l = Some o -> Array_items (VRef l) h = Returns (items_of o) h.
Proof.
  intros H. unfold Array_items.
  by rewrite (bind_returns _ _ _ _ _ (deref_ref h l o H)).
Qed.

(** A reduction whose callback returns the accumulator it was given
    keeps an invariant of the heap that every round keeps. *)
Lemma reduce_inv {A} (f : A -> string -> M A) (I : list string -> heap -> Prop) (acc : A) :
  (forall k rest h1, I (k :: rest) h1 ->
                     exists h2, f acc k h1 = Returns acc h2 /\ I rest h2) ->
  forall keys h, I keys h ->
                 exists h', reduce f keys acc h = Returns acc h' /\ I [] h'.
Proof.
  intros Hstep. induction keys as [|k keys IH]; intros h HI.
  - by exists h.
  - destruct (Hstep k keys h HI) as (h2 & Hf & HI2).
    destruct (IH h2 HI2) as (h' & Hred & HI').
    exists h'. split; [| done].
    cbn [reduce]. by rewrite (bind_returns _ _ _ _ _ Hf).
Qed.

(** ** getNewObject *)

(** C10.  [getNewObject] answers every falsy input, and the specification
    lists them: [undefined], [null], [0], the empty string, [false] and
    [NaN], with a new empty mapping, and returns a truthy input as it
    is, the heap unchanged. *)
Theorem getNewObject_falsy_or_same (object : value) (h : heap) :
  (ToBoolean VUndefined = false /\ ToBoolean VNull = false
   /\ ToBoolean (VNum (of_Z 0)) = false /\ ToBoolean (VStr "") = false
   /\ ToBoolean (VBool false) = false /\ ToBoolean (VNum NaN) = false)
  /\ (if ToBoolean object
      then getNewObject object h = Returns object h
      else exists l h',
          getNewObject object h = Returns (VRef l) h'
          /\ h !! l = None
          /\ h' !! l = Some (OObj [])
          /\ h ⊆ h').
Proof.
  split; [by repeat split |].
  unfold getNewObject. destruct (ToBoolean object); [done |].
  exists (fresh (dom h)), (<[fresh (dom h) := OObj []]> h).
  repeat split.
  - apply fresh_unused.
  - apply lookup_insert_eq.
  - apply alloc_extends.
Qed.

(** ** deepMergeObject on an absent argument and on two arrays *)

(** With [undefined] for source, a truthy target is returned as it is. *)
Lemma deepMergeObject_undefined_source_truthy fuel target h :
  ToBoolean target = true ->
  deepMergeObject (S fuel) target VUndefined h = Returns target h.
Proof.
  intros Ht. simpl. rewrite orb_true_r. unfold ret, or_else. by rewrite Ht.
Qed.

(** With [undefined] for target, source is returned, falsy or not. *)
Lemma deepMergeObject_undefined_target fuel source h :
  deepMergeObject (S fuel) VUndefined source h = Returns source h.
Proof. reflexivity. Qed.

(** With [undefined] for both, [undefined] is returned. *)
Lemma deepMergeObject_undefined_both fuel h :
  deepMergeObject (S fuel) VUndefined VUndefined h = Returns VUndefined h.
Proof. reflexivity. Qed.

(** C1, where the code departs from it.  With [undefined] for source, a
    target that is falsy without being [undefined] is not returned:
    [deepMergeObject(0, undefined)] is [undefined], and so it is for
    [null], [false], the empty string and [NaN]. *)
Theorem deepMergeObject_falsy_target_lost fuel (h : heap) :
  deepMergeObject (S fuel) (VNum (of_Z 0)) VUndefined h = Returns VUndefined h
  /\ deepMergeObject (S fuel) VNull VUndefined h = Returns VUndefined h
  /\ deepMergeObject (S fuel) (VBool false) VUndefined h = Returns VUndefined h
  /\ deepMergeObject (S fuel) (VStr "") VUndefined h = Returns VUndefined h
  /\ deepMergeObject (S fuel) (VNum NaN) VUndefined h = Returns VUndefined h.
Proof. by repeat split. Qed.

(** C9.  For two arrays [deepMergeObject] returns a new array, the
    elements of target followed by those of source; target and source,
    and every other container, are left as they were. *)
Theorem deepMergeObject_arrays_concat fuel (h : heap) lt ls xs ys :
  h !! lt = Some (OArr xs) ->
  h !! ls = Some (OArr ys) ->
  exists l' h',
    deepMergeObject (S fuel) (VRef lt) (VRef ls) h = Returns (VRef l') h'
    /\ h !! l' = None
    /\ h' !! l' = Some (OArr (xs ++ ys))
    /\ h' !! lt = Some (OArr xs)
    /\ h' !! ls = Some (OArr ys)
    /\ h ⊆ h'.
Proof.
  intros Ht Hs.
  exists (fresh (dom h)), (<[fresh (dom h) := OArr (xs ++ ys)]> h).
  pose proof (alloc_extends h (OArr (xs ++ ys))) as Hext.
  split.
  - cbn [deepMergeObject is_undefined isObject negb orb].
    unfold bind, Array_isArray, Array_concat, deref, ret, bind.
    rewrite Ht. cbn [is_array]. rewrite Hs. cbn [is_array]. rewrite Ht, Hs.
    reflexivity.
  - split; [apply fresh_unused |].
    split; [apply lookup_insert_eq |].
    split; [by eapply lookup_weaken |].
    split; [by eapply lookup_weaken | done].
Qed.

Lemma deepMergeObject_arrays_concat_witness :
  two_arrays !! 1%positive = Some (OArr [VNum (of_Z 1); VNum (of_Z 2)])
  /\ two_arrays !! 2%positive = Some (OArr [VNum (of_Z 3)])
  /\ exists l' h',
      deepMergeObject 1 (VRef 1%positive) (VRef 2%positive) two_arrays
      = Returns (VRef l') h'
      /\ two_arrays !! l' = None
      /\ h' !! l' = Some (OArr ([VNum (of_Z 1); VNum (of_Z 2)] ++ [VNum (of_Z 3)]))
      /\ h' !! 1%positive = Some (OArr [VNum (of_Z 1); VNum (of_Z 2)])
      /\ h' !! 2%positive = Some (OArr [VNum (of_Z 3)])
      /\ two_arrays ⊆ h'.
Proof.
  split; [reflexivity |]. split; [reflexivity |].
  apply (deepMergeObject_arrays_concat 0 two_arrays 1%positive 2%positive);
    reflexivity.
Defined.

(** ** cloneObject *)

Lemma bounded_weaken (h h' : heap) deep n : forall v,
  h ⊆ h' -> bounded h deep n v -> bounded h' deep n v.
Proof.
  induction n as [|n IH]; intros v Hsub Hb; inversion Hb; subst.
  - by constructor.
  - by constructor.
  - eapply bounded_array; [by eapply lookup_weaken |].
    eapply Forall_impl; [eassumption |]. intros x Hx. by apply IH.
  - eapply bounded_mapping; [by eapply lookup_weaken |].
    intros Hd. eapply Forall_impl; [by eauto |]. intros x Hx. by apply IH.
Qed.

Lemma bounded_ref_alloc (h : heap) deep n l :
  bounded h deep n (VRef l) -> is_Some (h !! l).
Proof. intros Hb. inversion Hb; subst; [discriminate | eauto | eauto]. Qed.

Lemma bounded_get_own (h : heap) n props k :
  Forall (fun kv => bounded h true n kv.2) props ->
  bounded h true n (get_own (OObj props) k).
Proof.
  intros Hall. unfold get_own. cbn [own_prop].
  destruct (lookup_prop k props) as [v|] eqn:Hk; simpl.
  - apply lookup_prop_elem in Hk.
    rewrite Forall_forall in Hall. exact (Hall _ Hk).
  - by constructor.
Qed.

Lemma mapM_extends (f : value -> M value) (P : heap -> value -> Prop) :
  (forall (h h' : heap) v, h ⊆ h' -> P h v -> P h' v) ->
  (forall (h : heap) v, P h v -> exists v' h', f v h = Returns v' h' /\ h ⊆ h') ->
  forall items (h : heap),
    Forall (P h) items ->
    exists items' h',
      mapM f items h = Returns items' h'
      /\ h ⊆ h'
      /\ length items' = length items
      /\ forall i v, items !! i = Some v ->
           exists v' hi hi',
             items' !! i = Some v' /\ h ⊆ hi /\ hi' ⊆ h'
             /\ f v hi = Returns v' hi'.
Proof.
  intros Hmono Hf. induction items as [|a items IH]; intros h Hall.
  - exists [], h. repeat split; try done.
  - apply Forall_cons in Hall as [Ha Hrest].
    destruct (Hf h a Ha) as (b & h1 & Hrun & Hsub1).
    destruct (IH h1) as (bs & h' & Hmap & Hsub & Hlen & Helems).
    { eapply Forall_impl; [exact Hrest |]. intros x. by apply Hmono. }
    exists (b :: bs), h'. split.
    { cbn [mapM]. rewrite (bind_returns _ _ _ _ _ Hrun).
      by rewrite (bind_returns _ _ _ _ _ Hmap). }
    split; [by etrans |]. split; [simpl; by rewrite Hlen |].
    intros [|i] v Hi; simpl in Hi.
    + injection Hi as <-. exists b, h, h1. by repeat split.
    + destruct (Helems i v Hi) as (v' & hi & hi' & ? & ? & ? & ?).
      exists v', hi, hi'. repeat split; try done. by etrans.
Qed.

(** On an input that nests to a bounded depth, [cloneObject] returns:
    a scalar as it is, for a container a new one of the same kind, and
    the heap is only extended. *)
Lemma cloneObject_bounded n : forall fuel deep (h : heap) v,
  bounded h deep n v -> n < fuel ->
  exists v' h',
    cloneObject fuel v deep h = Returns v' h'
    /\ h ⊆ h'
    /\ (isObject v = false -> v' = v /\ h' = h)
    /\ (forall l o, v = VRef l -> h !! l = Some o ->
          exists l' o', v' = VRef l' /\ h !! l' = None
                        /\ h' !! l' = Some o' /\ is_array o' = is_array o).
Proof.
  induction n as [|n IH]; intros fuel deep h v Hb Hfuel;
    (destruct fuel as [|fuel]; [lia |]); inversion Hb; subst.
  - exists v, h. cbn [cloneObject]. rewrite H.
    do 3 (split; [done |]). intros l o ->. discriminate.
  - exists v, h. cbn [cloneObject]. rewrite H.
    do 3 (split; [done |]). intros l o ->. discriminate.
  - (* an array *)
    destruct (mapM_extends (fun item => cloneObject fuel item deep)
                (fun h v => bounded h deep n v)) with (items := items) (h := h)
      as (items' & h1 & Hmap & Hsub & Hlen & _).
    { intros. by eapply bounded_weaken. }
    { intros h0 v0 Hv0. destruct (IH fuel deep h0 v0 Hv0) as (v' & h' & ? & ? & _);
        [lia | eauto]. }
    { done. }
    exists (VRef (fresh (dom h1))), (<[fresh (dom h1) := OArr items']> h1).
    split.
    { cbn [cloneObject isObject negb].
      rewrite (bind_returns _ _ _ _ _ (Array_isArray_ref h l _ H0)). cbn [is_array].
      rewrite (bind_returns _ _ _ _ _ (Array_items_ref h l _ H0)). cbn [items_of].
      by rewrite (bind_returns _ _ _ _ _ Hmap). }
    split; [etrans; [exact Hsub | apply alloc_extends] |].
    split; [done |].
    intros l0 o [= <-] Ho. rewrite H0 in Ho. injection Ho as <-.
    exists (fresh (dom h1)), (OArr items').
    split; [done |].
    split; [eapply lookup_weaken_None; [apply fresh_unused | exact Hsub] |].
    split; [apply lookup_insert_eq | done].
  - (* a mapping *)
    set (l0 := fresh (dom h)).
    set (h0 := <[l0 := OObj []]> h).
    assert (Hl0 : h !! l0 = None) by apply fresh_unused.
    assert (Hsub0 : h ⊆ h0) by apply alloc_extends.
    destruct deep.
    + (* deep: every property is cloned *)
      specialize (H1 eq_refl).
      destruct (reduce_inv
                  (fun result key =>
                     bind (get (VRef l) key) (fun v =>
                     bind (cloneObject fuel v true) (fun c =>
                     bind (set result key c) (fun _ => ret result))))
                  (fun _ hc => h ⊆ hc /\ exists ps, hc !! l0 = Some (OObj ps))
                  (VRef l0)) with (keys := own_keys (OObj props)) (h := h0)
        as (h' & Hred & Hsub & ps & Hps).
      { intros k rest hc (Hsubc & ps & Hps).
        pose proof (lookup_weaken _ _ _ _ H0 Hsubc) as Hl.
        destruct (IH fuel true hc (get_own (OObj props) k)) as (c & hc' & Hc & Hsubc' & _).
        { eapply bounded_weaken; [exact Hsubc |]. by apply bounded_get_own. }
        { lia. }
        pose proof (lookup_weaken _ _ _ _ Hps Hsubc') as Hps'.
        exists (<[l0 := OObj (set_prop k c ps)]> hc'). split.
        - rewrite (bind_returns _ _ _ _ _ (get_ref hc l _ k Hl)).
          rewrite (bind_returns _ _ _ _ _ Hc).
          by rewrite (bind_returns _ _ _ _ _ (set_mapping hc' l0 ps k c Hps')).
        - split; [| eexists; apply lookup_insert_eq].
          apply insert_subseteq_r; [done | by etrans]. }
      { split; [done | eexists; apply lookup_insert_eq]. }
      exists (VRef l0), h'. split.
      { cbn [cloneObject isObject negb].
        rewrite (bind_returns _ _ _ _ _ (Array_isArray_ref h l _ H0)). cbn [is_array].
        rewrite (bind_returns _ _ _ _ _ (Object_keys_ref h l _ H0)).
        unfold bind at 1, alloc. exact Hred. }
      split; [done |]. split; [done |].
      intros l1 o [= <-] Ho. rewrite H0 in Ho. injection Ho as <-.
      by exists l0, (OObj ps).
    + (* shallow: the properties are copied *)
      destruct (reduce_inv
                  (fun target key =>
                     bind (get (VRef l) key) (fun v =>
                     bind (set target key v) (fun _ => ret target)))
                  (fun _ hc => h ⊆ hc /\ exists ps, hc !! l0 = Some (OObj ps))
                  (VRef l0)) with (keys := own_keys (OObj props)) (h := h0)
        as (h' & Hred & Hsub & ps & Hps).
      { intros k rest hc (Hsubc & ps & Hps).
        pose proof (lookup_weaken _ _ _ _ H0 Hsubc) as Hl.
        exists (<[l0 := OObj (set_prop k (get_own (OObj props) k) ps)]> hc). split.
        - rewrite (bind_returns _ _ _ _ _ (get_ref hc l _ k Hl)).
          by rewrite (bind_returns _ _ _ _ _ (set_mapping hc l0 ps k _ Hps)).
        - split; [| eexists; apply lookup_insert_eq].
          by apply insert_subseteq_r. }
      { split; [done | eexists; apply lookup_insert_eq]. }
      exists (VRef l0), h'. split.
      { cbn [cloneObject isObject negb].
        rewrite (bind_returns _ _ _ _ _ (Array_isArray_ref h l _ H0)). cbn [is_array].
        unfold bind at 1, alloc. unfold Object_assign.
        rewrite (bind_returns _ _ _ _ _ (Object_keys_ref h0 l _ (lookup_weaken _ _ _ _ H0 Hsub0))).
        exact Hred. }
      split; [done |]. split; [done |].
      intros l1 o [= <-] Ho. rewrite H0 in Ho. injection Ho as <-.
      by exists l0, (OObj ps).
Qed.


Lemma cloneObject_ring fuel : forall deep,
  cloneObject fuel (VRef 1%positive) deep ring = Overflow
  /\ cloneObject fuel (VRef 2%positive) deep ring = Overflow.
Proof.
  induction fuel as [|fuel IH]; intros deep; [done |].
  destruct (IH deep) as [IH1 IH2]. split.
  - cbn [cloneObject isObject negb].
    rewrite (bind_returns _ _ _ _ _ (Array_isArray_ref ring 1%positive _ eq_refl)).
    cbn [is_array].
    rewrite (bind_returns _ _ _ _ _ (Array_items_ref ring 1%positive _ eq_refl)).
    cbn [items_of mapM]. unfold bind. by rewrite IH2.
  - cbn [cloneObject isObject negb].
    rewrite (bind_returns _ _ _ _ _ (Array_isArray_ref ring 2%positive _ eq_refl)).
    cbn [is_array].
    rewrite (bind_returns _ _ _ _ _ (Array_items_ref ring 2%positive _ eq_refl)).
    cbn [items_of mapM]. unfold bind. by rewrite IH1.
Qed.



Lemma nested_bounded : bounded nested true 2 (VRef 1%positive).
Proof.
  eapply bounded_mapping; [reflexivity |]. intros _.
  constructor; [| constructor]. simpl.
  eapply bounded_array; [reflexivity |].
  constructor; [| constructor].
  by apply bounded_scalar.
Defined.


(** C7, where it fails.  Of two arrays that hold each other neither is
    cloned, for either value of [deep]: no new array is returned. *)
Lemma cloneObject_rejects_ring :
  ring !! 1%positive = Some (OArr [VRef 2%positive])
  /\ ring !! 2%positive = Some (OArr [VRef 1%positive])
  /\ ~ exists fuel deep v' h',
        cloneObject fuel (VRef 1%positive) deep ring = Returns v' h'.
Proof.
  split; [reflexivity |]. split; [reflexivity |].
  intros (fuel & deep & v' & h' & H).
  destruct (cloneObject_ring fuel deep) as [H1 _]. by rewrite H1 in H.
Qed.

(** C7, as amended.  For an array that nests to a bounded depth, and
    both values of [deep], [cloneObject] returns a new array of the
    same length and leaves the input array as it was; its [i]-th
    element is what [cloneObject], with the same [deep], returns for
    the [i]-th element of the input, in a heap that extends the
    caller's: the element itself if that is a scalar, a new container
    if it is a container, whatever [deep] is. *)
Theorem cloneObject_array_elementwise (h : heap) l items (deep : bool) (n fuel : nat) :
  h !! l = Some (OArr items) ->
  bounded h deep n (VRef l) -> n < fuel ->
  exists l' items' h',
    cloneObject fuel (VRef l) deep h = Returns (VRef l') h'
    /\ h !! l' = None
    /\ h' !! l' = Some (OArr items')
    /\ h' !! l = Some (OArr items)
    /\ length items' = length items
    /\ forall i v, items !! i = Some v ->
         exists v' hi hi',
           items' !! i = Some v' /\ h ⊆ hi /\ hi' ⊆ h'
           /\ cloneObject (fuel - 1) v deep hi = Returns v' hi'
           /\ (isObject v = false -> v' = v)
           /\ (forall le, v = VRef le ->
                  exists le', v' = VRef le' /\ le' <> le /\ h !! le' = None).
Proof.
  intros Hl Hb Hfuel. destruct fuel as [|fuel]; [lia |].
  inversion Hb as [? ? Hs | n0 ? items0 Hl0 Hitems | n0 ? props Hl0 _]; subst;
    [discriminate | | congruence].
  rewrite Hl in Hl0. injection Hl0 as <-.
  destruct (mapM_extends (fun item => cloneObject fuel item deep)
              (fun h v => bounded h deep n0 v)) with (items := items) (h := h)
    as (items' & h1 & Hmap & Hsub & Hlen & Helems).
  { intros. by eapply bounded_weaken. }
  { intros h0 v0 Hv0.
    destruct (cloneObject_bounded n0 fuel deep h0 v0 Hv0) as (v' & h' & ? & ? & _);
      [lia | eauto]. }
  { done. }
  pose proof (alloc_extends h1 (OArr items')) as Hext.
  exists (fresh (dom h1)), items', (<[fresh (dom h1) := OArr items']> h1).
  split.
  { cbn [cloneObject isObject negb].
    rewrite (bind_returns _ _ _ _ _ (Array_isArray_ref h l _ Hl)). cbn [is_array].
    rewrite (bind_returns _ _ _ _ _ (Array_items_ref h l _ Hl)). cbn [items_of].
    by rewrite (bind_returns _ _ _ _ _ Hmap). }
  split; [eapply lookup_weaken_None; [apply fresh_unused | exact Hsub] |].
  split; [apply lookup_insert_eq |].
  split; [eapply lookup_weaken; [exact Hl | by etrans] |].
  split; [done |].
  intros i v Hi. destruct (Helems i v Hi) as (v' & hi & hi' & Hi' & Hhi & Hhi' & Hrun).
  assert (Hv : bounded hi deep n0 v).
  { eapply bounded_weaken; [exact Hhi |].
    rewrite Forall_forall in Hitems. apply Hitems.
    apply list_elem_of_lookup. eauto. }
  destruct (cloneObject_bounded n0 fuel deep hi v Hv) as (v2 & h2 & Hrun2 & _ & Hsc & Hnew);
    [lia |].
  rewrite Hrun in Hrun2. injection Hrun2 as <- <-.
  exists v', hi, hi'. rewrite Nat.sub_1_r. simpl.
  do 2 (split; [done |]). split; [by etrans |]. split; [done |].
  split; [intros Hs; by apply Hsc |].
  intros le ->.
  destruct (bounded_ref_alloc hi deep n0 le Hv) as (o & Ho).
  destruct (Hnew le o eq_refl Ho) as (le' & o' & -> & Hfresh & _).
  exists le'. split; [done |]. split; [intros ->; congruence |].
  by eapply lookup_weaken_None.
Qed.

Lemma mixed_array_bounded : bounded mixed_array false 2 (VRef 1%positive).
Proof.
  eapply bounded_array; [reflexivity |].
  constructor; [by apply bounded_scalar |].
  constructor; [| constructor].
  eapply bounded_mapping; [reflexivity |]. discriminate.
Defined.

Lemma cloneObject_array_elementwise_witness :
  mixed_array !! 1%positive = Some (OArr [VNum (of_Z 1); VRef 2%positive])
  /\ bounded mixed_array false 2 (VRef 1%positive)
  /\ 2 < 3
  /\ exists l' items' h',
      cloneObject 3 (VRef 1%positive) false mixed_array = Returns (VRef l') h'
      /\ mixed_array !! l' = None
      /\ h' !! l' = Some (OArr items')
      /\ h' !! 1%positive = Some (OArr [VNum (of_Z 1); VRef 2%positive])
      /\ length items' = length [VNum (of_Z 1); VRef 2%positive]
      /\ forall i v, [VNum (of_Z 1); VRef 2%positive] !! i = Some v ->
           exists v' hi hi',
             items' !! i = Some v' /\ mixed_array ⊆ hi /\ hi' ⊆ h'
             /\ cloneObject (3 - 1) v false hi = Returns v' hi'
             /\ (isObject v = false -> v' = v)
             /\ (forall le, v = VRef le ->
                    exists le', v' = VRef le' /\ le' <> le
                                /\ mixed_array !! le' = None).
Proof.
  split; [reflexivity |]. split; [exact mixed_array_bounded |]. split; [lia |].
  apply (cloneObject_array_elementwise mixed_array 1%positive
           [VNum (of_Z 1); VRef 2%positive] false 2 3);
    [reflexivity | exact mixed_array_bounded | lia].
Defined.

(** ** deepMergeObject *)

Lemma elem_of_union_fmap (F : string -> gset loc) (keys : list string) (l : loc) :
  l ∈ ⋃ (F <$> keys) <-> exists k, k ∈ keys /\ l ∈ F k.
Proof.
  rewrite elem_of_union_list. split.
  - intros (X & HX & Hl). apply list_elem_of_fmap in HX as (k & -> & Hk). eauto.
  - intros (k & Hk & Hl). exists (F k). split; [| done].
    apply list_elem_of_fmap. eauto.
Qed.

(** What a merge writes is a mapping of the heap. *)
Lemma merges_writes_mappings (h : heap) n t s W R :
  merges h n t s W R -> forall l, l ∈ W -> exists ps, h !! l = Some (OObj ps).
Proof.
  induction 1 as [| | n lt ls pt os Wk Rk Hlt Hls _ _ IH _ _]; intros l Hl.
  - by apply elem_of_empty in Hl.
  - by apply elem_of_empty in Hl.
  - rewrite elem_of_union, elem_of_singleton, elem_of_union_fmap in Hl.
    destruct Hl as [-> | (k & Hk & Hl)]; [eauto | by apply (IH k Hk)].
Qed.

(** What a merge reads without writing is reached from its source, or
    is an array. *)
Lemma merges_reads (h : heap) n t s W R :
  merges h n t s W R ->
  forall l, l ∈ R -> reach h s l \/ exists xs, h !! l = Some (OArr xs).
Proof.
  induction 1 as [| n lt ls xs os Hlt Hls _ | n lt ls pt os Wk Rk Hlt Hls _ _ IH _ _];
    intros l Hl.
  - by apply elem_of_empty in Hl.
  - rewrite elem_of_union, !elem_of_singleton in Hl.
    destruct Hl as [-> | ->]; [right; eauto | left; constructor].
  - rewrite elem_of_union, elem_of_singleton, elem_of_union_fmap in Hl.
    destruct Hl as [-> | (k & Hk & Hl)]; [left; constructor |].
    destruct (IH k Hk l Hl) as [Hreach | Harr]; [left | by right].
    by eapply reach_step.
Qed.

(** If nothing reachable from source is written, nothing read is. *)
Lemma merges_separate (h : heap) n t s W R :
  merges h n t s W R ->
  (forall l, reach h s l -> l ∉ W) ->
  W ## R.
Proof.
  intros Hm Hsep. apply elem_of_disjoint. intros l HW HR.
  destruct (merges_reads h n t s W R Hm l HR) as [Hreach | (xs & Hxs)].
  - by apply (Hsep l).
  - destruct (merges_writes_mappings h n t s W R Hm l HW) as (ps & Hps). congruence.
Qed.

(** The containers a merge writes or reads are in the heap. *)
Lemma merges_alloc (h : heap) n t s W R :
  merges h n t s W R -> forall l, l ∈ W ∪ R -> is_Some (h !! l).
Proof.
  induction 1 as [| n lt ls xs os Hlt Hls _ | n lt ls pt os Wk Rk Hlt Hls _ _ IH _ _];
    intros l Hl.
  - rewrite elem_of_union, !elem_of_empty in Hl. tauto.
  - rewrite !elem_of_union, elem_of_empty, !elem_of_singleton in Hl.
    destruct Hl as [[] | [-> | ->]]; eauto.
  - rewrite !elem_of_union, !elem_of_singleton, !elem_of_union_fmap in Hl.
    destruct Hl as [[-> | (k & Hk & Hl)] | [-> | (k & Hk & Hl)]]; eauto.
    + apply (IH k Hk). by apply elem_of_union_l.
    + apply (IH k Hk). by apply elem_of_union_r.
Qed.

(** The shape of a merge depends on the heap only through the
    containers it writes and reads. *)
Lemma merges_agree (h h' : heap) n t s W R :
  merges h n t s W R ->
  (forall l, l ∈ W ∪ R -> h' !! l = h !! l) ->
  merges h' n t s W R.
Proof.
  induction 1 as [ n t s Hleaf | n lt ls xs os Hlt Hls Hkind
                 | n lt ls pt os Wk Rk Hlt Hls Hnd Hch IH Hdisj Hnot];
    intros Hagree.
  - by apply merges_leaf.
  - eapply merges_array; [| | exact Hkind].
    + rewrite Hagree; [exact Hlt | set_solver +].
    + rewrite Hagree; [exact Hls | set_solver +].
  - eapply merges_keyed; try done.
    + rewrite Hagree; [exact Hlt | set_solver +].
    + rewrite Hagree; [exact Hls | set_solver +].
    + intros k Hk. apply (IH k Hk). intros l Hl. apply Hagree.
      rewrite !elem_of_union, !elem_of_union_fmap.
      apply elem_of_union in Hl as [Hl | Hl]; [left | right]; right; eauto.
Qed.

(** The run of [deepMergeObject] on a leaf pair. *)
Lemma deepMergeObject_leaf fuel t s (h : heap) :
  (is_undefined t || is_undefined s
   || negb (isObject t) || negb (isObject s))%bool = true ->
  exists r, deepMergeObject (S fuel) t s h = Returns r h.
Proof.
  intros Hleaf. cbn [deepMergeObject].
  destruct (is_undefined t || is_undefined s)%bool eqn:Hu; [by eexists |].
  rewrite <- orb_assoc in Hleaf. cbn [orb] in Hleaf. rewrite Hleaf. by eexists.
Qed.

(** The run of [deepMergeObject] on two arrays. *)
Lemma deepMergeObject_two_arrays fuel (h : heap) lt ls xs ys :
  h !! lt = Some (OArr xs) -> h !! ls = Some (OArr ys) ->
  deepMergeObject (S fuel) (VRef lt) (VRef ls) h
  = Returns (VRef (fresh (dom h))) (<[fresh (dom h) := OArr (xs ++ ys)]> h).
Proof.
  intros Ht Hs.
  cbn [deepMergeObject is_undefined isObject negb orb].
  rewrite (bind_returns _ _ _ _ _ (Array_isArray_ref h lt _ Ht)). cbn [is_array].
  rewrite (bind_returns _ _ _ _ _ (Array_isArray_ref h ls _ Hs)). cbn [is_array].
  unfold Array_concat.
  rewrite (bind_returns _ _ _ _ _ (deref_ref h lt _ Ht)).
  by rewrite (bind_returns _ _ _ _ _ (deref_ref h ls _ Hs)).
Qed.

(** The run of [deepMergeObject] on two containers that are not both
    arrays comes down to the reduction over the keys of source. *)
Lemma deepMergeObject_keyed_run fuel (h : heap) lt ls ot os :
  h !! lt = Some ot -> h !! ls = Some os ->
  (is_array ot && is_array os)%bool = false ->
  deepMergeObject (S fuel) (VRef lt) (VRef ls) h
  = reduce (fun result key =>
              bind (get (VRef lt) key) (fun t =>
              bind (get (VRef ls) key) (fun s =>
              bind (deepMergeObject fuel t s) (fun merged =>
              bind (set result key merged) (fun _ => ret result)))))
           (own_keys os) (VRef lt) h.
Proof.
  intros Ht Hs Hnb.
  cbn [deepMergeObject is_undefined isObject negb orb].
  rewrite (bind_returns _ _ _ _ _ (Array_isArray_ref h lt _ Ht)).
  assert (Hboth : (if is_array ot then Array_isArray (VRef ls) else ret false) h
                  = Returns false h).
  { destruct (is_array ot); [| done].
    rewrite (Array_isArray_ref h ls _ Hs). by rewrite <- Hnb. }
  rewrite (bind_returns _ _ _ _ _ Hboth).
  by rewrite (bind_returns _ _ _ _ _ (Object_keys_ref h ls _ Hs)).
Qed.

Lemma disjoint_not_both (X Y : gset loc) l : X ## Y -> l ∈ X -> l ∈ Y -> False.
Proof. intros H. by apply elem_of_disjoint. Qed.

(** On a pair it [merges], [deepMergeObject] returns, writes nothing
    outside [W], and a target mapping comes back with the keys of source
    merged in and its other properties as they were. *)
Lemma deepMergeObject_merges n : forall fuel (h : heap) t s W R,
  merges h n t s W R -> W ## R -> n < fuel ->
  exists r h',
    deepMergeObject fuel t s h = Returns r h'
    /\ (forall l o, h !! l = Some o -> l ∉ W -> h' !! l = Some o)
    /\ (forall lt ls pt os,
          t = VRef lt -> s = VRef ls ->
          h !! lt = Some (OObj pt) -> h !! ls = Some os ->
          r = VRef lt
          /\ exists pt',
              h' !! lt = Some (OObj pt')
              /\ (forall k, k ∉ own_keys os -> lookup_prop k pt' = lookup_prop k pt)
              /\ (forall k, k ∈ own_keys os ->
                    exists merged hk hk',
                      lookup_prop k pt' = Some merged
                      /\ deepMergeObject (fuel - 1) (get_own (OObj pt) k) (get_own os k) hk
                         = Returns merged hk'
                      /\ (forall l o, h !! l = Some o -> l ∉ W -> hk !! l = Some o))).
Proof.
  induction n as [n IHn] using lt_wf_ind.
  intros fuel h t s W R Hm HWR Hfuel.
  destruct fuel as [|fuel]; [lia |].
  destruct Hm as [ n t s Hleaf | n lt ls xs os Hlt Hls Hkind
                 | n lt ls pt os Wk Rk Hlt Hls Hnd Hch Hdisj Hnot].
  - (* a leaf *)
    destruct (deepMergeObject_leaf fuel t s h Hleaf) as (r & Hrun).
    exists r, h. split; [done |]. split; [done |].
    intros lt ls pt os -> -> _ _. discriminate.
  - (* an array for target *)
    destruct os as [ys | ps].
    + eexists _, _. split; [by apply deepMergeObject_two_arrays |].
      split.
      * intros l o Hl _. eapply lookup_weaken; [exact Hl | apply alloc_extends].
      * intros lt' ls' pt' os' [= <-] _ Hpt _. congruence.
    + destruct Hkind as [? | Hnokeys]; [discriminate |].
      exists (VRef lt), h. split.
      * rewrite (deepMergeObject_keyed_run fuel h lt ls _ _ Hlt Hls); [| done].
        by rewrite Hnokeys.
      * split; [done |]. intros lt' ls' pt' os' [= <-] _ Hpt _. congruence.
  - (* a mapping for target *)
    set (keys := own_keys os) in *.
    set (W := {[lt]} ∪ ⋃ (Wk <$> keys)) in *.
    set (R := {[ls]} ∪ ⋃ (Rk <$> keys)) in *.
    assert (HWk : forall k, k ∈ keys -> Wk k ⊆ W).
    { intros k Hk l Hl. apply elem_of_union_r, elem_of_union_fmap. eauto. }
    assert (HRk : forall k, k ∈ keys -> Rk k ⊆ R).
    { intros k Hk l Hl. apply elem_of_union_r, elem_of_union_fmap. eauto. }
    assert (HlsR : ls ∈ R) by (apply elem_of_union_l; by apply elem_of_singleton).
    destruct (reduce_inv
                (fun result key =>
                   bind (get (VRef lt) key) (fun t =>
                   bind (get (VRef ls) key) (fun s =>
                   bind (deepMergeObject fuel t s) (fun merged =>
                   bind (set result key merged) (fun _ => ret result)))))
                (fun rest hc =>
                   exists (done : list string) ptc,
                     keys = (done ++ rest)%list
                     /\ hc !! lt = Some (OObj ptc)
                     /\ (forall l o, h !! l = Some o ->
                                     l ∉ {[lt]} ∪ ⋃ (Wk <$> done) -> hc !! l = Some o)
                     /\ (forall k, k ∉ done -> lookup_prop k ptc = lookup_prop k pt)
                     /\ (forall k, k ∈ done ->
                           exists merged hk hk',
                             lookup_prop k ptc = Some merged
                             /\ deepMergeObject fuel (get_own (OObj pt) k) (get_own os k) hk
                                = Returns merged hk'
                             /\ (forall l o, h !! l = Some o -> l ∉ W -> hk !! l = Some o)))
                (VRef lt)) with (keys := keys) (h := h)
      as (h' & Hred & done & pt' & Hkeys & Hpt' & Hframe & Hkept & Hmerged).
    { (* one round *)
      intros k rest hc (done & ptc & Hkeys & Hptc & Hframe & Hkept & Hmerged).
      assert (Hk : k ∈ keys).
      { rewrite Hkeys. apply elem_of_app. right. by left. }
      assert (Hkdone : k ∉ done).
      { rewrite Hkeys in Hnd. apply NoDup_app in Hnd as (_ & Hnd & _).
        intros Hin. apply (Hnd k Hin). by left. }
      assert (Hdone : forall k', k' ∈ done -> k' ∈ keys).
      { intros k' Hk'. rewrite Hkeys. apply elem_of_app. by left. }
      assert (Hwritten : {[lt]} ∪ ⋃ (Wk <$> done) ⊆ W).
      { intros l Hl. rewrite elem_of_union, elem_of_singleton, elem_of_union_fmap in Hl.
        destruct Hl as [-> | (k' & Hk' & Hl)].
        - apply elem_of_union_l. by apply elem_of_singleton.
        - by apply (HWk k' (Hdone k' Hk')). }
      (* the source is as it was *)
      assert (Hlsc : hc !! ls = Some os).
      { apply Hframe; [done |]. intros Hin. apply Hwritten in Hin.
        exact (disjoint_not_both W R ls HWR Hin HlsR). }
      (* so is what this round visits *)
      assert (Hchild : merges hc n (get_own (OObj pt) k) (get_own os k) (Wk k) (Rk k)).
      { eapply merges_agree; [by apply Hch |].
        intros l Hl.
        destruct (merges_alloc h n _ _ _ _ (Hch k Hk) l Hl) as (o & Ho).
        rewrite Ho. apply Hframe; [done |].
        rewrite elem_of_union, elem_of_singleton, elem_of_union_fmap.
        intros [-> | (k' & Hk' & Hl')].
        - apply elem_of_union in Hl as [Hl | Hl].
          + by apply (Hnot k Hk).
          + apply (disjoint_not_both W R lt HWR); [| by apply (HRk k Hk)].
            apply elem_of_union_l. by apply elem_of_singleton.
        - apply elem_of_union in Hl as [Hl | Hl].
          + apply (disjoint_not_both (Wk k) (Wk k') l); [| done | done].
            apply Hdisj; [done | by apply Hdone |]. intros ->. done.
          + apply (disjoint_not_both W R l HWR); [| by apply (HRk k Hk)].
            by apply (HWk k' (Hdone k' Hk')). }
      destruct (IHn n ltac:(lia) fuel hc _ _ _ _ Hchild) as (m & hc' & Hrun & Hframe' & _).
      { apply elem_of_disjoint. intros l HlW HlR.
        apply (disjoint_not_both W R l HWR); [by apply (HWk k Hk) | by apply (HRk k Hk)]. }
      { lia. }
      assert (Hptc' : hc' !! lt = Some (OObj ptc)).
      { apply Hframe'; [done | by apply Hnot]. }
      assert (Hget : get_own (OObj ptc) k = get_own (OObj pt) k).
      { unfold get_own. cbn [own_prop]. by rewrite (Hkept k Hkdone). }
      exists (<[lt := OObj (set_prop k m ptc)]> hc'). split.
      - rewrite (bind_returns _ _ _ _ _ (get_ref hc lt _ k Hptc)).
        rewrite (bind_returns _ _ _ _ _ (get_ref hc ls _ k Hlsc)).
        rewrite Hget.
        rewrite (bind_returns _ _ _ _ _ Hrun).
        by rewrite (bind_returns _ _ _ _ _ (set_mapping hc' lt ptc k m Hptc')).
      - exists (done ++ [k])%list, (set_prop k m ptc).
        split; [by rewrite <- app_assoc |].
        split; [apply lookup_insert_eq |].
        split; [| split].
        + intros l o Ho Hl.
          rewrite fmap_app, union_list_app in Hl. cbn in Hl.
          rewrite !not_elem_of_union, not_elem_of_singleton in Hl.
          destruct Hl as (Hne & Hdone' & Hlk & _).
          rewrite lookup_insert_ne by done.
          apply Hframe'; [| done].
          apply Hframe; [done |].
          rewrite not_elem_of_union, not_elem_of_singleton. done.
        + intros k' Hk'. rewrite elem_of_app, list_elem_of_singleton in Hk'.
          rewrite lookup_set_prop_ne by (intros ->; tauto).
          apply Hkept. tauto.
        + intros k' Hk'. apply elem_of_app in Hk' as [Hk' | Hk'].
          * destruct (Hmerged k' Hk') as (m' & hk & hk' & Hbound & Hkrun & Hkframe).
            exists m', hk, hk'. split; [| done].
            rewrite lookup_set_prop_ne; [done |]. intros ->. done.
          * apply list_elem_of_singleton in Hk' as ->.
            exists m, hc, hc'. split; [apply lookup_set_prop_eq |].
            split; [done |].
            intros l o Ho Hl. apply Hframe; [done |].
            intros Hin. by apply Hl, Hwritten. }
    { exists [], pt. split; [done |]. split; [done |].
      split; [by intros l o Ho _ |]. split; [done |].
      intros k Hk. by apply elem_of_nil in Hk. }
    rewrite app_nil_r in Hkeys. subst done.
    exists (VRef lt), h'. split.
    { rewrite (deepMergeObject_keyed_run fuel h lt ls _ _ Hlt Hls); done. }
    split; [exact Hframe |].
    intros lt' ls' pt0 os' [= <-] [= <-] Hpt0 Hos'.
    rewrite Hlt in Hpt0. injection Hpt0 as <-.
    rewrite Hls in Hos'. injection Hos' as <-.
    split; [done |]. exists pt'. rewrite Nat.sub_1_r. simpl.
    repeat split; done.
Qed.


(** Merging the same source twice does it too: the first merge binds
    [opts] of the target to the mapping of the source, the second one
    merges that mapping into itself and rebinds its [tags]. *)
Lemma deepMergeObject_twice_mutates_source :
  exists h1 h2,
    deepMergeObject 4 (VRef 1%positive) (VRef 2%positive) defaults
    = Returns (VRef 1%positive) h1
    /\ h1 !! 1%positive = Some (OObj [("opts", VRef 3%positive)])
    /\ h1 !! 3%positive = Some (OObj [("tags", VRef 4%positive)])
    /\ deepMergeObject 4 (VRef 1%positive) (VRef 2%positive) h1
       = Returns (VRef 1%positive) h2
    /\ h2 !! 3%positive = Some (OObj [("tags", VRef 5%positive)])
    /\ h2 !! 5%positive = Some (OArr [VStr "x"; VStr "x"]).
Proof.
  eexists _, _. split; [vm_compute; reflexivity |].
  split; [reflexivity |]. split; [reflexivity |].
  split; [vm_compute; reflexivity |].
  split; reflexivity.
Qed.

(** A target that holds one mapping twice does it as well, though
    nothing of it is reachable from source at the start: the first key
    lends a mapping of the source to the target, the second key merges
    into it. *)
Lemma deepMergeObject_shared_target_mutates_source :
  exists h',
    deepMergeObject 4 (VRef 1%positive) (VRef 3%positive) shared_target
    = Returns (VRef 1%positive) h'
    /\ shared_target !! 6%positive = Some (OObj [("p", VNum (of_Z 1))])
    /\ h' !! 6%positive = Some (OObj [("p", VNum (of_Z 1)); ("q", VNum (of_Z 2))]).
Proof.
  eexists. split; [vm_compute; reflexivity |]. split; reflexivity.
Qed.


Lemma settings_merges :
  merges settings 2 (VRef 1%positive) (VRef 3%positive)
         ({[1%positive]} ∪ ⋃ (settings_written <$> ["a"; "b"]))
         ({[3%positive]} ∪ ⋃ (settings_read <$> ["a"; "b"])).
Proof.
  apply (merges_keyed settings 1 1%positive 3%positive
           [("a", VRef 2%positive); ("keep", VNum (of_Z 7))]
           (OObj [("a", VRef 4%positive); ("b", VNum (of_Z 2))])
           settings_written settings_read).
  - reflexivity.
  - reflexivity.
  - by apply (bool_decide_unpack _).
  - intros k Hk. change (k ∈ ["a"; "b"]) in Hk.
    apply elem_of_cons in Hk as [-> | Hk].
    + apply (merges_keyed settings 0 2%positive 4%positive
               [("x", VNum (of_Z 1))] (OObj [("y", VNum (of_Z 2))])
               (fun _ => ∅) (fun _ => ∅)).
      * reflexivity.
      * reflexivity.
      * by apply (bool_decide_unpack _).
      * intros k Hk. change (k ∈ ["y"]) in Hk.
        apply list_elem_of_singleton in Hk as ->.
        by apply merges_leaf.
      * intros k k' _ _ _. apply disjoint_empty_l.
      * intros k _. apply not_elem_of_empty.
    + apply list_elem_of_singleton in Hk as ->. by apply merges_leaf.
  - intros k k' Hk Hk' Hne.
    change (k ∈ ["a"; "b"]) in Hk. change (k' ∈ ["a"; "b"]) in Hk'.
    apply elem_of_cons in Hk as [-> | Hk]; apply elem_of_cons in Hk' as [-> | Hk'];
      try apply list_elem_of_singleton in Hk as ->;
      try apply list_elem_of_singleton in Hk' as ->;
      first [ done | by apply (bool_decide_unpack _) ].
  - intros k Hk. change (k ∈ ["a"; "b"]) in Hk.
    apply elem_of_cons in Hk as [-> | Hk].
    + by apply (bool_decide_unpack _).
    + apply list_elem_of_singleton in Hk as ->. apply not_elem_of_empty.
Defined.

(** From the source of [settings] only the source and the mapping
    under its [a] are reached. *)
Lemma settings_reach l :
  reach settings (VRef 3%positive) l -> l = 3%positive \/ l = 4%positive.
Proof.
  intros H. inversion H as [| ? o k ? Ho Hnext]; subst; [by left |].
  assert (o = OObj [("a", VRef 4%positive); ("b", VNum (of_Z 2))]) as ->
    by (apply (inj Some); rewrite <- Ho; reflexivity).
  right.
  unfold get_own in Hnext. cbn [own_prop lookup_prop] in Hnext.
  destruct (String.eqb k "a"); simpl in Hnext.
  - inversion Hnext as [| ? o' k' ? Ho' Hnext']; subst; [done |].
    assert (o' = OObj [("y", VNum (of_Z 2))]) as ->
      by (apply (inj Some); rewrite <- Ho'; reflexivity).
    unfold get_own in Hnext'. cbn [own_prop lookup_prop] in Hnext'.
    destruct (String.eqb k' "y"); simpl in Hnext'; inversion Hnext'.
  - destruct (String.eqb k "b"); simpl in Hnext; inversion Hnext.
Qed.

Lemma settings_separate l :
  reach settings (VRef 3%positive) l ->
  l ∉ ({[1%positive]} ∪ ⋃ (settings_written <$> ["a"; "b"]) : gset loc).
Proof.
  intros [-> | ->]%settings_reach; by apply (bool_decide_unpack _).
Qed.

(** The keys of the source of [settings] are [a], [b] and [y]. *)
Lemma settings_plain_keys : Copies.plain_keys settings (VRef 3%positive).
Proof.
  intros l o k [-> | ->]%settings_reach Ho Hk.
  - assert (o = OObj [("a", VRef 4%positive); ("b", VNum (of_Z 2))]) as ->
      by (apply (inj Some); rewrite <- Ho; reflexivity).
    change (k ∈ ["a"; "b"]) in Hk.
    apply elem_of_cons in Hk as [-> | Hk]; [reflexivity |].
    apply list_elem_of_singleton in Hk as ->. reflexivity.
  - assert (o = OObj [("y", VNum (of_Z 2))]) as ->
      by (apply (inj Some); rewrite <- Ho; reflexivity).
    change (k ∈ ["y"]) in Hk.
    apply list_elem_of_singleton in Hk as ->. reflexivity.
Qed.



(** ** The examples of the specification *)

(** [deepMergeObject({a: 1}, {b: 2})] is [{a: 1, b: 2}]. *)
Example deepMergeObject_flat :
  exists h',
    deepMergeObject 2 (VRef 1%positive) (VRef 2%positive) flat
    = Returns (VRef 1%positive) h'
    /\ h' !! 1%positive = Some (OObj [("a", VNum (of_Z 1)); ("b", VNum (of_Z 2))])
    /\ h' !! 2%positive = Some (OObj [("b", VNum (of_Z 2))]).
Proof.
  eexists. split; [vm_compute; reflexivity |]. split; reflexivity.
Qed.

(** [deepMergeObject({a: {x: 1}, keep: 7}, {a: {y: 2}, b: 2})] is
    [{a: {x: 1, y: 2}, keep: 7, b: 2}], in the mappings of the target. *)
Example deepMergeObject_settings :
  exists h',
    deepMergeObject 3 (VRef 1%positive) (VRef 3%positive) settings
    = Returns (VRef 1%positive) h'
    /\ h' !! 1%positive
       = Some (OObj [("a", VRef 2%positive); ("keep", VNum (of_Z 7));
                     ("b", VNum (of_Z 2))])
    /\ h' !! 2%positive = Some (OObj [("x", VNum (of_Z 1)); ("y", VNum (of_Z 2))])
    /\ h' !! 3%positive = settings !! 3%positive
    /\ h' !! 4%positive = settings !! 4%positive.
Proof.
  eexists. split; [vm_compute; reflexivity |]. repeat split; reflexivity.
Qed.

(** [deepMergeObject([1, 2], [3])] is [[1, 2, 3]], a new array. *)
Example deepMergeObject_two_arrays_run :
  exists h',
    deepMergeObject 1 (VRef 1%positive) (VRef 2%positive) two_arrays
    = Returns (VRef 3%positive) h'
    /\ h' !! 3%positive
       = Some (OArr [VNum (of_Z 1); VNum (of_Z 2); VNum (of_Z 3)]).
Proof.
  eexists. split; [vm_compute; reflexivity |]. reflexivity.
Qed.

(** A shallow clone of [{a: [1]}] shares the array, a deep clone holds
    a new one. *)
Example cloneObject_shallow_and_deep :
  (exists h',
      cloneObject 3 (VRef 1%positive) false nested = Returns (VRef 3%positive) h'
      /\ h' !! 3%positive = Some (OObj [("a", VRef 2%positive)]))
  /\ (exists h',
         cloneObject 3 (VRef 1%positive) true nested = Returns (VRef 3%positive) h'
         /\ h' !! 3%positive = Some (OObj [("a", VRef 4%positive)])
         /\ h' !! 4%positive = Some (OArr [VNum (of_Z 1)])).
Proof.
  split; eexists; (split; [vm_compute; reflexivity |]); repeat split; reflexivity.
Qed.

End ObjFacts.

(* ================================================================== *)
(** * More properties of random, randomString and getRandomItem *)
(* ================================================================== *)

Module RandMoreFacts.
Import Js Rand JsFacts RandFacts.

Local Open Scope string_scope.

(** ** Bounds in either order *)

Lemma random_integer_swapped Math_random i (lower upper : Z) floating :
  upper < lower ->
  floating = VUndefined \/ floating = VBool false ->
  in_unit_interval (Math_random i) ->
  exists k, random Math_random (VNum (of_Z lower)) (VNum (of_Z upper)) floating i
            = Some (of_Z k, S i)
            /\ upper <= k <= lower.
Proof.
  intros Hlt Hf [H0 H1].
  destruct (floor_scaled_sample (sample (Math_random i)) (lower - upper + 1))
    as (k & Hk & Hrange); [done | done | lia |].
  exists (upper + k). split; [| lia].
  assert (Hgt : gt (of_Z lower) (of_Z upper) = true).
  { rewrite gt_of_Z. apply Z.ltb_lt. exact Hlt. }
  destruct Hf as [-> | ->];
    unfold random, bind, lift, ret, Math_random_call;
    cbn [ToBoolean is_boolean is_undefined andb orb negb ToNumber];
    rewrite Hgt, !rem1_of_Z;
    change (number_truthy (of_Z 0)) with false;
    cbn [orb]; cbv beta;
    by rewrite sub_of_Z, add_of_Z, Hk, add_of_Z.
Qed.

(** X5.  The bounds in either order.  For two safe integers [a] and
    [b] less than 2^53 apart, whichever is the larger, the floating flag
    unset or false, and every outcome of the draw, [random(a, b)]
    returns an integer between the smaller and the larger and makes one
    call of [Math.random].  The bounds are those within which line 70
    is exact on doubles. *)
Theorem random_integer_either_order Math_random i (a b : Z) floating :
  Double.safe_integer a -> Double.safe_integer b ->
  Z.abs (a - b) < 2 ^ 53 ->
  floating = VUndefined \/ floating = VBool false ->
  in_unit_interval (Math_random i) ->
  exists k, random Math_random (VNum (of_Z a)) (VNum (of_Z b)) floating i
            = Some (of_Z k, S i)
            /\ Z.min a b <= k <= Z.max a b.
Proof.
  intros _ _ _ Hf Hd. destruct (Z.le_gt_cases a b) as [Hle | Hgt].
  - destruct (random_integer_path Math_random i a b floating Hle Hf Hd) as (k & ? & ?).
    exists k. split; [done | lia].
  - destruct (random_integer_swapped Math_random i a b floating Hgt Hf Hd) as (k & ? & ?).
    exists k. split; [done | lia].
Qed.

(** With one bound [n] of either sign, the range is from [0] to [n]. *)
Lemma random_one_bound Math_random i (n : Z) :
  in_unit_interval (Math_random i) ->
  exists k, random Math_random (VNum (of_Z n)) VUndefined VUndefined i
            = Some (of_Z k, S i)
            /\ Z.min 0 n <= k <= Z.max 0 n.
Proof.
  intros Hd.
  destruct (Z.le_gt_cases 0 n) as [Hle | Hgt].
  - destruct (random_integer_path Math_random i 0 n VUndefined Hle (or_introl eq_refl) Hd)
      as (k & Hk & ?).
    exists k. split; [rewrite <- Hk; reflexivity | lia].
  - destruct (random_integer_swapped Math_random i 0 n VUndefined Hgt (or_introl eq_refl) Hd)
      as (k & Hk & ?).
    exists k. split; [rewrite <- Hk; reflexivity | lia].
Qed.

Lemma random_integer_either_order_witness :
  Double.safe_integer 9
  /\ Double.safe_integer 1
  /\ Z.abs (9 - 1) < 2 ^ 53
  /\ (VUndefined = VUndefined \/ VUndefined = VBool false)
  /\ in_unit_interval coin
  /\ exists k, random (fun _ => coin) (VNum (of_Z 9)) (VNum (of_Z 1)) VUndefined 0%nat
               = Some (of_Z k, 1%nat)
               /\ Z.min 9 1 <= k <= Z.max 9 1.
Proof.
  split; [reflexivity |]. split; [reflexivity |]. split; [reflexivity |].
  split; [left; reflexivity |].
  split; [exact coin_in_unit_interval |].
  apply (random_integer_either_order (fun _ => coin) 0%nat 9 1 VUndefined);
    [reflexivity | reflexivity | reflexivity
    | left; reflexivity | exact coin_in_unit_interval].
Defined.

(** X6.  One bound.  [random(n)] for an integer [n] returns an integer
    between [0] and [n], also when [n] is negative: the missing bound
    is [0], and the two are put in order. *)
Theorem random_single_bound_either_sign Math_random i (n : Z) :
  in_unit_interval (Math_random i) ->
  exists k, random Math_random (VNum (of_Z n)) VUndefined VUndefined i
            = Some (of_Z k, S i)
            /\ Z.min 0 n <= k <= Z.max 0 n.
Proof. apply random_one_bound. Qed.

Lemma random_single_bound_either_sign_witness :
  in_unit_interval coin
  /\ exists k, random (fun _ => coin) (VNum (of_Z (-5))) VUndefined VUndefined 0%nat
               = Some (of_Z k, 1%nat)
               /\ Z.min 0 (-5) <= k <= Z.max 0 (-5).
Proof.
  split; [exact coin_in_unit_interval |].
  apply (random_single_bound_either_sign (fun _ => coin) 0%nat (-5)).
  exact coin_in_unit_interval.
Defined.

(** X7.  No bound.  [random()] returns [0] or [1]. *)
Theorem random_no_argument Math_random i :
  in_unit_interval (Math_random i) ->
  random Math_random VUndefined VUndefined VUndefined i = Some (of_Z 0, S i)
  \/ random Math_random VUndefined VUndefined VUndefined i = Some (of_Z 1, S i).
Proof.
  intros Hd.
  destruct (random_integer_path Math_random i 0 1 VUndefined ltac:(lia) (or_introl eq_refl) Hd)
    as (k & Hk & Hrange).
  assert (k = 0 \/ k = 1) as [-> | ->] by lia; [left | right]; rewrite <- Hk; reflexivity.
Qed.

Lemma random_no_argument_witness :
  in_unit_interval coin
  /\ (random (fun _ => coin) VUndefined VUndefined VUndefined 0%nat = Some (of_Z 0, 1%nat)
      \/ random (fun _ => coin) VUndefined VUndefined VUndefined 0%nat
         = Some (of_Z 1, 1%nat)).
Proof.
  split; [exact coin_in_unit_interval |].
  apply (random_no_argument (fun _ => coin) 0%nat). exact coin_in_unit_interval.
Defined.

(** X8.  The flag in place of a bound.  A boolean given as the second
    argument is the floating flag of a call with one bound:
    [random(lower, b)] is [random(lower, undefined, b)].  Given as the
    first argument, before a bound that is no boolean, it is the flag
    too, and the bound stays the upper one: [random(b, upper)] is
    [random(undefined, upper, b)]. *)
Theorem random_flag_shorthand Math_random (lower : value) (b : bool) i :
  random Math_random lower (VBool b) VUndefined i
  = random Math_random lower VUndefined (VBool b) i
  /\ (is_boolean lower = false ->
      random Math_random (VBool b) lower VUndefined i
      = random Math_random VUndefined lower (VBool b) i).
Proof.
  split; [by destruct b |].
  intros Hl. unfold random. cbn [ToBoolean is_boolean is_undefined andb negb].
  rewrite Hl. by destruct b.
Qed.

(** ** Within the bounds, on either path *)

Local Open Scope Q_scope.

Lemma parseFloat_1e_minus_pos k :
  exists e, parseFloat_1e_minus k = Num e /\ 0 < e.
Proof.
  unfold parseFloat_1e_minus. eexists. split; [reflexivity |].
  rewrite Qred_correct. apply Qlt_shift_div_l.
  - change 0 with (inject_Z 0). rewrite <- Zlt_Qlt. apply Z.pow_pos_nonneg; lia.
  - rewrite Qmult_0_l. reflexivity.
Qed.

(** The floating path between ordered bounds. *)
Lemma floating_pick (l u r : Q) k :
  l <= u -> 0 <= r ->
  exists q,
    Math_min (add (Num l) (mul (Num r) (add (sub (Num u) (Num l))
                                           (parseFloat_1e_minus k))))
             (Num u) = Num q
    /\ l <= q /\ q <= u.
Proof.
  intros Hlu Hr. destruct (parseFloat_1e_minus_pos k) as (e & -> & He).
  unfold add, mul, sub, lift2, Math_min.
  match goal with |- context [Qle_bool ?x u] => destruct (Qle_bool x u) eqn:E end.
  - eexists. split; [reflexivity |]. split; [| by apply Qle_bool_iff].
    rewrite !Qred_correct.
    rewrite <- (Qplus_0_r l) at 1. apply Qplus_le_r.
    apply Qmult_le_0_compat; [done |].
    rewrite <- (Qplus_0_r 0). apply Qplus_le_compat; [| by apply Qlt_le_weak].
    unfold Qminus. by apply Qle_minus_iff in Hlu.
  - exists u. split; [reflexivity |]. split; [done | apply Qle_refl].
Qed.

(** A number without fractional part is an integer. *)
Lemma rem1_falsy (x : Q) :
  number_truthy (rem1 (Num x)) = false -> x == inject_Z (Qtrunc x).
Proof.
  unfold rem1, number_truthy. intros H.
  apply negb_false_iff, Qeq_bool_iff in H. rewrite Qred_correct in H.
  rewrite <- (Qplus_0_l (inject_Z (Qtrunc x))), <- H. unfold Qminus.
  rewrite <- Qplus_assoc, (Qplus_comm (- _)), Qplus_opp_r, Qplus_0_r. reflexivity.
Qed.

(** The integer path between ordered integral bounds. *)
Lemma integer_pick (l u r : Q) :
  l <= u -> 0 <= r -> r < 1 ->
  number_truthy (rem1 (Num l)) = false ->
  number_truthy (rem1 (Num u)) = false ->
  exists q,
    add (Num l) (Math_floor (mul (Num r) (add (sub (Num u) (Num l)) (of_Z 1)))) = Num q
    /\ l <= q /\ q <= u.
Proof.
  intros Hlu Hr0 Hr1 Hl%rem1_falsy Hu%rem1_falsy.
  set (a := Qtrunc l) in *. set (b := Qtrunc u) in *.
  assert (Hab : (a <= b)%Z).
  { rewrite Zle_Qle, <- Hl, <- Hu. done. }
  assert (Hn : add (sub (Num u) (Num l)) (of_Z 1) = of_Z (b - a + 1)).
  { unfold add, sub, lift2, of_Z. f_equal. apply Qred_inject_Z_eq.
    rewrite Qred_correct, Hl, Hu. unfold Qminus.
    rewrite <- inject_Z_opp, <- !inject_Z_plus. reflexivity. }
  rewrite Hn.
  destruct (floor_scaled_sample r (b - a + 1)) as (k & -> & Hk); [done | done | lia |].
  unfold add, lift2, of_Z. eexists. split; [reflexivity |].
  rewrite Qred_correct, Hl, Hu, <- inject_Z_plus, <- !Zle_Qle. lia.
Qed.

(** X9.  Within the bounds on either path.  For two numbers of
    magnitude below 2^52, fractions included, in either order, and the
    floating flag unset or a boolean, [random] returns a number between
    the smaller and the larger bound, both included, and makes one call
    of [Math.random].  Below 2^52 nothing overflows on doubles: the
    integer path is exact there, and on the floating path every
    rounding is monotone, so that what is added to the lower bound is
    not negative and [Math.min] caps the sum. *)
Theorem random_within_bounds Math_random i (lo hi : Q) floating :
  Double.small lo -> Double.small hi ->
  floating = VUndefined \/ (exists b, floating = VBool b) ->
  in_unit_interval (Math_random i) ->
  exists q,
    random Math_random (VNum (Num lo)) (VNum (Num hi)) floating i = Some (Num q, S i)
    /\ (lo <= hi -> lo <= q /\ q <= hi)
    /\ (hi <= lo -> hi <= q /\ q <= lo).
Proof.
  intros _ _ Hf [H0 H1].
  assert (Hrun : forall l u, l <= u ->
            exists q,
              (if (ToBoolean floating || number_truthy (rem1 (Num l))
                   || number_truthy (rem1 (Num u)))%bool
               then bind (Math_random_call Math_random) (fun d =>
                      ret (Math_min
                             (add (Num l)
                                  (mul (Num (sample d))
                                       (add (sub (Num u) (Num l))
                                            (parseFloat_1e_minus (text_length d - 1)))))
                             (Num u)))
               else bind (Math_random_call Math_random) (fun d =>
                      ret (add (Num l)
                               (Math_floor (mul (Num (sample d))
                                                (add (sub (Num u) (Num l)) (of_Z 1)))))))
                i = Some (Num q, S i)
              /\ l <= q /\ q <= u).
  { intros l u Hlu.
    destruct (ToBoolean floating || number_truthy (rem1 (Num l))
              || number_truthy (rem1 (Num u)))%bool eqn:Hpath.
    - destruct (floating_pick l u (sample (Math_random i))
                  (text_length (Math_random i) - 1) Hlu H0) as (q & Hq & ?).
      exists q. unfold bind, Math_random_call, ret. by rewrite Hq.
    - apply orb_false_iff in Hpath as [Hpath Hu].
      apply orb_false_iff in Hpath as [_ Hl].
      destruct (integer_pick l u (sample (Math_random i)) Hlu H0 H1 Hl Hu) as (q & Hq & ?).
      exists q. unfold bind, Math_random_call, ret. by rewrite Hq. }
  assert (Hnorm : random Math_random (VNum (Num lo)) (VNum (Num hi)) floating i
                  = (let '(lower, upper) :=
                       if gt (Num lo) (Num hi) then (Num hi, Num lo) else (Num lo, Num hi) in
                     if (ToBoolean floating || number_truthy (rem1 lower)
                         || number_truthy (rem1 upper))%bool
                     then bind (Math_random_call Math_random) (fun d =>
                            ret (Math_min
                                   (add lower
                                        (mul (Num (sample d))
                                             (add (sub upper lower)
                                                  (parseFloat_1e_minus (text_length d - 1)))))
                                   upper))
                     else bind (Math_random_call Math_random) (fun d =>
                            ret (add lower
                                     (Math_floor (mul (Num (sample d))
                                                      (add (sub upper lower) (of_Z 1)))))))
                      i).
  { destruct Hf as [-> | [b ->]]; [reflexivity | by destruct b]. }
  rewrite Hnorm. unfold gt.
  destruct (Qle_bool lo hi) eqn:E; cbn [negb].
  - apply Qle_bool_iff in E. destruct (Hrun lo hi E) as (q & Hq & Hlq & Hqh).
    exists q. split; [exact Hq |]. split; [done |].
    intros Hhl. split.
    + by apply Qle_trans with lo.
    + by apply Qle_trans with hi.
  - assert (Hhl : hi <= lo).
    { destruct (Qlt_le_dec lo hi) as [Hlt | Hge]; [| done].
      apply Qlt_le_weak, Qle_bool_iff in Hlt. congruence. }
    destruct (Hrun hi lo Hhl) as (q & Hq & Hlq & Hqh).
    exists q. split; [exact Hq |]. split; [| done].
    intros Hlh. split.
    + by apply Qle_trans with hi.
    + by apply Qle_trans with lo.
Qed.

Lemma random_within_bounds_witness :
  Double.small 3
  /\ Double.small (1 # 2)
  /\ (VBool true = VUndefined \/ (exists b, VBool true = VBool b))
  /\ in_unit_interval coin
  /\ exists q,
      random (fun _ => coin) (VNum (Num 3)) (VNum (Num (1 # 2))) (VBool true) 0%nat
      = Some (Num q, 1%nat)
      /\ (3 <= 1 # 2 -> 3 <= q /\ q <= 1 # 2)
      /\ (1 # 2 <= 3 -> 1 # 2 <= q /\ q <= 3).
Proof.
  split; [by split |]. split; [by split |].
  split; [right; by exists true |].
  split; [exact coin_in_unit_interval |].
  apply (random_within_bounds (fun _ => coin) 0%nat 3 (1 # 2) (VBool true));
    [by split | by split | right; by exists true | exact coin_in_unit_interval].
Defined.

Local Close Scope Q_scope.

(** ** [getRandomItem] and [randomString] in general *)

Lemma string_get_in_range (s : string) : forall n,
  (n < String.length s)%nat -> exists c, String.get n s = Some c.
Proof.
  induction s as [|x s IH]; intros n Hn; simpl in *; [lia |].
  destruct n as [|n]; [by exists x |]. apply IH. lia.
Qed.

(** X17.  A character of the string.  For a sample of [0, 1),
    [getRandomItem] returns a one-character string that occurs in a
    non-empty [indexable], and [undefined] for the empty string; it
    calls [Math.random] once. *)
Theorem getRandomItem_string Math_random (indexable : string) i :
  in_unit_interval (Math_random i) ->
  if String.eqb indexable ""
  then getRandomItem Math_random indexable i = Some (VUndefined, S i)
  else exists n c,
      getRandomItem Math_random indexable i = Some (VStr (String c ""), S i)
      /\ String.get n indexable = Some c.
Proof.
  intros Hd. unfold getRandomItem, bind, ret.
  destruct (random_one_bound Math_random i
              (Z.of_nat (String.length indexable) - 1) Hd) as (k & -> & Hk).
  unfold string_index. rewrite to_integer_of_Z.
  destruct indexable as [|x s]; simpl String.eqb.
  - simpl in Hk. destruct (Z.leb_spec 0 k); [| done].
    by replace k with 0 by lia.
  - cbn [String.length] in Hk.
    destruct (Z.leb_spec 0 k); [| lia].
    destruct (string_get_in_range (String x s) (Z.to_nat k)) as (c & Hc).
    { cbn [String.length]. lia. }
    exists (Z.to_nat k), c. by rewrite Hc.
Qed.

Lemma getRandomItem_string_witness :
  in_unit_interval coin
  /\ (if String.eqb "abc" ""
      then getRandomItem (fun _ => coin) "abc" 0%nat = Some (VUndefined, 1%nat)
      else exists n c,
          getRandomItem (fun _ => coin) "abc" 0%nat = Some (VStr (String c ""), 1%nat)
          /\ String.get n "abc" = Some c).
Proof.
  split; [exact coin_in_unit_interval |].
  apply (getRandomItem_string (fun _ => coin) "abc" 0%nat). exact coin_in_unit_interval.
Defined.

(** An item of the alphabet is one of its characters. *)
Lemma getRandomItem_chars_member Math_random i :
  in_unit_interval (Math_random i) ->
  exists c, getRandomItem Math_random chars i = Some (VStr (String c ""), S i)
            /\ Uuid.one_of chars c = true.
Proof.
  intros Hd. unfold getRandomItem, bind.
  change (Z.of_nat (String.length chars) - 1) with 61.
  destruct (random_single_bound Math_random i 61 ltac:(lia) Hd) as (k & -> & Hk).
  unfold string_index. rewrite to_integer_of_Z.
  destruct (Z.leb_spec 0 k) as [_ | ?]; [| lia].
  destruct (string_forall_get (Uuid.one_of chars) chars (Z.to_nat k))
    as (c & -> & Hc); [reflexivity | simpl; lia |].
  exists c. by unfold ret.
Qed.

Lemma chars_lowered c :
  Uuid.one_of chars c = true -> lower_alnum (lower_char c) = true.
Proof.
  destruct c as [[] [] [] [] [] [] [] []]; vm_compute; congruence.
Qed.

Lemma string_forall_lowered (s : string) :
  string_forall (Uuid.one_of chars) s = true ->
  string_forall lower_alnum (toLowerCase s) = true.
Proof.
  induction s as [|x s IH]; simpl; [done |].
  intros [Hx Hs]%andb_true_iff. by rewrite (chars_lowered x Hx), IH.
Qed.

Lemma randomString_loop_alphabet Math_random :
  (forall j, in_unit_interval (Math_random j)) ->
  forall n result i,
  exists s, randomString_loop Math_random n result i = Some (result ++ s, (i + n)%nat)
            /\ String.length s = n
            /\ string_forall (Uuid.one_of chars) s = true.
Proof.
  intros Hsrc. induction n as [|n IH]; intros result i.
  - exists "". simpl. unfold ret.
    by rewrite string_app_nil_r, Nat.add_0_r.
  - cbn [randomString_loop]. unfold bind at 1.
    destruct (getRandomItem_chars_member Math_random i (Hsrc i)) as (c & -> & Hc).
    unfold bind at 1, lift. cbn [ToString].
    destruct (IH (result ++ String c "") (S i)) as (s & -> & Hlen & Hall).
    exists (String c s). rewrite string_app_assoc. simpl.
    split; [f_equal; f_equal; lia |].
    split; [by rewrite Hlen |].
    by rewrite Hc, Hall.
Qed.

(** X10.  Length and alphabet.  For samples of [0, 1),
    [randomString(length, lower)] returns [length] characters (none for
    a negative length), each a character of the alphabet [chars], or a
    digit or lowercase letter when [lower] is truthy, and calls
    [Math.random] once for each. *)
Theorem randomString_length_and_alphabet Math_random (length : Z) (lower : value) i :
  (forall j, in_unit_interval (Math_random j)) ->
  exists s,
    randomString Math_random length lower i = Some (s, (i + Z.to_nat length)%nat)
    /\ String.length s = Z.to_nat length
    /\ string_forall (if ToBoolean lower then lower_alnum else Uuid.one_of chars) s = true.
Proof.
  intros Hsrc. unfold randomString, bind.
  destruct (randomString_loop_alphabet Math_random Hsrc (Z.to_nat length) "" i)
    as (s & -> & Hlen & Hall).
  cbn [append]. destruct (ToBoolean lower); unfold ret.
  - exists (toLowerCase s). rewrite toLowerCase_length.
    split; [done |]. split; [done |]. by apply string_forall_lowered.
  - by exists s.
Qed.

Lemma randomString_length_and_alphabet_witness :
  (forall j : nat, in_unit_interval ((fun _ => coin) j))
  /\ exists s,
      randomString (fun _ => coin) 4 (VBool false) 0%nat
      = Some (s, (0 + Z.to_nat 4)%nat)
      /\ String.length s = Z.to_nat 4
      /\ string_forall (if ToBoolean (VBool false) then lower_alnum else Uuid.one_of chars) s
         = true.
Proof.
  split; [intros _; exact coin_in_unit_interval |].
  apply (randomString_length_and_alphabet (fun _ => coin) 4 (VBool false) 0%nat).
  intros _; exact coin_in_unit_interval.
Defined.

(** ** [getRandomItem] on an array *)

(** X18.  An element of the array.  For a sample of [0, 1),
    [getRandomItem] returns an element of a non-empty array, and
    [undefined] for an empty one; it calls [Math.random] once. *)
Theorem getRandomItem_array Math_random (items : list value) i :
  in_unit_interval (Math_random i) ->
  exists v,
    Pick.getRandomItem Math_random items i = Some (v, S i)
    /\ match items with
       | [] => v = VUndefined
       | _ :: _ => exists n, items !! n = Some v
       end.
Proof.
  intros Hd. unfold Pick.getRandomItem, bind, ret.
  destruct (random_one_bound Math_random i (Z.of_nat (List.length items) - 1) Hd)
    as (k & -> & Hk).
  exists (Pick.array_at items (of_Z k)). split; [done |].
  unfold Pick.array_at. rewrite to_integer_of_Z.
  destruct items as [|x items].
  - simpl in Hk. destruct (Z.leb_spec 0 k); [| done].
    by replace k with 0 by lia.
  - cbn [List.length] in Hk. destruct (Z.leb_spec 0 k); [| lia].
    destruct (lookup_lt_is_Some_2 (x :: items) (Z.to_nat k)) as [v Hv];
      [cbn [List.length]; lia |].
    exists (Z.to_nat k). by rewrite Hv.
Qed.

Lemma getRandomItem_array_witness :
  in_unit_interval coin
  /\ exists v,
      Pick.getRandomItem (fun _ => coin) [VNull; VBool true] 0%nat = Some (v, 1%nat)
      /\ exists n, [VNull; VBool true] !! n = Some v.
Proof.
  split; [exact coin_in_unit_interval |].
  apply (getRandomItem_array (fun _ => coin) [VNull; VBool true] 0%nat).
  exact coin_in_unit_interval.
Defined.

End RandMoreFacts.

(* ================================================================== *)
(** * More properties of createUUID *)
(* ================================================================== *)

Module UuidMoreFacts.
Import Js Uuid UuidSource UuidFacts.

Local Open Scope string_scope.
Local Open Scope nat_scope.

(** X28.  No digit is favoured.  Of the 256 bytes, exactly 16 give each
    hexadecimal digit at an [x] of the template, and exactly 64 give
    each of [8 9 a b] at the [y]: taking the byte modulo 16 leaves no
    remainder class short. *)
Theorem createUUID_digits_unbiased (c : ascii) :
  (hex c = true -> bytes_giving "x" c = 16)
  /\ (one_of "89ab" c = true -> bytes_giving "y" c = 64).
Proof.
  split; intros H;
    destruct c as [[] [] [] [] [] [] [] []];
    first [ discriminate H | vm_compute; reflexivity ].
Qed.

(** ** Every UUID of the pattern is generated *)

Lemma replacer_x_digit (rb : nat -> Byte.byte) i c :
  hex c = true -> rb i = byte_of_hex c ->
  replacer rb "x" i = (String c "", S i).
Proof.
  intros Hc Hb. unfold replacer, Uuid.bind, crypto_randomBytes_1_0, Uuid.ret.
  rewrite Hb. f_equal.
  destruct c as [[] [] [] [] [] [] [] []];
    first [ discriminate Hc | vm_compute; reflexivity ].
Qed.

Lemma replacer_y_digit (rb : nat -> Byte.byte) i c :
  one_of "89ab" c = true -> rb i = byte_of_hex c ->
  replacer rb "y" i = (String c "", S i).
Proof.
  intros Hc Hb. unfold replacer, Uuid.bind, crypto_randomBytes_1_0, Uuid.ret.
  rewrite Hb. f_equal.
  destruct c as [[] [] [] [] [] [] [] []];
    first [ discriminate Hc | vm_compute; reflexivity ].
Qed.

(** A filling of a template is what the replacement returns on a source
    that hands out the digits of the filling. *)
Lemma replace_xy_payload (s out : string) :
  filled s out ->
  forall (rb : nat -> Byte.byte) i,
    (forall j, j < length (payload s out) ->
               rb (i + j) = byte_of_hex (nth j (payload s out) "0"%char)) ->
    replace_xy (replacer rb) s i = (out, i + count_xy s).
Proof.
  induction 1 as [| c s out Hc _ IH | c s out Hc _ IH | c s out Hc _ IH];
    intros rb i Hrb.
  - cbn [replace_xy count_xy]. unfold Uuid.ret. by rewrite Nat.add_0_r.
  - cbn [replace_xy count_xy payload] in *.
    change (one_of "xy" "x") with true in *. cbv iota in *.
    unfold Uuid.bind at 1.
    rewrite (replacer_x_digit rb i c Hc).
    2:{ rewrite <- (Nat.add_0_r i) at 1. apply Hrb. simpl. lia. }
    unfold Uuid.bind at 1. rewrite (IH rb (S i)).
    + unfold Uuid.ret. f_equal. lia.
    + intros j Hj. replace (S i + j) with (i + S j) by lia.
      apply (Hrb (S j)). simpl. lia.
  - cbn [replace_xy count_xy payload] in *.
    change (one_of "xy" "y") with true in *. cbv iota in *.
    unfold Uuid.bind at 1.
    rewrite (replacer_y_digit rb i c Hc).
    2:{ rewrite <- (Nat.add_0_r i) at 1. apply Hrb. simpl. lia. }
    unfold Uuid.bind at 1. rewrite (IH rb (S i)).
    + unfold Uuid.ret. f_equal. lia.
    + intros j Hj. replace (S i + j) with (i + S j) by lia.
      apply (Hrb (S j)). simpl. lia.
  - cbn [replace_xy count_xy payload] in *. rewrite Hc in *.
    unfold Uuid.bind at 1. rewrite (IH rb i Hrb). by unfold Uuid.ret.
Qed.

Lemma one_of_single (d c : ascii) : one_of (String d "") c = true -> c = d.
Proof.
  unfold one_of. simpl. rewrite orb_false_r. apply Ascii.eqb_eq.
Qed.

Ltac eat_char H :=
  match type of H with
  | context [match ?u with EmptyString => _ | String _ _ => _ end] =>
      is_var u; destruct u as [|? u]; [discriminate H |];
      match type of H with
      | context [if ?p ?c then _ else _] =>
          destruct (p c) eqn:?; [| discriminate H]
      end
  end.

(** A string of the UUID layout is a filling of the template. *)
Lemma layout_filled (uuid : string) :
  matches uuid_pattern uuid = true ->
  filled "xxxxxxxx-xxxx-4xxx-yxxx-xxxxxxxxxxxx" uuid.
Proof.
  intros H. cbn [matches uuid_pattern eat] in H.
  do 36 (eat_char H; cbn [matches eat] in H).
  apply String.eqb_eq in H. subst uuid.
  repeat match goal with
         | Hd : dash ?c = true |- _ => apply one_of_single in Hd; subst c
         | Hd : one_of "4" ?c = true |- _ => apply one_of_single in Hd; subst c
         end.
  repeat first [ apply filled_nil
               | apply filled_x; [assumption |]
               | apply filled_y; [assumption |]
               | apply filled_copy; [reflexivity |] ].
Qed.

(** X29.  Every UUID of the pattern is generated.  For each string
    that matches
    [^[0-9a-f]{8}-[0-9a-f]{4}-4[0-9a-f]{3}-[89ab][0-9a-f]{3}-[0-9a-f]{12}$]
    there are bytes for which [createUUID] returns that string: the
    bytes with the values of its 31 free digits. *)
Theorem createUUID_covers_pattern (uuid : string) (i : nat) :
  matches uuid_pattern uuid = true ->
  createUUID
    (source_of i (payload "xxxxxxxx-xxxx-4xxx-yxxx-xxxxxxxxxxxx" uuid)) i
  = (uuid, i + 31).
Proof.
  intros H. apply layout_filled in H.
  apply (replace_xy_payload _ _ H). intros j _.
  unfold source_of. f_equal. f_equal. lia.
Qed.

Lemma createUUID_covers_pattern_witness :
  matches uuid_pattern "01234567-89ab-4cde-8f01-23456789abcd" = true
  /\ createUUID
       (source_of 0 (payload "xxxxxxxx-xxxx-4xxx-yxxx-xxxxxxxxxxxx"
                             "01234567-89ab-4cde-8f01-23456789abcd")) 0
     = ("01234567-89ab-4cde-8f01-23456789abcd", 0 + 31).
Proof.
  split; [reflexivity |].
  apply (createUUID_covers_pattern "01234567-89ab-4cde-8f01-23456789abcd" 0).
  reflexivity.
Defined.

End UuidMoreFacts.

(* ================================================================== *)
(** * Properties of jsonp2Object *)
(* ================================================================== *)

Module JsonpFacts.
Import Js Rand Jsonp RandFacts.

Local Open Scope string_scope.

(** A run of word characters that an opening parenthesis ends is
    skipped up to the parenthesis. *)
Lemma skip_word_callback (name rest : string) :
  string_forall is_word name = true ->
  skip_word (name ++ String "(" rest) = String "(" rest.
Proof.
  induction name as [|c name IH]; intros Hname; [done |].
  simpl in Hname. apply andb_true_iff in Hname as [Hc Hname].
  rewrite string_app_cons. cbn [skip_word]. rewrite Hc. by apply IH.
Qed.

Lemma strip_callback_name (name rest : string) :
  name <> "" -> string_forall is_word name = true ->
  strip_callback (name ++ String "(" rest) = rest.
Proof.
  intros Hne Hname. destruct name as [|c name]; [done |].
  pose proof (skip_word_callback _ rest Hname) as Hskip.
  simpl in Hname. apply andb_true_iff in Hname as [Hc _].
  rewrite string_app_cons in *. unfold strip_callback. by rewrite Hc, Hskip.
Qed.

Lemma strip_closing_paren (s : string) : strip_closing (s ++ ")") = s.
Proof.
  induction s as [|c s IH]; [done |].
  rewrite string_app_cons. cbn [strip_closing]. rewrite IH.
  destruct s; reflexivity.
Qed.

Lemma string_snoc_inj (a b : string) x y :
  a ++ String x "" = b ++ String y "" -> a = b /\ x = y.
Proof.
  revert b. induction a as [|c a IH]; intros [|d b] H.
  - by injection H.
  - rewrite string_app_cons in H. injection H as _ H. by destruct b.
  - rewrite string_app_cons in H. injection H as _ H. by destruct a.
  - rewrite !string_app_cons in H. injection H as -> H.
    destruct (IH b H) as [-> ->]. done.
Qed.

Lemma strip_closing_other (s : string) :
  (forall t, s <> t ++ ")") -> strip_closing s = s.
Proof.
  induction s as [|c s IH]; intros Hend; [done |].
  cbn [strip_closing]. destruct s as [|c' s].
  - destruct (Ascii.eqb_spec c ")") as [-> | Hc]; [| done].
    by destruct (Hend "").
  - rewrite IH; [done |]. intros t Ht. apply (Hend (String c t)).
    by rewrite string_app_cons, <- Ht.
Qed.

(** X1.  The envelope.  For a callback name of one or more word characters,
    [jsonp2Object] hands [JSON.parse] exactly the text between
    [name(] and the last [)], whatever that text is. *)
Theorem jsonp2Object_envelope {A} (JSON_parse : string -> A) (name payload : string) :
  name <> "" -> string_forall is_word name = true ->
  jsonp2Object JSON_parse (name ++ "(" ++ payload ++ ")") = JSON_parse payload.
Proof.
  intros Hne Hname. unfold jsonp2Object.
  change ("(" ++ payload ++ ")") with (String "(" (payload ++ ")")).
  by rewrite strip_callback_name, strip_closing_paren.
Qed.

Lemma jsonp2Object_envelope_witness :
  "cb_1" <> ""
  /\ string_forall is_word "cb_1" = true
  /\ jsonp2Object (fun s => s) ("cb_1" ++ "(" ++ "{}" ++ ")") = "{}".
Proof.
  split; [discriminate |]. split; [reflexivity |].
  apply (jsonp2Object_envelope (fun s => s) "cb_1" "{}"); [discriminate | reflexivity].
Defined.

(** X2.  Only a parenthesis at the very end goes.  After the envelope's [)] a
    semicolon keeps the parenthesis in place: [JSON.parse] is handed
    the payload followed by [);]. *)
Theorem jsonp2Object_trailing_semicolon {A} (JSON_parse : string -> A)
    (name payload : string) :
  name <> "" -> string_forall is_word name = true ->
  jsonp2Object JSON_parse (name ++ "(" ++ payload ++ ");")
  = JSON_parse (payload ++ ");").
Proof.
  intros Hne Hname. unfold jsonp2Object.
  change ("(" ++ payload ++ ");") with (String "(" (payload ++ ");")).
  rewrite strip_callback_name by done.
  rewrite strip_closing_other; [done |].
  intros t Ht.
  change (payload ++ ");") with (payload ++ String ")" (String ";" "")) in Ht.
  change (String ")" (String ";" "")) with (")" ++ ";") in Ht.
  rewrite <- string_app_assoc in Ht.
  by destruct (string_snoc_inj _ _ _ _ Ht).
Qed.

Lemma jsonp2Object_trailing_semicolon_witness :
  "cb" <> ""
  /\ string_forall is_word "cb" = true
  /\ jsonp2Object (fun s => s) ("cb" ++ "(" ++ "[1]" ++ ");") = "[1]" ++ ");".
Proof.
  split; [discriminate |]. split; [reflexivity |].
  apply (jsonp2Object_trailing_semicolon (fun s => s) "cb" "[1]");
    [discriminate | reflexivity].
Defined.

(** X3.  No envelope.  A text that starts with no word character and ends
    with no closing parenthesis, a bare JSON object or array for one,
    reaches [JSON.parse] as it is. *)
Theorem jsonp2Object_bare {A} (JSON_parse : string -> A) (c : ascii) (rest : string) :
  is_word c = false ->
  (forall t, String c rest <> t ++ ")") ->
  jsonp2Object JSON_parse (String c rest) = JSON_parse (String c rest).
Proof.
  intros Hc Hend. unfold jsonp2Object.
  assert (strip_callback (String c rest) = String c rest) as ->
    by (unfold strip_callback; by rewrite Hc).
  by rewrite strip_closing_other.
Qed.

Lemma brackets_open (t : string) : "[]" <> t ++ ")".
Proof. destruct t as [|a [|b [|? ?]]]; discriminate. Qed.

Lemma jsonp2Object_bare_witness :
  is_word "[" = false
  /\ (forall t, "[]" <> t ++ ")")
  /\ jsonp2Object (fun s => s) "[]" = "[]".
Proof.
  split; [reflexivity |]. split; [exact brackets_open |].
  apply (jsonp2Object_bare (fun s => s) "[" "]"); [reflexivity | exact brackets_open].
Defined.

End JsonpFacts.

(* ================================================================== *)
(** * Properties of getPageNum and getUnixTime *)
(* ================================================================== *)

Module PagingFacts.
Import Js Paging.

Local Open Scope Q_scope.

Lemma div_nonzero (x y : Q) : ~ y == 0 -> div (Num x) (Num y) = Some (Num (Qred (x / y))).
Proof.
  intros Hy. unfold div.
  destruct (Qeq_bool y 0) eqn:E; [| done].
  apply Qeq_bool_eq in E. contradiction.
Qed.

(** On exact numbers, with [n > 0] items to a page, the page number
    [p] of item [m] has [(p - 1) * n < m <= p * n]. *)
Lemma getPageNum_exact (n m : Q) :
  0 < n ->
  exists p : Z,
    getPageNum (Num n) (Num m) = Some (of_Z p)
    /\ inject_Z (p - 1) * n < m /\ m <= inject_Z p * n.
Proof.
  intros Hn.
  assert (Hn0 : ~ n == 0) by (intros E; rewrite E in Hn; by apply Qlt_irrefl in Hn).
  exists (Qceiling (m / n)). unfold getPageNum. rewrite (div_nonzero m n Hn0).
  cbn [option_map Math_ceil].
  split.
  - do 2 f_equal. apply Qceiling_comp, Qred_correct.
  - assert (E : m / n * n == m) by (field; exact Hn0).
    split.
    + eapply Qlt_le_trans; [| rewrite <- E; apply Qle_refl].
      apply (proj2 (Qmult_lt_r _ _ _ Hn)), Qceiling_lt.
    + eapply Qle_trans; [rewrite <- E; apply Qle_refl |].
      apply (proj2 (Qmult_le_r _ _ _ Hn)), Qle_ceiling.
Qed.

Local Close Scope Q_scope.
Local Open Scope Z_scope.

(** X4.  The page of an item.  For safe integers, with [n > 0] items to
    a page, the page number [p] of item [m] is the integer with
    [(p - 1) * n < m <= p * n].  For such [n] and [m] the source's
    quotient, a double, is within [1 / n] of the exact one and on the
    same side of every integer, so that [Math.ceil] gives the same
    page; beyond them it does not
    ([getPageNum(3, 13510798882111492)]), nor for fractions. *)
Theorem getPageNum_page (n m : Z) :
  0 < n -> Double.safe_integer n -> Double.safe_integer m ->
  exists p : Z,
    getPageNum (of_Z n) (of_Z m) = Some (of_Z p)
    /\ (p - 1) * n < m <= p * n.
Proof.
  intros Hn _ _.
  destruct (getPageNum_exact (inject_Z n) (inject_Z m)) as (p & Hp & Hlt & Hle).
  { change 0%Q with (inject_Z 0). by rewrite <- Zlt_Qlt. }
  exists p. split; [exact Hp |].
  rewrite <- inject_Z_mult in Hlt, Hle.
  rewrite <- Zlt_Qlt in Hlt. rewrite <- Zle_Qle in Hle. lia.
Qed.

Lemma getPageNum_page_witness :
  0 < 10
  /\ Double.safe_integer 10
  /\ Double.safe_integer 21
  /\ exists p : Z,
      getPageNum (of_Z 10) (of_Z 21) = Some (of_Z p)
      /\ (p - 1) * 10 < 21 <= p * 10.
Proof.
  split; [lia |]. split; [reflexivity |]. split; [reflexivity |].
  apply (getPageNum_page 10 21); [lia | reflexivity | reflexivity].
Defined.

(** X25.  Whole seconds.  [getUnixTime] returns the integer [s] with
    [1000 * s <= now < 1000 * (s + 1)], the seconds elapsed, rounded
    down also before the epoch. *)
Theorem getUnixTime_seconds (now : Z) :
  exists s : Z,
    getUnixTime now = Some (of_Z s) /\ 1000 * s <= now < 1000 * (s + 1).
Proof.
  exists (now / 1000). split.
  - unfold getUnixTime, of_Z. rewrite div_nonzero by done.
    cbn [option_map Math_floor]. do 2 f_equal.
    rewrite (Qfloor_comp _ (inject_Z now / inject_Z 1000)) by apply Qred_correct.
    change (inject_Z now / inject_Z 1000)%Q with (inject_Z now * (1 # 1000))%Q.
    unfold Qmult, inject_Z. cbn [Qnum Qden]. unfold Qfloor.
    by rewrite Z.mul_1_r.
  - pose proof (Z.mod_pos_bound now 1000 ltac:(lia)).
    pose proof (Z.div_mod now 1000 ltac:(lia)). lia.
Qed.

End PagingFacts.

(* ================================================================== *)
(** * Properties of getBuvid *)
(* ================================================================== *)

Module BuvidFacts.
Import Js Uuid Rand Buvid RandFacts.

Local Open Scope string_scope.
Local Open Scope nat_scope.

(** A byte prints, in upper case, as two of [0-9A-F]. *)
Lemma hex_of_byte_upper (b : Byte.byte) :
  exists c d, toUpperCase (hex_of_byte (Byte.to_N b)) = String c (String d "")
              /\ upper_hex c = true /\ upper_hex d = true.
Proof. destruct b; vm_compute; eauto. Qed.

Lemma toUpperCase_app (a b : string) :
  toUpperCase (a ++ b) = toUpperCase a ++ toUpperCase b.
Proof.
  induction a as [|x a IH]; [done |].
  rewrite string_app_cons. simpl. by rewrite IH.
Qed.

(** [n] bytes are read and printed: [2 * n] characters of [0-9A-F]. *)
Lemma crypto_randomBytes_hex rb : forall n i,
  exists bytes,
    crypto_randomBytes rb n i = (bytes, i + n)
    /\ String.length (toUpperCase (Buffer_toString_hex bytes)) = 2 * n
    /\ string_forall upper_hex (toUpperCase (Buffer_toString_hex bytes)) = true.
Proof.
  induction n as [|n IH]; intros i.
  - exists []. by rewrite Nat.add_0_r.
  - destruct (IH (S i)) as (bytes & Hrun & Hlen & Hall).
    exists (Byte.to_N (rb i) :: bytes). split.
    { cbn [crypto_randomBytes]. unfold Uuid.bind, crypto_randomBytes_1_0.
      rewrite Hrun. unfold Uuid.ret. f_equal. lia. }
    destruct (hex_of_byte_upper (rb i)) as (c & d & Hcd & Hc & Hd).
    cbn [Buffer_toString_hex]. rewrite toUpperCase_app, Hcd.
    rewrite !string_app_cons. cbn [String.length string_forall].
    change ("" ++ ?x) with x.
    split; [simpl; rewrite Hlen; lia |].
    by rewrite Hc, Hd, Hall.
Qed.

(** X26.  The shape of a buvid.  Whatever bytes the strong source hands
    out, [getBuvid] returns its prefix followed by 32 characters of
    [0-9A-F], and reads 16 bytes; the prefix is [XY] when none is
    given. *)
Theorem getBuvid_shape (randomBytes : nat -> Byte.byte) (prefix : value) (i : nat) :
  forall text,
    ToString (if is_undefined prefix then VStr "XY" else prefix) = Some text ->
    exists body,
      getBuvid randomBytes prefix i = (Some (text ++ body), i + 16)
      /\ String.length body = 32
      /\ string_forall upper_hex body = true.
Proof.
  intros text Htext.
  destruct (crypto_randomBytes_hex randomBytes 16 i) as (bytes & Hrun & Hlen & Hall).
  exists (toUpperCase (Buffer_toString_hex bytes)).
  split; [| done].
  unfold getBuvid, Uuid.bind. rewrite Hrun. unfold Uuid.ret. by rewrite Htext.
Qed.

Lemma getBuvid_shape_witness :
  ToString (if is_undefined VUndefined then VStr "XY" else VUndefined) = Some "XY"
  /\ exists body,
      getBuvid (fun _ => Byte.x2a) VUndefined 0 = (Some ("XY" ++ body), 0 + 16)
      /\ String.length body = 32
      /\ string_forall upper_hex body = true.
Proof.
  split; [reflexivity |].
  apply (getBuvid_shape (fun _ => Byte.x2a) VUndefined 0 "XY"). reflexivity.
Defined.

End BuvidFacts.

(* ================================================================== *)
(** * Properties of pushIfNotExist, addIfNotExist, isTodayInTimeArr
      and arr2numArr *)
(* ================================================================== *)

Module ArraysFacts.
Import Js Obj Arrays JsFacts ObjFacts.

Local Open Scope nat_scope.

(** ** The equality of [includes] *)

Lemma Qeq_bool_refl (x : Q) : Qeq_bool x x = true.
Proof. apply Qeq_eq_bool, Qeq_refl. Qed.

Lemma Qeq_bool_sym (x y : Q) : Qeq_bool x y = Qeq_bool y x.
Proof.
  destruct (Qeq_bool x y) eqn:E.
  - symmetry. apply Qeq_eq_bool. symmetry. by apply Qeq_bool_eq.
  - destruct (Qeq_bool y x) eqn:E'; [| done].
    apply Qeq_bool_eq in E'. symmetry in E'. apply Qeq_eq_bool in E'. congruence.
Qed.

Lemma SameValueZero_refl (v : value) : SameValueZero v v = true.
Proof.
  destruct v as [| | b | [q|] | s | l]; simpl; try done.
  - by destruct b.
  - apply Qeq_bool_refl.
  - apply String.eqb_refl.
  - apply Pos.eqb_refl.
Qed.

Lemma SameValueZero_sym (a b : value) : SameValueZero a b = SameValueZero b a.
Proof.
  destruct a as [| | x | [x|] | x | x], b as [| | y | [y|] | y | y]; simpl; try done.
  - by destruct x, y.
  - apply Qeq_bool_sym.
  - apply String.eqb_sym.
  - apply Pos.eqb_sym.
Qed.

Lemma existsb_lookup {A} (p : A -> bool) (l : list A) :
  existsb p l = true <-> exists i x, l !! i = Some x /\ p x = true.
Proof.
  rewrite existsb_exists. split.
  - intros (x & Hin & Hp). apply list_elem_of_In, list_elem_of_lookup in Hin as (i & Hi). eauto.
  - intros (i & x & Hi & Hp). exists x. split; [| done].
    apply list_elem_of_In, list_elem_of_lookup. eauto.
Qed.

(** ** Steps on arrays *)

Lemma elements_ref (h : heap) l items :
  h !! l = Some (OArr items) -> elements (VRef l) h = Returns items h.
Proof.
  intros H. unfold elements. by rewrite (bind_returns _ _ _ _ _ (deref_ref h l _ H)).
Qed.

Lemma Array_includes_ref (h : heap) l items item :
  h !! l = Some (OArr items) ->
  Array_includes (VRef l) item h = Returns (existsb (SameValueZero item) items) h.
Proof.
  intros H. unfold Array_includes.
  by rewrite (bind_returns _ _ _ _ _ (elements_ref h l _ H)).
Qed.

Lemma Array_push_ref (h : heap) l items item :
  h !! l = Some (OArr items) ->
  Array_push (VRef l) item h = Returns tt (<[l := OArr (items ++ [item])]> h).
Proof.
  intros H. unfold Array_push.
  by rewrite (bind_returns _ _ _ _ _ (elements_ref h l _ H)).
Qed.

Lemma pushIfNotExist_ref (h : heap) l items item :
  h !! l = Some (OArr items) ->
  pushIfNotExist (VRef l) item h
  = Returns tt (<[l := OArr (if existsb (SameValueZero item) items
                             then items else items ++ [item])]> h).
Proof.
  intros H. unfold pushIfNotExist.
  rewrite (bind_returns _ _ _ _ _ (Array_includes_ref h l _ item H)).
  destruct (existsb (SameValueZero item) items); cbn [negb].
  - unfold ret. by rewrite insert_id.
  - by apply Array_push_ref.
Qed.

Lemma Array_map_ref (f : value -> M value) (h h' : heap) l items items' :
  h !! l = Some (OArr items) ->
  mapM f items h = Returns items' h' ->
  Array_map f (VRef l) h
  = Returns (VRef (fresh (dom h'))) (<[fresh (dom h') := OArr items']> h').
Proof.
  intros H Hmap. unfold Array_map.
  rewrite (bind_returns _ _ _ _ _ (elements_ref h l _ H)).
  by rewrite (bind_returns _ _ _ _ _ Hmap).
Qed.

Lemma Array_filter_ref (f : value -> bool) (h : heap) l items :
  h !! l = Some (OArr items) ->
  Array_filter f (VRef l) h
  = Returns (VRef (fresh (dom h))) (<[fresh (dom h) := OArr (List.filter f items)]> h).
Proof.
  intros H. unfold Array_filter.
  by rewrite (bind_returns _ _ _ _ _ (elements_ref h l _ H)).
Qed.

(** ** pushIfNotExist *)

(** X11.  After [pushIfNotExist] the array includes the item.  The array
    is updated in place; its old elements stay where they were, at most
    one element is added, last, and no other container changes.  An
    item is found by the equality of [includes], under which [NaN] is
    equal to itself. *)
Theorem pushIfNotExist_includes (h : heap) l items item :
  h !! l = Some (OArr items) ->
  exists items',
    pushIfNotExist (VRef l) item h = Returns tt (<[l := OArr items']> h)
    /\ existsb (SameValueZero item) items' = true
    /\ items `prefix_of` items'
    /\ length items' <= S (length items)
    /\ (existsb (SameValueZero item) items = true -> items' = items).
Proof.
  intros H. eexists. split; [by apply pushIfNotExist_ref |].
  destruct (existsb (SameValueZero item) items) eqn:E.
  - repeat split; try done. lia.
  - split; [| split; [| split]].
    + rewrite existsb_app. simpl. rewrite SameValueZero_refl. by rewrite orb_true_r.
    + by apply prefix_app_r.
    + rewrite length_app. simpl. lia.
    + done.
Qed.

Lemma pushIfNotExist_includes_witness :
  two_arrays !! 2%positive = Some (OArr [VNum (of_Z 3)])
  /\ exists items',
    pushIfNotExist (VRef 2%positive) (VNum (of_Z 3)) two_arrays
    = Returns tt (<[2%positive := OArr items']> two_arrays)
    /\ existsb (SameValueZero (VNum (of_Z 3))) items' = true
    /\ [VNum (of_Z 3)] `prefix_of` items'
    /\ length items' <= S (length [VNum (of_Z 3)])
    /\ (existsb (SameValueZero (VNum (of_Z 3))) [VNum (of_Z 3)] = true ->
        items' = [VNum (of_Z 3)]).
Proof.
  split; [reflexivity |].
  apply (pushIfNotExist_includes two_arrays 2%positive [VNum (of_Z 3)] (VNum (of_Z 3))).
  reflexivity.
Defined.

(** X12.  A second [pushIfNotExist] of the same item, right after the
    first, changes nothing. *)
Theorem pushIfNotExist_twice (h : heap) l items item :
  h !! l = Some (OArr items) ->
  exists h',
    pushIfNotExist (VRef l) item h = Returns tt h'
    /\ pushIfNotExist (VRef l) item h' = Returns tt h'.
Proof.
  intros H. eexists. split; [by apply pushIfNotExist_ref |].
  rewrite (pushIfNotExist_ref _ l _ item (lookup_insert_eq _ _ _)).
  rewrite insert_insert_eq.
  destruct (existsb (SameValueZero item) items) eqn:E.
  - by rewrite E.
  - rewrite existsb_app. simpl. rewrite SameValueZero_refl. by rewrite orb_true_r.
Qed.

Lemma pushIfNotExist_twice_witness :
  two_arrays !! 1%positive = Some (OArr [VNum (of_Z 1); VNum (of_Z 2)])
  /\ exists h',
    pushIfNotExist (VRef 1%positive) (VStr "x") two_arrays = Returns tt h'
    /\ pushIfNotExist (VRef 1%positive) (VStr "x") h' = Returns tt h'.
Proof.
  split; [reflexivity |].
  apply (pushIfNotExist_twice two_arrays 1%positive
           [VNum (of_Z 1); VNum (of_Z 2)] (VStr "x")).
  reflexivity.
Defined.

(** ** addIfNotExist *)

(** X27.  [addIfNotExist] keeps an array free of duplicates: if no two
    elements were equal to [includes], no two are afterwards. *)
Theorem addIfNotExist_duplicate_free (h : heap) l items item :
  h !! l = Some (OArr items) ->
  duplicate_free items ->
  exists items',
    addIfNotExist (VRef l) item h = Returns tt (<[l := OArr items']> h)
    /\ duplicate_free items'.
Proof.
  intros H Hfree. eexists. split; [by apply pushIfNotExist_ref |].
  destruct (existsb (SameValueZero item) items) eqn:E; [done |].
  assert (Hnew : forall i x, items !! i = Some x -> SameValueZero item x = false).
  { intros i x Hi. destruct (SameValueZero item x) eqn:Ex; [| done].
    assert (existsb (SameValueZero item) items = true) by (apply existsb_lookup; eauto).
    congruence. }
  intros i j x y Hi Hj Hxy.
  apply lookup_app_Some in Hi as [Hi | [Hli Hi]];
    apply lookup_app_Some in Hj as [Hj | [Hlj Hj]].
  - by apply (Hfree i j x y).
  - apply list_lookup_singleton_Some in Hj as [Hj <-].
    rewrite SameValueZero_sym, (Hnew i x Hi) in Hxy. done.
  - apply list_lookup_singleton_Some in Hi as [Hi <-].
    rewrite (Hnew j y Hj) in Hxy. done.
  - apply list_lookup_singleton_Some in Hi as [Hi _].
    apply list_lookup_singleton_Some in Hj as [Hj _]. lia.
Qed.

Lemma two_arrays_duplicate_free : duplicate_free [VNum (of_Z 1); VNum (of_Z 2)].
Proof.
  intros [|[|i]] [|[|j]] x y Hi Hj Hxy; simplify_eq/=; try done.
Qed.

Lemma addIfNotExist_duplicate_free_witness :
  two_arrays !! 1%positive = Some (OArr [VNum (of_Z 1); VNum (of_Z 2)])
  /\ duplicate_free [VNum (of_Z 1); VNum (of_Z 2)]
  /\ exists items',
    addIfNotExist (VRef 1%positive) (VNum (of_Z 2)) two_arrays
    = Returns tt (<[1%positive := OArr items']> two_arrays)
    /\ duplicate_free items'.
Proof.
  split; [reflexivity |]. split; [exact two_arrays_duplicate_free |].
  apply (addIfNotExist_duplicate_free two_arrays 1%positive
           [VNum (of_Z 1); VNum (of_Z 2)] (VNum (of_Z 2)));
    [reflexivity | exact two_arrays_duplicate_free].
Defined.

(** ** isTodayInTimeArr *)

Lemma Qeq_bool_inject_Z (a b : Z) : Qeq_bool (inject_Z a) (inject_Z b) = Z.eqb a b.
Proof.
  unfold Qeq_bool, inject_Z. cbn [Qnum Qden]. by rewrite !Z.mul_1_r.
Qed.

Lemma existsb_days (today : Z) (days : list Z) :
  existsb (SameValueZero (VNum (of_Z today))) ((fun d => VNum (of_Z d)) <$> days)
  = bool_decide (today ∈ days).
Proof.
  induction days as [|d days IH]; [done |].
  cbn [fmap list_fmap existsb SameValueZero of_Z]. rewrite IH, Qeq_bool_inject_Z.
  destruct (Z.eqb_spec today d) as [-> | Hne]; simpl.
  - symmetry. apply bool_decide_eq_true. by left.
  - apply bool_decide_ext. rewrite elem_of_cons. intuition.
Qed.

(** X24.  The day test.  For an array of days, [isTodayInTimeArr]
    answers whether the array is empty or holds today's day of the
    month, and leaves the heap as it is; for [undefined], [null] and
    the other falsy values it answers [true]. *)
Theorem isTodayInTimeArr_empty_or_member (today : Z) (h : heap) l (days : list Z) :
  h !! l = Some (OArr ((fun d => VNum (of_Z d)) <$> days)) ->
  isTodayInTimeArr today (VRef l) h
  = Returns (bool_decide (days = [] \/ today ∈ days)) h
  /\ forall timeArr,
      ToBoolean timeArr = false -> isTodayInTimeArr today timeArr h = Returns true h.
Proof.
  intros Hl. split.
  - unfold isTodayInTimeArr. cbn [ToBoolean negb].
    rewrite (bind_returns _ _ _ _ _ (elements_ref h l _ Hl)).
    destruct days as [|d days]; [done |].
    rewrite length_fmap.
    assert (number_truthy (of_Z (Z.of_nat (length (d :: days)))) = true) as ->.
    { unfold number_truthy, of_Z.
      change 0%Q with (inject_Z 0). rewrite Qeq_bool_inject_Z. done. }
    cbn [negb]. rewrite (Array_includes_ref h l _ _ Hl), existsb_days.
    f_equal. apply bool_decide_ext. intuition discriminate.
  - intros timeArr Hf. unfold isTodayInTimeArr. by rewrite Hf.
Qed.

Lemma isTodayInTimeArr_empty_or_member_witness :
  two_arrays !! 2%positive = Some (OArr ((fun d => VNum (of_Z d)) <$> [3%Z]))
  /\ isTodayInTimeArr 3 (VRef 2%positive) two_arrays
     = Returns (bool_decide ([3%Z] = [] \/ 3%Z ∈ [3%Z])) two_arrays
  /\ forall timeArr,
      ToBoolean timeArr = false ->
      isTodayInTimeArr 3 timeArr two_arrays = Returns true two_arrays.
Proof.
  split; [reflexivity |].
  apply (isTodayInTimeArr_empty_or_member 3 two_arrays 2%positive [3%Z]).
  reflexivity.
Defined.

(** ** arr2numArr *)

Lemma Number_call_converted StringToNumber (v : value) (h : heap) :
  isObject v = false ->
  Number_call StringToNumber v h = Returns (converted StringToNumber v) h.
Proof. by destruct v. Qed.

Lemma mapM_Number_call StringToNumber (items : list value) (h : heap) :
  Forall (fun v => isObject v = false) items ->
  mapM (fun str => Number_call StringToNumber str) items h
  = Returns (converted StringToNumber <$> items) h.
Proof.
  induction 1 as [|v items Hv _ IH]; [done |].
  cbn [mapM]. rewrite (bind_returns _ _ _ _ _ (Number_call_converted StringToNumber v h Hv)).
  by rewrite (bind_returns _ _ _ _ _ IH).
Qed.

(** What the filter keeps is a positive integer. *)
Lemma positive_integer_spec (v : value) :
  positive_integer v = true ->
  exists n z, v = VNum n /\ to_integer n = Some z /\ (0 < z)%Z.
Proof.
  destruct v as [| | | [x|] | |]; try done. cbn [positive_integer].
  intros [Hgt Hrem]%andb_true_iff.
  exists (Num x), (Qtrunc x). split; [done |].
  assert (Hx : (x == inject_Z (Qtrunc x))%Q).
  { unfold rem1, strict_equal, of_Z in Hrem. apply Qeq_bool_eq in Hrem.
    rewrite Qred_correct in Hrem.
    transitivity (x - inject_Z (Qtrunc x) + inject_Z (Qtrunc x))%Q; [ring |].
    rewrite Hrem. apply Qplus_0_l. }
  split.
  - unfold to_integer. by rewrite (Qred_inject_Z_eq _ _ Hx).
  - unfold gt, of_Z in Hgt. apply negb_true_iff in Hgt.
    destruct (Qlt_le_dec 0 x) as [Hpos | Hle].
    + rewrite Hx in Hpos. change 0%Q with (inject_Z 0) in Hpos.
      by rewrite <- Zlt_Qlt in Hpos.
    + apply Qle_bool_iff in Hle. change (inject_Z 0) with 0%Q in Hgt. congruence.
Qed.

(** The run of [arr2numArr] on an array of primitives: two arrays are
    made, the conversions and then what the filter keeps of them. *)
Lemma arr2numArr_run StringToNumber (h : heap) l items :
  h !! l = Some (OArr items) ->
  Forall (fun v => isObject v = false) items ->
  let nums := converted StringToNumber <$> items in
  let h1 := <[fresh (dom h) := OArr nums]> h in
  arr2numArr StringToNumber (VRef l) h
  = Returns (VRef (fresh (dom h1)))
            (<[fresh (dom h1) := OArr (List.filter positive_integer nums)]> h1).
Proof.
  intros Hl Hprim nums h1.
  unfold arr2numArr. cbn [ToBoolean negb].
  rewrite (bind_returns _ _ _ _ _
             (Array_map_ref _ h h l items _ Hl (mapM_Number_call StringToNumber items h Hprim))).
  by apply Array_filter_ref, lookup_insert_eq.
Qed.

Lemma filter_positive_integer (items : list value) :
  Forall (fun v => exists n z, v = VNum n /\ to_integer n = Some z /\ (0 < z)%Z)
         (List.filter positive_integer items).
Proof.
  apply Forall_forall. intros v Hv.
  apply list_elem_of_In, filter_In in Hv as [_ Hv].
  by apply positive_integer_spec.
Qed.

(** X22.  The numbers of an array.  For an array of primitives (strings
    or numbers, say) [arr2numArr] returns a new array and leaves the
    input as it was.  The new array holds, in their order, the
    conversions of the elements that are positive integers, and nothing
    else.  A falsy argument, [undefined] or [null], is returned as it
    is. *)
Theorem arr2numArr_positive_integers StringToNumber (h : heap) l items :
  h !! l = Some (OArr items) ->
  Forall (fun v => isObject v = false) items ->
  (exists l' kept h',
      arr2numArr StringToNumber (VRef l) h = Returns (VRef l') h'
      /\ h ⊆ h' /\ h !! l' = None
      /\ h' !! l' = Some (OArr kept)
      /\ kept = List.filter positive_integer (converted StringToNumber <$> items)
      /\ Forall (fun v => exists n z, v = VNum n /\ to_integer n = Some z /\ (0 < z)%Z)
                kept)
  /\ forall strArr,
      ToBoolean strArr = false -> arr2numArr StringToNumber strArr h = Returns strArr h.
Proof.
  intros Hl Hprim. split.
  - pose proof (arr2numArr_run StringToNumber h l items Hl Hprim) as Hrun.
    cbv zeta in Hrun.
    set (nums := converted StringToNumber <$> items) in *.
    set (h1 := <[fresh (dom h) := OArr nums]> h) in *.
    assert (Hsub1 : h ⊆ h1) by apply alloc_extends.
    eexists _, _, _. split; [exact Hrun |].
    split; [etrans; [exact Hsub1 | apply alloc_extends] |].
    split; [eapply lookup_weaken_None; [apply fresh_unused | exact Hsub1] |].
    split; [apply lookup_insert_eq |]. split; [done |].
    apply filter_positive_integer.
  - intros strArr Hf. unfold arr2numArr. by rewrite Hf.
Qed.

Lemma two_arrays_primitives :
  Forall (fun v => isObject v = false) [VNum (of_Z 1); VNum (of_Z 2)].
Proof. by repeat constructor. Qed.

Lemma arr2numArr_positive_integers_witness :
  two_arrays !! 1%positive = Some (OArr [VNum (of_Z 1); VNum (of_Z 2)])
  /\ Forall (fun v => isObject v = false) [VNum (of_Z 1); VNum (of_Z 2)]
  /\ (exists l' kept h',
        arr2numArr (fun _ => NaN) (VRef 1%positive) two_arrays = Returns (VRef l') h'
        /\ two_arrays ⊆ h' /\ two_arrays !! l' = None
        /\ h' !! l' = Some (OArr kept)
        /\ kept = List.filter positive_integer
                    (converted (fun _ => NaN) <$> [VNum (of_Z 1); VNum (of_Z 2)])
        /\ Forall (fun v => exists n z, v = VNum n /\ to_integer n = Some z /\ (0 < z)%Z)
                  kept)
  /\ forall strArr,
      ToBoolean strArr = false ->
      arr2numArr (fun _ => NaN) strArr two_arrays = Returns strArr two_arrays.
Proof.
  split; [reflexivity |]. split; [exact two_arrays_primitives |].
  apply (arr2numArr_positive_integers (fun _ => NaN) two_arrays 1%positive
           [VNum (of_Z 1); VNum (of_Z 2)]);
    [reflexivity | exact two_arrays_primitives].
Defined.

Lemma filter_all {A} (p : A -> bool) (l : list A) :
  Forall (fun x => p x = true) l -> List.filter p l = l.
Proof. induction 1 as [|x l Hx _ IH]; simpl; [done | by rewrite Hx, IH]. Qed.

(** X23.  [arr2numArr] on its own result.  What [arr2numArr] returned for
    an array of primitives, it returns again, element for element, in
    another new array. *)
Theorem arr2numArr_again StringToNumber (h : heap) l items :
  h !! l = Some (OArr items) ->
  Forall (fun v => isObject v = false) items ->
  exists l1 h1 l2 h2 kept,
    arr2numArr StringToNumber (VRef l) h = Returns (VRef l1) h1
    /\ h1 !! l1 = Some (OArr kept)
    /\ arr2numArr StringToNumber (VRef l1) h1 = Returns (VRef l2) h2
    /\ l2 <> l1
    /\ h2 !! l2 = Some (OArr kept).
Proof.
  intros Hl Hprim.
  pose proof (arr2numArr_run StringToNumber h l items Hl Hprim) as Hrun. cbv zeta in Hrun.
  set (kept := List.filter positive_integer (converted StringToNumber <$> items)) in *.
  set (h0 := <[fresh (dom h) := OArr (converted StringToNumber <$> items)]> h) in *.
  set (l1 := fresh (dom h0)) in *.
  set (h1 := <[l1 := OArr kept]> h0) in *.
  assert (Hl1 : h1 !! l1 = Some (OArr kept)) by apply lookup_insert_eq.
  assert (Hkept : Forall (fun v => positive_integer v = true) kept).
  { apply Forall_forall. intros v Hv.
    by apply list_elem_of_In, filter_In in Hv as [_ Hv]. }
  assert (Hprim1 : Forall (fun v => isObject v = false) kept).
  { eapply Forall_impl; [exact Hkept |]. by intros []. }
  assert (Hconv : converted StringToNumber <$> kept = kept).
  { clear -Hkept. induction Hkept as [|v kept Hv _ IH]; [done |].
    cbn [fmap list_fmap]. rewrite IH. by destruct v as [| | | [] | |]. }
  pose proof (arr2numArr_run StringToNumber h1 l1 kept Hl1 Hprim1) as Hrun2. cbv zeta in Hrun2.
  rewrite Hconv, (filter_all _ _ Hkept) in Hrun2.
  set (h2 := <[fresh (dom h1) := OArr kept]> h1) in *.
  exists l1, h1, (fresh (dom h2)), (<[fresh (dom h2) := OArr kept]> h2), kept.
  split; [exact Hrun |]. split; [exact Hl1 |]. split; [exact Hrun2 |].
  split; [| apply lookup_insert_eq].
  intros Heq. pose proof (fresh_unused h2) as Hnone. rewrite Heq in Hnone.
  assert (h2 !! l1 = Some (OArr kept)) as Hsome
    by (eapply lookup_weaken; [exact Hl1 | apply alloc_extends]).
  congruence.
Qed.

Lemma arr2numArr_again_witness :
  two_arrays !! 2%positive = Some (OArr [VNum (of_Z 3)])
  /\ Forall (fun v => isObject v = false) [VNum (of_Z 3)]
  /\ exists l1 h1 l2 h2 kept,
    arr2numArr (fun _ => NaN) (VRef 2%positive) two_arrays = Returns (VRef l1) h1
    /\ h1 !! l1 = Some (OArr kept)
    /\ arr2numArr (fun _ => NaN) (VRef l1) h1 = Returns (VRef l2) h2
    /\ l2 <> l1
    /\ h2 !! l2 = Some (OArr kept).
Proof.
  split; [reflexivity |]. split; [by repeat constructor |].
  apply (arr2numArr_again (fun _ => NaN) two_arrays 2%positive [VNum (of_Z 3)]);
    [reflexivity | by repeat constructor].
Defined.

End ArraysFacts.

(* ================================================================== *)
(** * Properties of key-by-key copies: the shallow clone and mergeHeaders *)
(* ================================================================== *)

Module CopiesFacts.
Import Js Obj Copies ObjFacts.

Local Open Scope string_scope.
Local Open Scope nat_scope.

(** ** The keys of a mapping *)

Lemma elem_of_ordered_keys (k : string) (ks : list string) :
  k ∈ ordered_keys ks <-> k ∈ ks.
Proof.
  unfold ordered_keys.
  rewrite elem_of_app, merge_sort_Permutation, !list_elem_of_filter.
  destruct (decide (is_index k)); tauto.
Qed.

Lemma elem_of_own_keys (k : string) (props : list (string * value)) :
  k ∈ own_keys (OObj props) <-> is_Some (lookup_prop k props).
Proof.
  cbn [own_keys]. rewrite elem_of_ordered_keys.
  induction props as [|[k' v] props IH]; cbn [map fst lookup_prop].
  - split; [by intros ?%elem_of_nil | by intros ?%is_Some_None].
  - rewrite elem_of_cons, IH.
    destruct (String.eqb_spec k k') as [-> | Hne]; [split; [by eauto | by left] |].
    intuition congruence.
Qed.

Lemma get_own_lookup (k : string) (props : list (string * value)) v :
  lookup_prop k props = Some v -> get_own (OObj props) k = v.
Proof. intros H. unfold get_own. cbn [own_prop]. by rewrite H. Qed.

(** ** What a copy leaves *)

Lemma copy_props_snoc f o ks k acc :
  copy_props f o (ks ++ [k]) acc
  = set_prop (f k) (get_own o k) (copy_props f o ks acc).
Proof. unfold copy_props. by rewrite fold_left_app. Qed.

(** A key that no copied key maps to keeps its binding. *)
Lemma lookup_copy_props_other f o ks acc k' :
  (forall k, k ∈ ks -> f k <> k') ->
  lookup_prop k' (copy_props f o ks acc) = lookup_prop k' acc.
Proof.
  induction ks as [|k ks IH] using rev_ind; intros Hother; [done |].
  rewrite copy_props_snoc, lookup_set_prop_ne.
  - apply IH. intros k0 Hk0. apply Hother, elem_of_app. by left.
  - apply Hother, elem_of_app. right. by apply list_elem_of_singleton.
Qed.

(** A copied key is bound to the source's value, when the keys that map
    to the same key agree on it. *)
Lemma lookup_copy_props_at f o ks acc k :
  k ∈ ks ->
  (forall k', k' ∈ ks -> f k' = f k -> get_own o k' = get_own o k) ->
  lookup_prop (f k) (copy_props f o ks acc) = Some (get_own o k).
Proof.
  induction ks as [|k0 ks IH] using rev_ind; intros Hk Hagree;
    [by apply elem_of_nil in Hk |].
  rewrite copy_props_snoc.
  destruct (decide (f k0 = f k)) as [Heq | Hne].
  - rewrite Heq, lookup_set_prop_eq. f_equal.
    apply Hagree; [| done]. apply elem_of_app. right. by apply list_elem_of_singleton.
  - rewrite lookup_set_prop_ne by done.
    apply IH.
    + apply elem_of_app in Hk as [Hk | Hk]; [done |].
      apply list_elem_of_singleton in Hk. congruence.
    + intros k' Hk'. apply Hagree, elem_of_app. by left.
Qed.

(** Every binding of a copy was there before or comes from the source. *)
Lemma lookup_copy_props_inv f o ks acc k' v :
  lookup_prop k' (copy_props f o ks acc) = Some v ->
  lookup_prop k' acc = Some v \/ exists k, k ∈ ks /\ f k = k' /\ get_own o k = v.
Proof.
  induction ks as [|k0 ks IH] using rev_ind; [by left |].
  rewrite copy_props_snoc.
  destruct (decide (f k0 = k')) as [<- | Hne].
  - rewrite lookup_set_prop_eq. intros [= <-]. right. exists k0.
    split; [| done]. apply elem_of_app. right. by apply list_elem_of_singleton.
  - rewrite lookup_set_prop_ne by done. intros Hv.
    destruct (IH Hv) as [? | (k & Hk & ? & ?)]; [by left |].
    right. exists k. split; [| done]. apply elem_of_app. by left.
Qed.

(** [Object.assign] on properties: the source's binding where it has
    one, the target's otherwise. *)
Lemma lookup_assigned (source acc : list (string * value)) k :
  lookup_prop k (assigned source acc)
  = match lookup_prop k source with
    | Some v => Some v
    | None => lookup_prop k acc
    end.
Proof.
  unfold assigned. destruct (lookup_prop k source) as [v|] eqn:Hk.
  - rewrite (lookup_copy_props_at (fun key => key) (OObj source) _ acc k).
    + f_equal. by apply get_own_lookup.
    + apply elem_of_own_keys. by rewrite Hk.
    + by intros k' _ ->.
  - apply lookup_copy_props_other.
    intros k0 Hk0 ->. apply elem_of_own_keys in Hk0 as [? ?]. congruence.
Qed.

(** ** The run of a copy *)

Lemma reduce_copy (f : string -> string) s o r :
  s <> r ->
  forall ks acc (h : heap),
    h !! s = Some o -> h !! r = Some (OObj acc) ->
    reduce (fun result key =>
              bind (get (VRef s) key) (fun v =>
              bind (set result (f key) v) (fun _ => ret result)))
           ks (VRef r) h
    = Returns (VRef r) (<[r := OObj (copy_props f o ks acc)]> h).
Proof.
  intros Hsr. induction ks as [|k ks IH]; intros acc h Hs Hr.
  - cbn [reduce copy_props fold_left]. unfold ret. by rewrite insert_id.
  - cbn [reduce].
    assert (Hstep :
      bind (get (VRef s) k) (fun v =>
        bind (set (VRef r) (f k) v) (fun _ => ret (VRef r))) h
      = Returns (VRef r) (<[r := OObj (set_prop (f k) (get_own o k) acc)]> h)).
    { rewrite (bind_returns _ _ _ _ _ (get_ref h s o k Hs)).
      by rewrite (bind_returns _ _ _ _ _ (set_mapping h r acc (f k) _ Hr)). }
    rewrite (bind_returns _ _ _ _ _ Hstep).
    rewrite (IH (set_prop (f k) (get_own o k) acc)).
    + by rewrite insert_insert_eq.
    + by rewrite lookup_insert_ne.
    + apply lookup_insert_eq.
Qed.

Lemma Object_assign_run (h : heap) t s acc source :
  s <> t ->
  h !! t = Some (OObj acc) -> h !! s = Some (OObj source) ->
  Object_assign (VRef t) (VRef s) h
  = Returns (VRef t) (<[t := OObj (assigned source acc)]> h).
Proof.
  intros Hst Ht Hs. unfold Object_assign.
  rewrite (bind_returns _ _ _ _ _ (Object_keys_ref h s _ Hs)).
  by apply (reduce_copy (fun key => key) s (OObj source) t).
Qed.

(** ** The shallow clone of a mapping *)

(** X13.  The shallow clone of a mapping.  [cloneObject(object, false)]
    on a mapping without an own key [__proto__] returns a new mapping
    with the very bindings of [object]: every key is bound to the same
    value, a container among them to the same container, and no other
    container changes.  (An own [__proto__], as [JSON.parse] makes one,
    is not copied by the source: [Object.assign] writes it through the
    inherited setter.) *)
Theorem cloneObject_shallow_same_bindings fuel (h : heap) l props :
  h !! l = Some (OObj props) ->
  lookup_prop "__proto__" props = None ->
  exists l' props',
    cloneObject (S fuel) (VRef l) false h = Returns (VRef l') (<[l' := OObj props']> h)
    /\ h !! l' = None
    /\ forall k, lookup_prop k props' = lookup_prop k props.
Proof.
  intros Hl _. exists (fresh (dom h)), (assigned props []).
  split; [| split; [apply fresh_unused |]].
  - cbn [cloneObject isObject negb].
    rewrite (bind_returns _ _ _ _ _ (Array_isArray_ref h l _ Hl)). cbn [is_array].
    unfold bind at 1, alloc.
    assert (Hne : l <> fresh (dom h)).
    { intros E. pose proof (fresh_unused h) as Hnone. rewrite <- E in Hnone. congruence. }
    rewrite (Object_assign_run _ (fresh (dom h)) l [] props Hne).
    + by rewrite insert_insert_eq.
    + apply lookup_insert_eq.
    + by rewrite lookup_insert_ne.
  - intros k. rewrite lookup_assigned. by destruct (lookup_prop k props).
Qed.

Lemma cloneObject_shallow_same_bindings_witness :
  nested !! 1%positive = Some (OObj [("a", VRef 2%positive)])
  /\ lookup_prop "__proto__" [("a", VRef 2%positive)] = None
  /\ exists l' props',
      cloneObject 1 (VRef 1%positive) false nested
      = Returns (VRef l') (<[l' := OObj props']> nested)
      /\ nested !! l' = None
      /\ forall k, lookup_prop k props' = lookup_prop k [("a", VRef 2%positive)].
Proof.
  split; [reflexivity |]. split; [reflexivity |].
  apply (cloneObject_shallow_same_bindings 0 nested 1%positive [("a", VRef 2%positive)]);
    reflexivity.
Defined.

End CopiesFacts.

(* ================================================================== *)
(** * Properties of mergeHeaders *)
(* ================================================================== *)

Module HeadersFacts.
Import Js Obj Copies Headers ObjFacts CopiesFacts.

Local Open Scope string_scope.
Local Open Scope nat_scope.

Lemma lower_char_idempotent (c : ascii) : lower_char (lower_char c) = lower_char c.
Proof. destruct c as [[] [] [] [] [] [] [] []]; reflexivity. Qed.

Lemma toLowerCase_idempotent (s : string) :
  Js.toLowerCase (Js.toLowerCase s) = Js.toLowerCase s.
Proof.
  induction s as [|c s IH]; [done |].
  cbn [Js.toLowerCase]. by rewrite lower_char_idempotent, IH.
Qed.

(** ** The lowered headers *)

Lemma lookup_lowered_inv (props : list (string * value)) k v :
  lookup_prop k (lowered props) = Some v ->
  exists K, Js.toLowerCase K = k /\ lookup_prop K props = Some v.
Proof.
  intros Hk. apply lookup_copy_props_inv in Hk as [Hk | (K & HK & <- & Hv)]; [done |].
  exists K. split; [done |].
  apply elem_of_own_keys in HK as [v' Hv'].
  by rewrite (get_own_lookup _ _ _ Hv') in Hv; subst.
Qed.

Lemma lookup_lowered_at (props : list (string * value)) K v :
  case_distinct props ->
  lookup_prop K props = Some v ->
  lookup_prop (Js.toLowerCase K) (lowered props) = Some v.
Proof.
  intros Hdist HK. unfold lowered.
  rewrite (lookup_copy_props_at Js.toLowerCase (OObj props) _ [] K).
  - f_equal. by apply get_own_lookup.
  - apply elem_of_own_keys. by rewrite HK.
  - intros K' HK' Heq. apply elem_of_own_keys in HK'.
    by rewrite (Hdist K' K HK' (mk_is_Some _ _ HK) Heq).
Qed.

Lemma lookup_lowered_none (props : list (string * value)) k :
  (forall K, is_Some (lookup_prop K props) -> Js.toLowerCase K <> k) ->
  lookup_prop k (lowered props) = None.
Proof.
  intros Hnone. unfold lowered. rewrite lookup_copy_props_other; [done |].
  intros K HK. by apply Hnone, elem_of_own_keys.
Qed.

(** ** The run of mergeHeaders *)

Lemma toLowerCase_run (h : heap) l props :
  h !! l = Some (OObj props) ->
  Headers.toLowerCase (VRef l) h
  = Returns (VRef (fresh (dom h))) (<[fresh (dom h) := OObj (lowered props)]> h).
Proof.
  intros Hl. unfold Headers.toLowerCase.
  rewrite (bind_returns _ _ _ _ _ (Object_keys_ref h l _ Hl)).
  unfold bind at 1, alloc.
  assert (Hne : l <> fresh (dom h)).
  { intros E. pose proof (fresh_unused h) as Hnone. rewrite <- E in Hnone. congruence. }
  rewrite (reduce_copy Js.toLowerCase l (OObj props) (fresh (dom h)) Hne
             (own_keys (OObj props)) []).
  - by rewrite insert_insert_eq.
  - by rewrite lookup_insert_ne.
  - apply lookup_insert_eq.
Qed.

(** On two mappings: three containers are made, the result first, and
    the result ends with the lowered [headersToMerge] assigned over the
    lowered [headers]. *)
Lemma mergeHeaders_mappings (h : heap) a b pa pb :
  h !! a = Some (OObj pa) -> h !! b = Some (OObj pb) ->
  exists t h',
    mergeHeaders (VRef a) (VRef b) h = Returns (VRef t) h'
    /\ h !! t = None /\ h ⊆ h'
    /\ h' !! t = Some (OObj (assigned (lowered pb) (assigned (lowered pa) []))).
Proof.
  intros Ha Hb.
  set (t := fresh (dom h)). set (h1 := <[t := OObj []]> h).
  set (r1 := fresh (dom h1)). set (h2 := <[r1 := OObj (lowered pa)]> h1).
  set (r2 := fresh (dom h2)). set (h3 := <[r2 := OObj (lowered pb)]> h2).
  assert (Ht : h !! t = None) by apply fresh_unused.
  assert (Hr1 : h1 !! r1 = None) by apply fresh_unused.
  assert (Hr2 : h2 !! r2 = None) by apply fresh_unused.
  assert (Hsub1 : h ⊆ h1) by apply alloc_extends.
  assert (Hsub2 : h1 ⊆ h2) by apply alloc_extends.
  assert (Hsub3 : h2 ⊆ h3) by apply alloc_extends.
  assert (Ht1 : h1 !! t = Some (OObj [])) by apply lookup_insert_eq.
  assert (Hr12 : h2 !! r1 = Some (OObj (lowered pa))) by apply lookup_insert_eq.
  assert (Hr23 : h3 !! r2 = Some (OObj (lowered pb))) by apply lookup_insert_eq.
  assert (Hne1 : r1 <> t) by (intros E; rewrite E in Hr1; congruence).
  assert (Ht2 : h2 !! t = Some (OObj [])) by by eapply lookup_weaken.
  assert (Hne2 : r2 <> t) by (intros E; rewrite E in Hr2; congruence).
  assert (Ht3 : h3 !! t = Some (OObj [])) by by eapply lookup_weaken.
  assert (Hr13 : h3 !! r1 = Some (OObj (lowered pa))) by by eapply lookup_weaken.
  set (m1 := assigned (lowered pa) []).
  set (h4 := <[t := OObj m1]> h3).
  exists t, (<[t := OObj (assigned (lowered pb) m1)]> h3).
  split; [| split; [done | split; [| apply lookup_insert_eq]]].
  - unfold mergeHeaders. cbn [is_undefined].
    unfold bind at 1, ret at 1. unfold bind at 1, ret at 1.
    unfold bind at 1, alloc at 1. fold t h1.
    rewrite (bind_returns _ _ _ _ _
               (toLowerCase_run h1 a pa (lookup_weaken _ _ _ _ Ha Hsub1))).
    fold r1 h2.
    rewrite (bind_returns _ _ _ _ _
               (toLowerCase_run h2 b pb
                  (lookup_weaken _ _ _ _ Hb (transitivity Hsub1 Hsub2)))).
    fold r2 h3.
    rewrite (bind_returns _ _ _ _ _
               (Object_assign_run h3 t r1 [] (lowered pa) Hne1 Ht3 Hr13)).
    fold m1 h4.
    rewrite (Object_assign_run h4 t r2 m1 (lowered pb) Hne2).
    + unfold h4. by rewrite insert_insert_eq.
    + apply lookup_insert_eq.
    + unfold h4. by rewrite lookup_insert_ne.
  - apply insert_subseteq_r; [exact Ht |].
    etrans; [exact Hsub1 |]. by etrans.
Qed.

(** A default stands for an argument that is [undefined]: the call goes
    on as with a new empty mapping. *)
Lemma mergeHeaders_arguments (h : heap) x y pa pb :
  headers_of h x pa -> headers_of h y pb ->
  exists h0 a b,
    h ⊆ h0 /\ h0 !! a = Some (OObj pa) /\ h0 !! b = Some (OObj pb)
    /\ mergeHeaders x y h = mergeHeaders (VRef a) (VRef b) h0.
Proof.
  intros [[-> ->] | (a & -> & Ha)] [[-> ->] | (b & -> & Hb)].
  - set (a := fresh (dom h)). set (h0 := <[a := OObj []]> h).
    exists (<[fresh (dom h0) := OObj []]> h0), a, (fresh (dom h0)).
    split; [etrans; apply alloc_extends |].
    split; [eapply lookup_weaken; [apply lookup_insert_eq | apply alloc_extends] |].
    split; [apply lookup_insert_eq | reflexivity].
  - exists (<[fresh (dom h) := OObj []]> h), (fresh (dom h)), b.
    split; [apply alloc_extends |].
    split; [apply lookup_insert_eq |].
    split; [eapply lookup_weaken; [exact Hb | apply alloc_extends] | reflexivity].
  - exists (<[fresh (dom h) := OObj []]> h), a, (fresh (dom h)).
    split; [apply alloc_extends |].
    split; [eapply lookup_weaken; [exact Ha | apply alloc_extends] |].
    split; [apply lookup_insert_eq | reflexivity].
  - by exists h, a, b.
Qed.

Lemma mergeHeaders_run (h : heap) x y pa pb :
  headers_of h x pa -> headers_of h y pb ->
  exists t h',
    mergeHeaders x y h = Returns (VRef t) h'
    /\ h !! t = None /\ h ⊆ h'
    /\ h' !! t = Some (OObj (assigned (lowered pb) (assigned (lowered pa) []))).
Proof.
  intros Hx Hy.
  destruct (mergeHeaders_arguments h x y pa pb Hx Hy) as (h0 & a & b & Hsub & Ha & Hb & ->).
  destruct (mergeHeaders_mappings h0 a b pa pb Ha Hb) as (t & h' & Hrun & Ht & Hsub' & Hres).
  exists t, h'. split; [done |].
  split; [by eapply lookup_weaken_None |]. split; [by etrans | done].
Qed.

Lemma lookup_merged (pa pb : list (string * value)) k :
  lookup_prop k (assigned (lowered pb) (assigned (lowered pa) []))
  = match lookup_prop k (lowered pb) with
    | Some v => Some v
    | None => lookup_prop k (lowered pa)
    end.
Proof.
  rewrite !lookup_assigned. cbn [lookup_prop].
  by destruct (lookup_prop k (lowered pb)), (lookup_prop k (lowered pa)).
Qed.

(** ** The merged headers *)

(** X19.  Lower-case keys.  For arguments that are mappings or absent,
    with keys of ASCII text of which none lowers to [__proto__],
    [mergeHeaders] returns a new mapping and changes no container of
    the caller.  Every key of the result is in lower case, and its
    value is that of a key of one of the arguments that lowers to it. *)
Theorem mergeHeaders_lower_case_keys (h : heap) headers headersToMerge pa pb :
  headers_of h headers pa -> headers_of h headersToMerge pb ->
  header_keys pa -> header_keys pb ->
  exists t merged h',
    mergeHeaders headers headersToMerge h = Returns (VRef t) h'
    /\ h !! t = None /\ h ⊆ h'
    /\ h' !! t = Some (OObj merged)
    /\ forall k v,
         lookup_prop k merged = Some v ->
         Js.toLowerCase k = k
         /\ exists K, Js.toLowerCase K = k
                      /\ (lookup_prop K pb = Some v \/ lookup_prop K pa = Some v).
Proof.
  intros Hx Hy _ _.
  destruct (mergeHeaders_run h _ _ pa pb Hx Hy) as (t & h' & Hrun & Ht & Hsub & Hres).
  exists t, (assigned (lowered pb) (assigned (lowered pa) [])), h'.
  do 4 (split; [done |]).
  intros k v. rewrite lookup_merged.
  assert (Hlow : forall props, lookup_prop k (lowered props) = Some v ->
            Js.toLowerCase k = k
            /\ exists K, Js.toLowerCase K = k /\ lookup_prop K props = Some v).
  { intros props (K & <- & HK)%lookup_lowered_inv.
    split; [apply toLowerCase_idempotent | eauto]. }
  destruct (lookup_prop k (lowered pb)) as [vb|] eqn:Hb.
  - intros [= ->]. destruct (Hlow pb Hb) as (? & K & ? & ?). eauto.
  - intros Ha. destruct (Hlow pa Ha) as (? & K & ? & ?). eauto.
Qed.

Lemma requests_headers :
  headers_of requests (VRef 1%positive) [("Content-Type", VStr "a"); ("X-A", VStr "1")].
Proof. right. by exists 1%positive. Qed.

Lemma requests_headersToMerge :
  headers_of requests (VRef 2%positive) [("content-type", VStr "b"); ("Cookie", VStr "c")].
Proof. right. by exists 2%positive. Qed.

Lemma requests_no_headers : headers_of requests VUndefined [].
Proof. by left. Qed.

Lemma requests_headers_keys :
  header_keys [("Content-Type", VStr "a"); ("X-A", VStr "1")].
Proof.
  intros k [v Hk]. cbn [lookup_prop] in Hk.
  destruct (String.eqb_spec k "Content-Type") as [-> | _];
    [| destruct (String.eqb_spec k "X-A") as [-> | _]; [| done]];
    (split; [reflexivity | discriminate]).
Qed.

Lemma requests_headersToMerge_keys :
  header_keys [("content-type", VStr "b"); ("Cookie", VStr "c")].
Proof.
  intros k [v Hk]. cbn [lookup_prop] in Hk.
  destruct (String.eqb_spec k "content-type") as [-> | _];
    [| destruct (String.eqb_spec k "Cookie") as [-> | _]; [| done]];
    (split; [reflexivity | discriminate]).
Qed.

Lemma no_header_keys : header_keys [].
Proof. by intros k ?%is_Some_None. Qed.

Lemma mergeHeaders_lower_case_keys_witness :
  headers_of requests (VRef 1%positive) [("Content-Type", VStr "a"); ("X-A", VStr "1")]
  /\ headers_of requests VUndefined []
  /\ header_keys [("Content-Type", VStr "a"); ("X-A", VStr "1")]
  /\ header_keys []
  /\ exists t merged h',
      mergeHeaders (VRef 1%positive) VUndefined requests = Returns (VRef t) h'
      /\ requests !! t = None /\ requests ⊆ h'
      /\ h' !! t = Some (OObj merged)
      /\ forall k v,
           lookup_prop k merged = Some v ->
           Js.toLowerCase k = k
           /\ exists K, Js.toLowerCase K = k
                        /\ (lookup_prop K [] = Some v
                            \/ lookup_prop K [("Content-Type", VStr "a"); ("X-A", VStr "1")]
                               = Some v).
Proof.
  split; [exact requests_headers |]. split; [exact requests_no_headers |].
  split; [exact requests_headers_keys |]. split; [exact no_header_keys |].
  apply (mergeHeaders_lower_case_keys requests (VRef 1%positive) VUndefined);
    [exact requests_headers | exact requests_no_headers
    | exact requests_headers_keys | exact no_header_keys].
Defined.

(** X20.  The second argument wins.  Let the keys of both arguments be
    ASCII text of which none lowers to [__proto__].  If no two keys of
    [headersToMerge] differ in case only, each of its keys is found in
    the result in lower case, with the value [headersToMerge] gives it,
    whatever [headers] holds under a key that lowers to the same. *)
Theorem mergeHeaders_override (h : heap) headers headersToMerge pa pb K v :
  headers_of h headers pa -> headers_of h headersToMerge pb ->
  header_keys pa -> header_keys pb ->
  case_distinct pb ->
  lookup_prop K pb = Some v ->
  exists t merged h',
    mergeHeaders headers headersToMerge h = Returns (VRef t) h'
    /\ h' !! t = Some (OObj merged)
    /\ lookup_prop (Js.toLowerCase K) merged = Some v.
Proof.
  intros Hx Hy _ _ Hdist HK.
  destruct (mergeHeaders_run h _ _ pa pb Hx Hy) as (t & h' & Hrun & _ & _ & Hres).
  exists t, (assigned (lowered pb) (assigned (lowered pa) [])), h'.
  do 2 (split; [done |]).
  by rewrite lookup_merged, (lookup_lowered_at pb K v Hdist HK).
Qed.

Lemma requests_case_distinct :
  case_distinct [("content-type", VStr "b"); ("Cookie", VStr "c")].
Proof.
  intros k k' [v Hk] [v' Hk'] Heq. cbn [lookup_prop] in Hk, Hk'.
  destruct (String.eqb_spec k "content-type") as [-> | _];
    [| destruct (String.eqb_spec k "Cookie") as [-> | _]; [| done]];
    (destruct (String.eqb_spec k' "content-type") as [-> | _];
     [| destruct (String.eqb_spec k' "Cookie") as [-> | _]; [| done]]);
    done.
Qed.

Lemma mergeHeaders_override_witness :
  headers_of requests (VRef 1%positive) [("Content-Type", VStr "a"); ("X-A", VStr "1")]
  /\ headers_of requests (VRef 2%positive)
       [("content-type", VStr "b"); ("Cookie", VStr "c")]
  /\ header_keys [("Content-Type", VStr "a"); ("X-A", VStr "1")]
  /\ header_keys [("content-type", VStr "b"); ("Cookie", VStr "c")]
  /\ case_distinct [("content-type", VStr "b"); ("Cookie", VStr "c")]
  /\ lookup_prop "Cookie" [("content-type", VStr "b"); ("Cookie", VStr "c")]
     = Some (VStr "c")
  /\ exists t merged h',
      mergeHeaders (VRef 1%positive) (VRef 2%positive) requests = Returns (VRef t) h'
      /\ h' !! t = Some (OObj merged)
      /\ lookup_prop (Js.toLowerCase "Cookie") merged = Some (VStr "c").
Proof.
  split; [exact requests_headers |]. split; [exact requests_headersToMerge |].
  split; [exact requests_headers_keys |]. split; [exact requests_headersToMerge_keys |].
  split; [exact requests_case_distinct |]. split; [reflexivity |].
  apply (mergeHeaders_override requests (VRef 1%positive) (VRef 2%positive)
           [("Content-Type", VStr "a"); ("X-A", VStr "1")]
           [("content-type", VStr "b"); ("Cookie", VStr "c")]);
    [exact requests_headers | exact requests_headersToMerge
    | exact requests_headers_keys | exact requests_headersToMerge_keys
    | exact requests_case_distinct | reflexivity].
Defined.

(** X21.  The first argument stays where the second is silent.  Let the
    keys of both arguments be ASCII text of which none lowers to
    [__proto__].  If no two keys of [headers] differ in case only, a
    key of [headers] that no key of [headersToMerge] matches, case
    apart, is found in the result in lower case with its value. *)
Theorem mergeHeaders_keeps (h : heap) headers headersToMerge pa pb K v :
  headers_of h headers pa -> headers_of h headersToMerge pb ->
  header_keys pa -> header_keys pb ->
  case_distinct pa ->
  lookup_prop K pa = Some v ->
  (forall K', is_Some (lookup_prop K' pb) -> Js.toLowerCase K' <> Js.toLowerCase K) ->
  exists t merged h',
    mergeHeaders headers headersToMerge h = Returns (VRef t) h'
    /\ h' !! t = Some (OObj merged)
    /\ lookup_prop (Js.toLowerCase K) merged = Some v.
Proof.
  intros Hx Hy _ _ Hdist HK Hsilent.
  destruct (mergeHeaders_run h _ _ pa pb Hx Hy) as (t & h' & Hrun & _ & _ & Hres).
  exists t, (assigned (lowered pb) (assigned (lowered pa) [])), h'.
  do 2 (split; [done |]).
  by rewrite lookup_merged, (lookup_lowered_none pb _ Hsilent),
    (lookup_lowered_at pa K v Hdist HK).
Qed.

Lemma requests_headers_case_distinct :
  case_distinct [("Content-Type", VStr "a"); ("X-A", VStr "1")].
Proof.
  intros k k' [v Hk] [v' Hk'] Heq. cbn [lookup_prop] in Hk, Hk'.
  destruct (String.eqb_spec k "Content-Type") as [-> | _];
    [| destruct (String.eqb_spec k "X-A") as [-> | _]; [| done]];
    (destruct (String.eqb_spec k' "Content-Type") as [-> | _];
     [| destruct (String.eqb_spec k' "X-A") as [-> | _]; [| done]]);
    done.
Qed.

Lemma requests_silent K' :
  is_Some (lookup_prop K' [("content-type", VStr "b"); ("Cookie", VStr "c")]) ->
  Js.toLowerCase K' <> Js.toLowerCase "X-A".
Proof.
  intros [v' Hv'] Heq. cbn [lookup_prop] in Hv'.
  destruct (String.eqb_spec K' "content-type") as [-> | _];
    [| destruct (String.eqb_spec K' "Cookie") as [-> | _]; [| done]];
    discriminate.
Qed.

Lemma mergeHeaders_keeps_witness :
  headers_of requests (VRef 1%positive) [("Content-Type", VStr "a"); ("X-A", VStr "1")]
  /\ headers_of requests (VRef 2%positive)
       [("content-type", VStr "b"); ("Cookie", VStr "c")]
  /\ header_keys [("Content-Type", VStr "a"); ("X-A", VStr "1")]
  /\ header_keys [("content-type", VStr "b"); ("Cookie", VStr "c")]
  /\ case_distinct [("Content-Type", VStr "a"); ("X-A", VStr "1")]
  /\ lookup_prop "X-A" [("Content-Type", VStr "a"); ("X-A", VStr "1")] = Some (VStr "1")
  /\ (forall K',
        is_Some (lookup_prop K' [("content-type", VStr "b"); ("Cookie", VStr "c")]) ->
        Js.toLowerCase K' <> Js.toLowerCase "X-A")
  /\ exists t merged h',
      mergeHeaders (VRef 1%positive) (VRef 2%positive) requests = Returns (VRef t) h'
      /\ h' !! t = Some (OObj merged)
      /\ lookup_prop (Js.toLowerCase "X-A") merged = Some (VStr "1").
Proof.
  split; [exact requests_headers |]. split; [exact requests_headersToMerge |].
  split; [exact requests_headers_keys |]. split; [exact requests_headersToMerge_keys |].
  split; [exact requests_headers_case_distinct |]. split; [reflexivity |].
  split; [exact requests_silent |].
  apply (mergeHeaders_keeps requests (VRef 1%positive) (VRef 2%positive)
           [("Content-Type", VStr "a"); ("X-A", VStr "1")]
           [("content-type", VStr "b"); ("Cookie", VStr "c")]);
    [exact requests_headers | exact requests_headersToMerge
    | exact requests_headers_keys | exact requests_headersToMerge_keys
    | exact requests_headers_case_distinct | reflexivity | exact requests_silent].
Defined.

End HeadersFacts.

(* ================================================================== *)
(** * The deep clone *)
(* ================================================================== *)

Module DeepCloneFacts.
Import Js Obj Copies ObjFacts CopiesFacts.

Local Open Scope string_scope.
Local Open Scope nat_scope.

Lemma Forall2_Forall_impl {A B} (P R : A -> B -> Prop) (Q : A -> Prop) (l : list A) (k : list B) :
  Forall2 P l k -> Forall Q l ->
  (forall x y, P x y -> Q x -> R x y) ->
  Forall2 R l k.
Proof.
  intros H. induction H as [|x y l k Hxy _ IH]; intros HQ Himp; [constructor |].
  apply Forall_cons in HQ as [Hx HQ]. constructor; [by apply Himp | by apply IH].
Qed.

(** A copy stays a copy in a heap that keeps what was new. *)
Lemma copied_agree (hA hB hC : heap) n : forall v v',
  (forall l o, hA !! l = None -> hB !! l = Some o -> hC !! l = Some o) ->
  copied hA hB n v v' -> copied hA hC n v v'.
Proof.
  induction n as [|n IH]; intros v v' Hagree Hc; inversion Hc; subst.
  - by constructor.
  - by constructor.
  - eapply copied_array; eauto.
    eapply Forall2_impl; [eassumption |]. intros x y Hxy. by apply IH.
  - eapply copied_mapping; eauto.
Qed.

(** A copy taken in a larger heap is a copy for the smaller one that
    holds the original. *)
Lemma copied_rebase (h hA hB hC : heap) n : forall v v',
  h ⊆ hA -> h ⊆ hB ->
  (forall l, hA !! l = None -> hB !! l = None) ->
  bounded h true n v ->
  copied hA hC n v v' -> copied hB hC n v v'.
Proof.
  induction n as [|n IH]; intros v v' HsubA HsubB Hdom Hb Hc; inversion Hc; subst.
  - by constructor.
  - by constructor.
  - inversion Hb as [? ? Hs | ? ? items0 Hl0 Hitems | ? ? props0 Hl0 _]; subst;
      [discriminate | |].
    2:{ pose proof (lookup_weaken _ _ _ _ Hl0 HsubA). congruence. }
    pose proof (lookup_weaken _ _ _ _ Hl0 HsubA) as HlA.
    assert (items0 = items) as -> by congruence.
    eapply copied_array; [by eapply lookup_weaken | by apply Hdom | eassumption |].
    eapply Forall2_Forall_impl; [eassumption | exact Hitems |].
    intros x y Hxy Hx. by apply IH.
  - inversion Hb as [? ? Hs | ? ? items0 Hl0 _ | ? ? props0 Hl0 Hprops]; subst;
      [discriminate | |].
    { pose proof (lookup_weaken _ _ _ _ Hl0 HsubA). congruence. }
    pose proof (lookup_weaken _ _ _ _ Hl0 HsubA) as HlA.
    assert (props0 = props) as -> by congruence.
    eapply copied_mapping; [by eapply lookup_weaken | by apply Hdom | eassumption | done |].
    intros k. apply IH; try done. apply bounded_get_own. by apply Hprops.
Qed.

(** On an input that nests to a bounded depth, the deep clone is a
    copy that shares no container with the caller's heap. *)
Lemma cloneObject_deep_copied n : forall fuel (h : heap) object,
  bounded h true n object -> n < fuel ->
  exists v' h',
    cloneObject fuel object true h = Returns v' h'
    /\ h ⊆ h'
    /\ copied h h' n object v'.
Proof.
  induction n as [|n IH]; intros fuel h v Hb Hfuel;
    (destruct fuel as [|fuel]; [lia |]);
    inversion Hb as [? ? Hs | ? l items Hl Hitems | ? l props Hl Hprops]; subst.
  - exists v, h. cbn [cloneObject]. rewrite Hs. by repeat constructor.
  - exists v, h. cbn [cloneObject]. rewrite Hs. by repeat constructor.
  - (* an array *)
    destruct (mapM_extends (fun item => cloneObject fuel item true)
                (fun h v => bounded h true n v)) with (items := items) (h := h)
      as (items' & h1 & Hmap & Hsub & Hlen & Helems).
    { intros. by eapply bounded_weaken. }
    { intros h0 v0 Hv0. destruct (IH fuel h0 v0 Hv0) as (v' & h' & ? & ? & _);
        [lia | eauto]. }
    { done. }
    set (l' := fresh (dom h1)).
    assert (Hl' : h1 !! l' = None) by apply fresh_unused.
    exists (VRef l'), (<[l' := OArr items']> h1).
    split.
    { cbn [cloneObject isObject negb].
      rewrite (bind_returns _ _ _ _ _ (Array_isArray_ref h l _ Hl)). cbn [is_array].
      rewrite (bind_returns _ _ _ _ _ (Array_items_ref h l _ Hl)). cbn [items_of].
      by rewrite (bind_returns _ _ _ _ _ Hmap). }
    split; [etrans; [exact Hsub | apply alloc_extends] |].
    eapply copied_array;
      [exact Hl | by eapply lookup_weaken_None | apply lookup_insert_eq |].
    apply Forall2_same_length_lookup_2; [done |].
    intros i x y Hx Hy.
    destruct (Helems i x Hx) as (y' & hi & hi' & Hy' & Hsubi & Hsubi' & Hruni).
    assert (y' = y) as -> by congruence.
    assert (Hbx : bounded h true n x).
    { rewrite Forall_forall in Hitems. apply Hitems. by eapply list_elem_of_lookup_2. }
    destruct (IH fuel hi x) as (y2 & h2 & Hrun2 & Hsub2 & Hcop);
      [by eapply bounded_weaken | lia |].
    rewrite Hruni in Hrun2. injection Hrun2 as <- <-.
    eapply copied_agree; [| eapply (copied_rebase h hi h hi'); try done].
    + intros l0 o _ Ho. eapply lookup_weaken; [exact Ho |].
      etrans; [exact Hsubi' | apply alloc_extends].
    + intros l0 Hnone. by eapply lookup_weaken_None.
  - (* a mapping *)
    specialize (Hprops eq_refl).
    set (l0 := fresh (dom h)).
    set (h0 := <[l0 := OObj []]> h).
    assert (Hl0 : h !! l0 = None) by apply fresh_unused.
    assert (Hl00 : h0 !! l0 = Some (OObj [])) by apply lookup_insert_eq.
    assert (Hsub0 : h ⊆ h0) by apply alloc_extends.
    destruct (reduce_inv
                (fun result key =>
                   bind (get (VRef l) key) (fun v =>
                   bind (cloneObject fuel v true) (fun c =>
                   bind (set result key c) (fun _ => ret result))))
                (fun rest hc =>
                   h ⊆ hc
                   /\ (forall l1, hc !! l1 = None -> h0 !! l1 = None)
                   /\ exists (seen : list string) ps,
                       own_keys (OObj props) = (seen ++ rest)%list
                       /\ hc !! l0 = Some (OObj ps)
                       /\ (forall k, is_Some (lookup_prop k ps) -> k ∈ seen)
                       /\ (forall k, k ∈ seen ->
                             exists c, lookup_prop k ps = Some c
                                       /\ copied h0 hc n (get_own (OObj props) k) c))
                (VRef l0)) with (keys := own_keys (OObj props)) (h := h0)
      as (h' & Hred & Hsub & Hdom & seen & ps & Hkeys & Hps & Honly & Hall).
    { intros k rest hc (Hsubc & Hdomc & seen & ps & Hkeys & Hps & Honly & Hall).
      pose proof (lookup_weaken _ _ _ _ Hl Hsubc) as Hlc.
      assert (Hbk : bounded h true n (get_own (OObj props) k))
        by by apply bounded_get_own.
      destruct (IH fuel hc (get_own (OObj props) k))
        as (c & hc' & Hc & Hsubc' & Hcop);
        [by eapply bounded_weaken | lia |].
      pose proof (lookup_weaken _ _ _ _ Hps Hsubc') as Hps'.
      set (hc2 := <[l0 := OObj (set_prop k c ps)]> hc').
      assert (Hoff : forall l1 o, l1 <> l0 -> hc !! l1 = Some o -> hc2 !! l1 = Some o).
      { intros l1 o Hne Ho. unfold hc2. rewrite lookup_insert_ne by done.
        by eapply lookup_weaken. }
      exists hc2. split.
      { rewrite (bind_returns _ _ _ _ _ (get_ref hc l _ k Hlc)).
        rewrite (bind_returns _ _ _ _ _ Hc).
        by rewrite (bind_returns _ _ _ _ _ (set_mapping hc' l0 ps k c Hps')). }
      split; [apply insert_subseteq_r; [done | by etrans] |].
      split.
      { intros l1 Hnone. apply lookup_insert_None in Hnone as [Hnone _].
        apply Hdomc. by eapply lookup_weaken_None. }
      exists (seen ++ [k])%list, (set_prop k c ps).
      split; [by rewrite <- app_assoc |].
      split; [apply lookup_insert_eq |].
      split.
      { intros k2 Hk2. apply elem_of_app.
        destruct (decide (k = k2)) as [<- | Hne];
          [right; by apply list_elem_of_singleton |].
        left. apply Honly. by rewrite lookup_set_prop_ne in Hk2. }
      intros k2 Hk2.
      destruct (decide (k = k2)) as [<- | Hne].
      - exists c. split; [apply lookup_set_prop_eq |].
        eapply (copied_rebase h hc h0 hc2); try done.
        eapply copied_agree; [| exact Hcop].
        intros l1 o Hnone Ho. unfold hc2. rewrite lookup_insert_ne; [done |].
        intros <-. congruence.
      - apply elem_of_app in Hk2 as [Hk2 | Hk2];
          [| apply list_elem_of_singleton in Hk2; congruence].
        destruct (Hall k2 Hk2) as (c2 & Hc2 & Hcop2).
        exists c2. split; [by rewrite lookup_set_prop_ne |].
        eapply copied_agree; [| exact Hcop2].
        intros l1 o Hnone Ho. apply Hoff; [| done]. intros ->. congruence. }
    { split; [done |]. split; [done |].
      exists [], []. split; [done |]. split; [done |].
      split; [by intros k ?%is_Some_None | by intros k ?%elem_of_nil]. }
    rewrite app_nil_r in Hkeys.
    exists (VRef l0), h'. split.
    { cbn [cloneObject isObject negb].
      rewrite (bind_returns _ _ _ _ _ (Array_isArray_ref h l _ Hl)). cbn [is_array].
      rewrite (bind_returns _ _ _ _ _ (Object_keys_ref h l _ Hl)).
      unfold bind at 1, alloc. exact Hred. }
    split; [done |].
    eapply copied_mapping; [exact Hl | exact Hl0 | exact Hps | |].
    + intros k. rewrite <- (elem_of_own_keys k props), Hkeys. split; [apply Honly |].
      intros Hk. destruct (Hall k Hk) as (c & -> & _). done.
    + intros k. destruct (decide (k ∈ seen)) as [Hk | Hk].
      * destruct (Hall k Hk) as (c & Hc & Hcop).
        rewrite (get_own_lookup _ _ _ Hc).
        eapply (copied_rebase h h0 h h'); try done.
        -- intros l1 Hnone. by eapply lookup_weaken_None.
        -- by apply bounded_get_own.
      * assert (lookup_prop k ps = None) as Hnone.
        { destruct (lookup_prop k ps) eqn:E; [| done].
          destruct Hk. apply Honly. by rewrite E. }
        assert (lookup_prop k props = None) as Hnone'.
        { destruct (lookup_prop k props) eqn:E; [| done].
          destruct Hk. rewrite <- Hkeys. apply elem_of_own_keys. by rewrite E. }
        unfold get_own. cbn [own_prop]. rewrite Hnone, Hnone'. by constructor.
Qed.

(** X14.  The deep clone is a deep copy.  On an input that nests to a
    bounded depth and in which no mapping has an own key [__proto__],
    [cloneObject(object, true)] returns a copy of [object]: a scalar as
    it is; for an array a new array whose elements are copies of the
    elements, in order; for a mapping a new mapping with the same keys,
    each bound to a copy of its value.  Every container of the copy, at
    every depth, is at a location the caller's heap did not use, and
    the caller's containers stay as they were.  (Under an own
    [__proto__] the source's [result[key] = ...] makes no property, and
    the copy lacks the key.) *)
Theorem cloneObject_deep_copies n fuel (h : heap) object :
  proto_free h object ->
  bounded h true n object -> n < fuel ->
  exists v' h',
    cloneObject fuel object true h = Returns v' h'
    /\ h ⊆ h'
    /\ copied h h' n object v'.
Proof. intros _. apply cloneObject_deep_copied. Qed.

Lemma reach_is_object (h : heap) v l : reach h v l -> isObject v = true.
Proof. by destruct 1. Qed.

Lemma get_own_scalars (items : list value) k :
  Forall (fun v => isObject v = false) items ->
  isObject (get_own (OArr items) k) = false.
Proof.
  intros Hall. unfold get_own. cbn [own_prop].
  destruct (array_index k) as [n|].
  - destruct (items !! N.to_nat n) as [v|] eqn:E; [| done].
    simpl. rewrite Forall_forall in Hall. apply Hall.
    by eapply list_elem_of_lookup_2.
  - by destruct (String.eqb k "length").
Qed.

(** From the mapping of [nested] only the mapping and its array are
    reached. *)
Lemma nested_reach l :
  reach nested (VRef 1%positive) l -> l = 1%positive \/ l = 2%positive.
Proof.
  intros H. inversion H as [| ? o k ? Ho Hnext]; subst; [by left |].
  assert (o = OObj [("a", VRef 2%positive)]) as ->
    by (apply (inj Some); rewrite <- Ho; reflexivity).
  right.
  unfold get_own in Hnext. cbn [own_prop lookup_prop] in Hnext.
  destruct (String.eqb k "a"); simpl in Hnext; [| inversion Hnext].
  inversion Hnext as [| ? o' k' ? Ho' Hnext']; subst; [done |].
  assert (o' = OArr [VNum (of_Z 1)]) as ->
    by (apply (inj Some); rewrite <- Ho'; reflexivity).
  apply reach_is_object in Hnext'.
  rewrite get_own_scalars in Hnext'; [done | by repeat constructor].
Qed.

Lemma nested_proto_free : proto_free nested (VRef 1%positive).
Proof.
  intros l props [-> | ->]%nested_reach Hl.
  - assert (OObj props = OObj [("a", VRef 2%positive)]) as [= ->]
      by (apply (inj Some); rewrite <- Hl; reflexivity).
    reflexivity.
  - assert (Some (OObj props) = Some (OArr [VNum (of_Z 1)])) as Harr
      by (rewrite <- Hl; reflexivity).
    discriminate Harr.
Qed.

Lemma cloneObject_deep_copies_witness :
  proto_free nested (VRef 1%positive)
  /\ bounded nested true 2 (VRef 1%positive)
  /\ 2 < 3
  /\ exists v' h',
      cloneObject 3 (VRef 1%positive) true nested = Returns v' h'
      /\ nested ⊆ h'
      /\ copied nested h' 2 (VRef 1%positive) v'.
Proof.
  split; [exact nested_proto_free |].
  split; [exact nested_bounded |]. split; [lia |].
  apply (cloneObject_deep_copies 2 3 nested (VRef 1%positive));
    [exact nested_proto_free | exact nested_bounded | lia].
Defined.

End DeepCloneFacts.

(* ================================================================== *)
(** * What a merge binds a key of source to *)
(* ================================================================== *)

Module MergeFacts.
Import Js Obj Copies ObjFacts.

Local Open Scope string_scope.
Local Open Scope nat_scope.

(** On two mappings that merge with nothing of source written, the
    target comes back with every key of source bound to what
    [deepMergeObject], one level down, returns for the two bindings. *)
Lemma deepMergeObject_mapping_key (h : heap) n fuel lt ls pt os W R k :
  merges h n (VRef lt) (VRef ls) W R ->
  (forall l, reach h (VRef ls) l -> l ∉ W) ->
  n < fuel ->
  h !! lt = Some (OObj pt) -> h !! ls = Some os ->
  k ∈ own_keys os ->
  exists fuel' h' pt' merged hk hk',
    fuel = S (S fuel')
    /\ deepMergeObject fuel (VRef lt) (VRef ls) h = Returns (VRef lt) h'
    /\ h' !! lt = Some (OObj pt')
    /\ lookup_prop k pt' = Some merged
    /\ deepMergeObject (S fuel') (get_own (OObj pt) k) (get_own os k) hk
       = Returns merged hk'.
Proof.
  intros Hm Hsep Hfuel Hpt Hos Hk.
  assert (Hn : exists n0, n = S n0).
  { inversion Hm; subst; [discriminate | congruence | eauto]. }
  destruct Hn as (n0 & ->).
  destruct fuel as [|[|fuel']]; [lia | lia |].
  destruct (deepMergeObject_merges (S n0) (S (S fuel')) h _ _ W R Hm)
    as (r & h' & Hrun & _ & Hpost); [by eapply merges_separate | done |].
  destruct (Hpost lt ls pt os eq_refl eq_refl Hpt Hos)
    as (-> & pt' & Hpt' & _ & Hkeys).
  destruct (Hkeys k Hk) as (merged & hk & hk' & Hmerged & Hrunk & _).
  exists fuel', h', pt', merged, hk, hk'. by repeat split.
Qed.

(** X15.  A source value is taken over, not copied.  Take a merge of
    two mappings of the kind [deepMergeObject_separate] is about:
    finite, with no target-side array facing a mapping that has keys,
    nothing reachable from source written, and no key of source that
    [Object.prototype] answers for.  If the target binds a key of
    source to no container (or not at all), it ends up with the very
    value source holds there, unless that is [undefined]: a container
    of source then belongs to both. *)
Theorem deepMergeObject_takes_source_value (h : heap) n fuel lt ls pt os W R k :
  merges h n (VRef lt) (VRef ls) W R ->
  (forall l, reach h (VRef ls) l -> l ∉ W) ->
  plain_keys h (VRef ls) ->
  n < fuel ->
  h !! lt = Some (OObj pt) -> h !! ls = Some os ->
  k ∈ own_keys os ->
  isObject (get_own (OObj pt) k) = false ->
  is_undefined (get_own os k) = false ->
  exists h' pt',
    deepMergeObject fuel (VRef lt) (VRef ls) h = Returns (VRef lt) h'
    /\ h' !! lt = Some (OObj pt')
    /\ lookup_prop k pt' = Some (get_own os k).
Proof.
  intros Hm Hsep _ Hfuel Hpt Hos Hk Ht Hs.
  destruct (deepMergeObject_mapping_key h n fuel lt ls pt os W R k)
    as (fuel' & h' & pt' & merged & hk & hk' & -> & Hrun & Hpt' & Hmerged & Hrunk);
    try done.
  exists h', pt'. do 2 (split; [done |]).
  rewrite Hmerged. f_equal.
  cbn [deepMergeObject] in Hrunk. rewrite Hs, Ht, orb_false_r in Hrunk.
  cbn [negb orb] in Hrunk.
  destruct (is_undefined (get_own (OObj pt) k)) eqn:Hu.
  - destruct (get_own (OObj pt) k); try discriminate.
    unfold ret, or_else in Hrunk. cbn [ToBoolean] in Hrunk. congruence.
  - unfold ret in Hrunk. congruence.
Qed.

Lemma deepMergeObject_takes_source_value_witness :
  merges settings 2 (VRef 1%positive) (VRef 3%positive)
         ({[1%positive]} ∪ ⋃ (settings_written <$> ["a"; "b"]))
         ({[3%positive]} ∪ ⋃ (settings_read <$> ["a"; "b"]))
  /\ (forall l, reach settings (VRef 3%positive) l ->
                l ∉ ({[1%positive]} ∪ ⋃ (settings_written <$> ["a"; "b"]) : gset loc))
  /\ plain_keys settings (VRef 3%positive)
  /\ 2 < 3
  /\ settings !! 1%positive = Some (OObj [("a", VRef 2%positive); ("keep", VNum (of_Z 7))])
  /\ settings !! 3%positive = Some (OObj [("a", VRef 4%positive); ("b", VNum (of_Z 2))])
  /\ "b" ∈ own_keys (OObj [("a", VRef 4%positive); ("b", VNum (of_Z 2))])
  /\ isObject (get_own (OObj [("a", VRef 2%positive); ("keep", VNum (of_Z 7))]) "b") = false
  /\ is_undefined (get_own (OObj [("a", VRef 4%positive); ("b", VNum (of_Z 2))]) "b") = false
  /\ exists h' pt',
      deepMergeObject 3 (VRef 1%positive) (VRef 3%positive) settings
      = Returns (VRef 1%positive) h'
      /\ h' !! 1%positive = Some (OObj pt')
      /\ lookup_prop "b" pt'
         = Some (get_own (OObj [("a", VRef 4%positive); ("b", VNum (of_Z 2))]) "b").
Proof.
  split; [exact settings_merges |].
  split; [exact settings_separate |].
  split; [exact settings_plain_keys |].
  split; [lia |].
  split; [reflexivity |]. split; [reflexivity |].
  split; [by apply (bool_decide_unpack _) |].
  split; [reflexivity |]. split; [reflexivity |].
  apply (deepMergeObject_takes_source_value settings 2 3 1%positive 3%positive
           [("a", VRef 2%positive); ("keep", VNum (of_Z 7))]
           (OObj [("a", VRef 4%positive); ("b", VNum (of_Z 2))])
           ({[1%positive]} ∪ ⋃ (settings_written <$> ["a"; "b"]))
           ({[3%positive]} ∪ ⋃ (settings_read <$> ["a"; "b"])) "b");
    [exact settings_merges | exact settings_separate | exact settings_plain_keys | lia
    | reflexivity | reflexivity | by apply (bool_decide_unpack _)
    | reflexivity | reflexivity].
Defined.

(** X16.  A property of source that is [undefined].  Take a merge of
    two mappings of the kind [deepMergeObject_separate] is about:
    finite, with no target-side array facing a mapping that has keys,
    nothing reachable from source written, and no key of source that
    [Object.prototype] answers for.  If source holds [undefined] under
    a key, the target keeps what it has there only if that is truthy; a
    falsy value of the target, [0], [''], [false] or [null], is
    replaced by [undefined]. *)
Theorem deepMergeObject_undefined_property (h : heap) n fuel lt ls pt os W R k :
  merges h n (VRef lt) (VRef ls) W R ->
  (forall l, reach h (VRef ls) l -> l ∉ W) ->
  plain_keys h (VRef ls) ->
  n < fuel ->
  h !! lt = Some (OObj pt) -> h !! ls = Some os ->
  k ∈ own_keys os ->
  get_own os k = VUndefined ->
  exists h' pt',
    deepMergeObject fuel (VRef lt) (VRef ls) h = Returns (VRef lt) h'
    /\ h' !! lt = Some (OObj pt')
    /\ lookup_prop k pt'
       = Some (if ToBoolean (get_own (OObj pt) k)
               then get_own (OObj pt) k else VUndefined).
Proof.
  intros Hm Hsep _ Hfuel Hpt Hos Hk Hs.
  destruct (deepMergeObject_mapping_key h n fuel lt ls pt os W R k)
    as (fuel' & h' & pt' & merged & hk & hk' & -> & Hrun & Hpt' & Hmerged & Hrunk);
    try done.
  exists h', pt'. do 2 (split; [done |]).
  rewrite Hmerged. f_equal.
  cbn [deepMergeObject] in Hrunk. rewrite Hs in Hrunk.
  cbn [is_undefined] in Hrunk. rewrite orb_true_r in Hrunk.
  unfold ret, or_else in Hrunk. congruence.
Qed.

Lemma cleared_merges :
  merges cleared 1 (VRef 1%positive) (VRef 2%positive)
         ({[1%positive]} ∪ ⋃ ((fun _ => ∅) <$> ["a"]))
         ({[2%positive]} ∪ ⋃ ((fun _ => ∅) <$> ["a"])).
Proof.
  apply (merges_keyed cleared 0 1%positive 2%positive
           [("a", VNum (of_Z 0))] (OObj [("a", VUndefined)])
           (fun _ => ∅) (fun _ => ∅)).
  - reflexivity.
  - reflexivity.
  - by apply (bool_decide_unpack _).
  - intros k Hk. change (k ∈ ["a"]) in Hk.
    apply list_elem_of_singleton in Hk as ->. by apply merges_leaf.
  - intros k k' _ _ _. apply disjoint_empty_l.
  - intros k _. apply not_elem_of_empty.
Defined.

Lemma cleared_reach l : reach cleared (VRef 2%positive) l -> l = 2%positive.
Proof.
  intros H. inversion H as [| ? o k ? Ho Hnext]; subst; [done |].
  assert (o = OObj [("a", VUndefined)]) as ->
    by (apply (inj Some); rewrite <- Ho; reflexivity).
  unfold get_own in Hnext. cbn [own_prop lookup_prop] in Hnext.
  destruct (String.eqb k "a"); simpl in Hnext; inversion Hnext.
Qed.

Lemma cleared_separate l :
  reach cleared (VRef 2%positive) l ->
  l ∉ ({[1%positive]} ∪ ⋃ ((fun _ : string => ∅) <$> ["a"]) : gset loc).
Proof. intros ->%cleared_reach. by apply (bool_decide_unpack _). Qed.

Lemma cleared_plain_keys : plain_keys cleared (VRef 2%positive).
Proof.
  intros l o k ->%cleared_reach Ho Hk.
  assert (o = OObj [("a", VUndefined)]) as ->
    by (apply (inj Some); rewrite <- Ho; reflexivity).
  change (k ∈ ["a"]) in Hk.
  apply list_elem_of_singleton in Hk as ->. reflexivity.
Qed.

Lemma deepMergeObject_undefined_property_witness :
  merges cleared 1 (VRef 1%positive) (VRef 2%positive)
         ({[1%positive]} ∪ ⋃ ((fun _ => ∅) <$> ["a"]))
         ({[2%positive]} ∪ ⋃ ((fun _ => ∅) <$> ["a"]))
  /\ (forall l, reach cleared (VRef 2%positive) l ->
                l ∉ ({[1%positive]} ∪ ⋃ ((fun _ : string => ∅) <$> ["a"]) : gset loc))
  /\ plain_keys cleared (VRef 2%positive)
  /\ 1 < 2
  /\ cleared !! 1%positive = Some (OObj [("a", VNum (of_Z 0))])
  /\ cleared !! 2%positive = Some (OObj [("a", VUndefined)])
  /\ "a" ∈ own_keys (OObj [("a", VUndefined)])
  /\ get_own (OObj [("a", VUndefined)]) "a" = VUndefined
  /\ exists h' pt',
      deepMergeObject 2 (VRef 1%positive) (VRef 2%positive) cleared
      = Returns (VRef 1%positive) h'
      /\ h' !! 1%positive = Some (OObj pt')
      /\ lookup_prop "a" pt'
         = Some (if ToBoolean (get_own (OObj [("a", VNum (of_Z 0))]) "a")
                 then get_own (OObj [("a", VNum (of_Z 0))]) "a" else VUndefined).
Proof.
  split; [exact cleared_merges |].
  split; [exact cleared_separate |].
  split; [exact cleared_plain_keys |].
  split; [lia |].
  split; [reflexivity |]. split; [reflexivity |].
  split; [by apply (bool_decide_unpack _) |]. split; [reflexivity |].
  apply (deepMergeObject_undefined_property cleared 1 2 1%positive 2%positive
           [("a", VNum (of_Z 0))] (OObj [("a", VUndefined)])
           ({[1%positive]} ∪ ⋃ ((fun _ => ∅) <$> ["a"]))
           ({[2%positive]} ∪ ⋃ ((fun _ => ∅) <$> ["a"])) "a");
    [exact cleared_merges | exact cleared_separate | exact cleared_plain_keys | lia
    | reflexivity | reflexivity | by apply (bool_decide_unpack _) | reflexivity].
Defined.

End MergeFacts.
